(** * PDF-layout-to-Markdown engine of md-editor (src/App.vue)

    A shallow embedding of the functions [getMedian], [quantizeY],
    [extractLinesFromPdfTextContent], [looksLikeHeading], [headingLevel],
    [normalizeListPrefix], [splitTabbedColumns], [fallbackTabbedBlock],
    [tabbedBlockToMarkdownTable], [linesToMarkdown] and [pdfToMarkdown],
    of the import handlers around them ([isPdfFile], [pickPdfFile],
    [importPdf], the drag handlers) and of the table rule of the paste
    conversion, and the properties of the engine's specification.

    - A JavaScript string is the list of its UTF-16 code units ([jsstring]),
      so that [length] is the source's [.length]; each regular expression
      of the source is a function on such lists.
    - A JavaScript number is kept abstract behind the interface [JsNumber];
      every function is written once against it.  Two instances are given:
      IEEE binary64 ([float], the kernel's primitive doubles), which is the
      arithmetic of the program, and the exact rationals ([Q]), which leave
      rounding, overflow, infinities and NaN out.  What the program decides
      from computed numbers (the heading test, the separators, the median)
      is proved for every instance, binary64 included, in terms of the
      computed values; the rationals say what those values are when
      nothing rounds, and the two are compared at sample points.
    - The [Map] of rows is an association list in insertion order.
    - Arrays that are sorted in place live in a heap ([gmap]) where a
      property is about the caller's array.
    - Thrown errors are values of [PdfError]; the page reads of the PDF
      library are recorded in a log threaded through the monad [PdfIO]. *)

From Stdlib Require Import ZArith QArith Qround Qabs Qminmax Lqa.
From Stdlib Require Import List Bool Ascii String Lia Permutation Sorted.
From Stdlib Require Import Floats Uint63 SetoidList SetoidPermutation.
From stdpp Require Import gmap.
Import ListNotations.

(* Decimal literals such as 1.28 denote the nearest double, as in the source. *)
Set Warnings "-inexact-float".

Local Open Scope nat_scope.

(** ** Strings: lists of UTF-16 code units *)

Definition jsstring : Type := list N.

(** An ASCII literal as a [jsstring]. *)
Definition str (s : string) : jsstring :=
  map N_of_ascii (list_ascii_of_string s).

Definition ch_tab : N := 9%N.
Definition ch_nl : N := 10%N.
Definition ch_space : N := 32%N.
Definition ch_bar : N := 124%N.
Definition ch_backslash : N := 92%N.
Definition ch_hash : N := 35%N.

(** The class [\s] of ECMAScript regular expressions, which is also the
    set that [String.prototype.trim] strips (WhiteSpace and LineTerminator). *)
Definition is_ws (c : N) : bool :=
  ((9 <=? c) && (c <=? 13) || (c =? 32) || (c =? 160) || (c =? 5760)
   || (8192 <=? c) && (c <=? 8202) || (c =? 8232) || (c =? 8233)
   || (c =? 8239) || (c =? 8287) || (c =? 12288) || (c =? 65279))%N.

(** [\d] *)
Definition is_digit (c : N) : bool := ((48 <=? c) && (c <=? 57))%N.

(** [[ \t]] *)
Definition is_space_or_tab (c : N) : bool := ((c =? 32) || (c =? 9))%N.

Definition is_char (a c : N) : bool := (c =? a)%N.

Fixpoint drop_while (p : N -> bool) (s : jsstring) : jsstring :=
  match s with
  | [] => []
  | c :: r => if p c then drop_while p r else s
  end.

Fixpoint take_while (p : N -> bool) (s : jsstring) : jsstring :=
  match s with
  | [] => []
  | c :: r => if p c then c :: take_while p r else []
  end.

(** [s.replace(/p+$/, '')] for a character class [p]. *)
Definition strip_end (p : N -> bool) (s : jsstring) : jsstring :=
  rev (drop_while p (rev s)).

(** [s.trim()] *)
Definition trim (s : jsstring) : jsstring :=
  strip_end is_ws (drop_while is_ws s).

(** A string is trimmed when it neither starts nor ends with whitespace. *)
Definition trimmed (s : jsstring) : Prop :=
  drop_while is_ws s = s /\ strip_end is_ws s = s.

(** Whether the last character is whitespace. *)
Fixpoint ends_with_ws (s : jsstring) : bool :=
  match s with
  | [] => false
  | [c] => is_ws c
  | _ :: r => ends_with_ws r
  end.

(** [s.replace(/p{min,}/g, rep)] for a character class [p]: every maximal
    run of [p]-characters of length at least [min] is replaced by [rep];
    shorter runs stay.  [run] is the run read so far. *)
Definition flush_run (min : nat) (rep run : jsstring) : jsstring :=
  if length run <? min then run else rep.

Fixpoint replace_runs_from (min : nat) (p : N -> bool) (rep run s : jsstring)
  : jsstring :=
  match s with
  | [] => flush_run min rep run
  | c :: r =>
      if p c then replace_runs_from min p rep (run ++ [c]) r
      else flush_run min rep run ++ c :: replace_runs_from min p rep [] r
  end.

Definition replace_runs (min : nat) (p : N -> bool) (rep s : jsstring)
  : jsstring :=
  match min with
  | O => s (* unused: every pattern of the source has min >= 1 *)
  | _ => replace_runs_from min p rep [] s
  end.

(** [s.replace(/[ \t]+\n/g, '\n')]: a maximal run of blanks that a newline
    follows is deleted. *)
Fixpoint strip_blanks_before_nl_from (run s : jsstring) : jsstring :=
  match s with
  | [] => run
  | c :: r =>
      if is_space_or_tab c then strip_blanks_before_nl_from (run ++ [c]) r
      else if (c =? ch_nl)%N then c :: strip_blanks_before_nl_from [] r
      else run ++ c :: strip_blanks_before_nl_from [] r
  end.

Definition strip_blanks_before_nl (s : jsstring) : jsstring :=
  strip_blanks_before_nl_from [] s.

(** [s.split(sep)] for a one-character separator. *)
Fixpoint split_on_from (sep : N) (cur s : jsstring) : list jsstring :=
  match s with
  | [] => [cur]
  | c :: r =>
      if (c =? sep)%N then cur :: split_on_from sep [] r
      else split_on_from sep (cur ++ [c]) r
  end.

Definition split_on (sep : N) (s : jsstring) : list jsstring :=
  split_on_from sep [] s.

(** [s.split(/\s+/)]: the pieces between the maximal whitespace runs. *)
Fixpoint split_ws_from (in_sep : bool) (cur s : jsstring) : list jsstring :=
  match s with
  | [] => [cur]
  | c :: r =>
      if is_ws c then
        if in_sep then split_ws_from true cur r
        else cur :: split_ws_from true [] r
      else split_ws_from false (cur ++ [c]) r
  end.

Definition split_ws (s : jsstring) : list jsstring :=
  split_ws_from false [] s.

(** [parts.join(sep)] *)
Fixpoint join (sep : jsstring) (parts : list jsstring) : jsstring :=
  match parts with
  | [] => []
  | [p] => p
  | p :: rest => p ++ sep ++ join sep rest
  end.

(** [s.includes(c)] for a one-character needle. *)
Definition includes (c : N) (s : jsstring) : bool := existsb (is_char c) s.

(** [s.replace(/\|/g, '\\|')] *)
Definition escape_bars (s : jsstring) : jsstring :=
  flat_map (fun c => if (c =? ch_bar)%N then [ch_backslash; ch_bar] else [c]) s.

(** ** Numbers *)

(** The operations on JavaScript numbers that the engine uses. *)
Class JsNumber (num : Type) : Type := {
  num_lit : Q -> num;              (* a numeric literal, written as a fraction *)
  num_add : num -> num -> num;
  num_sub : num -> num -> num;
  num_mul : num -> num -> num;
  num_div : num -> num -> num;
  num_lt : num -> num -> bool;     (* a < b *)
  num_le : num -> num -> bool;     (* a <= b *)
  num_max : num -> num -> num;     (* Math.max(a, b) *)
  num_abs : num -> num;            (* Math.abs(a) *)
  num_round : num -> num;          (* Math.round(a) *)
  num_falsy : num -> bool;         (* !a : zero or NaN *)
  num_same : num -> num -> bool    (* SameValueZero, the key equality of Map *)
}.

Definition num_gt {num} `{JsNumber num} (a b : num) : bool := num_lt b a.
Definition num_ge {num} `{JsNumber num} (a b : num) : bool := num_le b a.
Definition num_of_nat {num} `{JsNumber num} (n : nat) : num :=
  num_lit (inject_Z (Z.of_nat n)).
(** [a || b] on numbers *)
Definition num_or {num} `{JsNumber num} (a b : num) : num :=
  if num_falsy a then b else a.

(** *** Exact rationals *)

Definition Qltb (a b : Q) : bool := negb (Qle_bool b a).

(** Math.round: the nearest integer, ties towards plus infinity. *)
Definition Qround_half_up (a : Q) : Q := inject_Z (Qfloor (a + (1 # 2))).

Definition Qmax_b (a b : Q) : Q := if Qltb a b then b else a.

(** The comparator [(a, b) => a - b] of [getMedian], over the rationals. *)
Definition Qascending (a b : Q) : Q := (a - b)%Q.

#[global] Instance Q_JsNumber : JsNumber Q := {|
  num_lit := fun q => q;
  num_add := Qplus;
  num_sub := Qminus;
  num_mul := Qmult;
  num_div := Qdiv;
  num_lt := Qltb;
  num_le := Qle_bool;
  num_max := Qmax_b;
  num_abs := Qabs;
  num_round := Qround_half_up;
  num_falsy := fun a => Qeq_bool a 0;
  num_same := Qeq_bool
|}.

(** *** IEEE binary64 *)

Module Binary64.

Definition of_Z (z : Z) : float :=
  let m := PrimFloat.of_uint63 (Uint63.of_Z (Z.abs z)) in
  if (z <? 0)%Z then PrimFloat.opp m else m.

(** A literal [n/d] with [n] and [d] below 2^53 is the double nearest to
    the fraction, as the division is correctly rounded. *)
Definition lit (q : Q) : float :=
  PrimFloat.div (of_Z (Qnum q)) (of_Z (Zpos (Qden q))).

Definition is_nan (a : float) : bool := negb (PrimFloat.eqb a a).

Definition max (a b : float) : float :=
  if PrimFloat.ltb a b then b
  else if is_nan b then b
  else if PrimFloat.eqb a b then
    (if PrimFloat.eqb a PrimFloat.zero then PrimFloat.add a b else a)
  else a.

(** Math.round on a double: [x = (-1)^s * m * 2^e]; with [e >= 0] it is an
    integer already, otherwise floor(x + 1/2) is computed exactly. *)
Definition round (a : float) : float :=
  match Prim2SF a with
  | S754_finite s m e =>
      if (0 <=? e)%Z then a
      else
        let n := if s then Z.neg m else Z.pos m in
        let d := (2 ^ (- e))%Z in
        let z := ((2 * n + d) / (2 * d))%Z in
        if (z =? 0)%Z then (if s then PrimFloat.neg_zero else PrimFloat.zero)
        else of_Z z
  | _ => a
  end.

Definition falsy (a : float) : bool :=
  PrimFloat.eqb a PrimFloat.zero || is_nan a.

Definition same (a b : float) : bool :=
  PrimFloat.eqb a b || (is_nan a && is_nan b).

#[global] Instance float_JsNumber : JsNumber float := {|
  num_lit := lit;
  num_add := PrimFloat.add;
  num_sub := PrimFloat.sub;
  num_mul := PrimFloat.mul;
  num_div := PrimFloat.div;
  num_lt := PrimFloat.ltb;
  num_le := PrimFloat.leb;
  num_max := max;
  num_abs := PrimFloat.abs;
  num_round := round;
  num_falsy := falsy;
  num_same := same
|}.

End Binary64.

(** ** The engine, over any number type *)

Section Engine.

Context {num : Type} `{JsNumber num}.

(** [type PdfTextSegment]; the fields are prefixed because [ExtractedLine]
    has a [text] and a [fontSize] too. *)
Record PdfTextSegment : Type := {
  seg_text : jsstring;
  seg_x : num;
  seg_width : num;
  seg_fontSize : num
}.

(** [type ExtractedLine] *)
Record ExtractedLine : Type := {
  line_text : jsstring;
  hasTabs : bool;
  line_fontSize : num;
  breakAfter : bool
}.

(** A text item of the PDF library as the engine reads it: [str] (empty
    when missing), [transform] (the empty array when it is not an array),
    [width] and [height] (possibly missing). *)
Record RawItem : Type := {
  item_str : jsstring;
  item_transform : list num;
  item_width : option num;
  item_height : option num
}.

(** A row of the page: the entries of [rowMap] turned into [{ y, segments }]. *)
Record Row : Type := {
  row_y : num;
  row_segments : list PdfTextSegment
}.

(** [a || b] where [a] may be [undefined]. *)
Definition opt_or (a : option num) (b : num) : num :=
  match a with
  | Some v => num_or v b
  | None => b
  end.

(** [Array.prototype.sort(cmp)]: a stable sort; [a] goes after [b] when
    [cmp(a, b) > 0]. *)
Fixpoint sort_insert {A : Type} (cmp : A -> A -> num) (a : A) (l : list A)
  : list A :=
  match l with
  | [] => [a]
  | b :: l' =>
      if num_gt (cmp a b) (num_lit 0) then b :: sort_insert cmp a l'
      else a :: l
  end.

Definition sort_by {A : Type} (cmp : A -> A -> num) (l : list A) : list A :=
  fold_right (sort_insert cmp) [] l.

(** [getMedian] *)
Definition getMedian (values : list num) : num :=
  if length values =? 0 then num_lit 0
  else
    let sorted := sort_by (fun a b => num_sub a b) values in
    let middle := length sorted / 2 in
    if length sorted mod 2 =? 0 then
      num_div (num_add (nth (middle - 1) sorted (num_lit 0))
                       (nth middle sorted (num_lit 0)))
              (num_lit 2)
    else nth middle sorted (num_lit 0).

(** [quantizeY] *)
Definition quantizeY (value : num) : num :=
  num_mul (num_round (num_div value (num_lit 2))) (num_lit 2).

(** *** extractLinesFromPdfTextContent *)

(** The body of the first loop up to [quantizeY]: the normalised text and
    the defaulted geometry of one item, or [None] when the loop continues. *)
Definition segment_of_item (rawItem : RawItem)
  : option (num * PdfTextSegment) :=
  let text := trim (replace_runs 1 is_ws [ch_space] (item_str rawItem)) in
  match text with
  | [] => None
  | _ =>
      let transform := item_transform rawItem in
      let x := opt_or (nth_error transform 4) (num_lit 0) in
      let y := opt_or (nth_error transform 5) (num_lit 0) in
      let width :=
        opt_or (item_width rawItem)
          (num_max (num_lit 4) (num_mul (num_of_nat (length text)) (num_lit 4))) in
      let fontSize :=
        num_abs (opt_or (nth_error transform 0)
                  (opt_or (nth_error transform 3)
                    (opt_or (item_height rawItem) (num_lit 12)))) in
      Some (quantizeY y,
            {| seg_text := text; seg_x := x; seg_width := width;
               seg_fontSize := fontSize |})
  end.

(** [rowMap.get(yKey) || []], [push], [rowMap.set(yKey, segments)]: an
    existing key keeps its place, a new key goes last. *)
Fixpoint rowMap_push (yKey : num) (segment : PdfTextSegment)
  (rowMap : list (num * list PdfTextSegment))
  : list (num * list PdfTextSegment) :=
  match rowMap with
  | [] => [(yKey, [segment])]
  | (k, segments) :: rest =>
      if num_same k yKey then (k, segments ++ [segment]) :: rest
      else (k, segments) :: rowMap_push yKey segment rest
  end.

Definition build_rowMap (items : list RawItem)
  : list (num * list PdfTextSegment) :=
  fold_left
    (fun rowMap rawItem =>
       match segment_of_item rawItem with
       | None => rowMap
       | Some (yKey, segment) => rowMap_push yKey segment rowMap
       end)
    items [].

Definition rows_of_rowMap (rowMap : list (num * list PdfTextSegment))
  : list Row :=
  sort_by (fun a b => num_sub (row_y b) (row_y a))
    (map (fun e =>
            {| row_y := fst e;
               row_segments :=
                 sort_by (fun a b => num_sub (seg_x a) (seg_x b)) (snd e) |})
         rowMap).

(** The variables that the [forEach] over a row's segments updates. *)
Record RowState : Type := {
  st_text : jsstring;
  st_hasTabs : bool;
  st_previousEnd : num;
  st_previousCharWidth : num
}.

Definition row_start : RowState :=
  {| st_text := []; st_hasTabs := false;
     st_previousEnd := num_lit 0; st_previousCharWidth := num_lit 5 |}.

(** The body of the [forEach] callback. *)
Definition row_step (st : RowState) (segment : PdfTextSegment)
  (segmentIndex : nat) : RowState :=
  let '(text, hasTabs') :=
    if 0 <? segmentIndex then
      let gap := num_sub (seg_x segment) (st_previousEnd st) in
      let tabThreshold :=
        num_max (num_lit 24) (num_mul (st_previousCharWidth st) (num_lit 6)) in
      let spaceThreshold :=
        num_max (num_lit 6) (num_mul (st_previousCharWidth st) (num_lit 1.75)) in
      if num_gt gap tabThreshold then (st_text st ++ [ch_tab], true)
      else if num_gt gap spaceThreshold then (st_text st ++ [ch_space], st_hasTabs st)
      else (st_text st, st_hasTabs st)
    else (st_text st, st_hasTabs st) in
  {| st_text := text ++ seg_text segment;
     st_hasTabs := hasTabs';
     st_previousEnd := num_add (seg_x segment) (seg_width segment);
     st_previousCharWidth :=
       num_div (seg_width segment)
               (num_max (num_of_nat (length (seg_text segment))) (num_lit 1)) |}.

Fixpoint row_forEach (segments : list PdfTextSegment) (segmentIndex : nat)
  (st : RowState) : RowState :=
  match segments with
  | [] => st
  | segment :: rest =>
      row_forEach rest (S segmentIndex) (row_step st segment segmentIndex)
  end.

(** One iteration of the loop over [rows]: the line of [row], if any;
    [nextRow] is [rows[i + 1]]. *)
Definition line_of_row (row : Row) (nextRow : option Row)
  : option ExtractedLine :=
  let st := row_forEach (row_segments row) 0 row_start in
  let normalized :=
    replace_runs 2 (is_char ch_space) [ch_space]
      (strip_end is_space_or_tab (st_text st)) in
  match normalized with
  | [] => None
  | _ =>
      let avgFontSize :=
        num_div
          (fold_left (fun sum segment => num_add sum (seg_fontSize segment))
                     (row_segments row) (num_lit 0))
          (num_of_nat (length (row_segments row))) in
      let rowGap :=
        match nextRow with
        | Some next => num_abs (num_sub (row_y row) (row_y next))
        | None => num_lit 0
        end in
      Some {| line_text := normalized;
              hasTabs := st_hasTabs st;
              line_fontSize := avgFontSize;
              breakAfter := num_gt rowGap (num_mul avgFontSize (num_lit 1.7)) |}
  end.

Fixpoint lines_of_rows (rows : list Row) : list ExtractedLine :=
  match rows with
  | [] => []
  | row :: rest =>
      match line_of_row row (head rest) with
      | Some line => line :: lines_of_rows rest
      | None => lines_of_rows rest
      end
  end.

Definition extractLinesFromPdfTextContent (items : list RawItem)
  : list ExtractedLine :=
  lines_of_rows (rows_of_rowMap (build_rowMap items)).

(** *** Headings and list markers *)

(** [/^[-*]\s+/.test(plain)] *)
Definition starts_with_bullet_marker (plain : jsstring) : bool :=
  match plain with
  | c :: w :: _ => ((c =? 45) || (c =? 42))%N && is_ws w
  | _ => false
  end.

(** [/^\d+[\.\)]\s+/.test(plain)] *)
Definition starts_with_numbered_marker (plain : jsstring) : bool :=
  match take_while is_digit plain, drop_while is_digit plain with
  | _ :: _, c :: w :: _ => ((c =? 46) || (c =? 41))%N && is_ws w
  | _, _ => false
  end.

(** [looksLikeHeading] *)
Definition looksLikeHeading (text : jsstring) (fontSize bodyFontSize : num)
  : bool :=
  let plain := trim text in
  match plain with
  | [] => false
  | _ =>
      if 90 <? length plain then false
      else if starts_with_bullet_marker plain then false
      else if starts_with_numbered_marker plain then false
      else if includes ch_tab plain then false
      else
        let ratio := num_div fontSize (num_max bodyFontSize (num_lit 1)) in
        if num_lt ratio (num_lit 1.28) then false
        else
          let wordCount := length (split_ws plain) in
          wordCount <=? 14
  end.

(** [headingLevel] *)
Definition headingLevel (fontSize bodyFontSize : num) : nat :=
  let ratio := num_div fontSize (num_max bodyFontSize (num_lit 1)) in
  if num_ge ratio (num_lit 1.95) then 1
  else if num_ge ratio (num_lit 1.65) then 2
  else 3.

(** The class of bullet glyphs of [normalizeListPrefix]:
    U+2022, U+25E6, U+25AA, U+25B8, U+25BA, U+2023. *)
Definition is_bullet_glyph (c : N) : bool :=
  ((c =? 8226) || (c =? 9702) || (c =? 9642) || (c =? 9656) || (c =? 9658)
   || (c =? 8227))%N.

(** [text.replace(/^[bullets]\s*/u, '- ')] *)
Definition replace_bullet_glyph (text : jsstring) : jsstring :=
  match text with
  | c :: rest =>
      if is_bullet_glyph c then [45%N; ch_space] ++ drop_while is_ws rest
      else text
  | [] => text
  end.

(** [text.replace(/^\((\d+)\)\s+/, '$1. ')] *)
Definition replace_parenthesized_number (text : jsstring) : jsstring :=
  match text with
  | c :: rest =>
      if (c =? 40)%N then
        match take_while is_digit rest, drop_while is_digit rest with
        | d :: ds, c' :: w :: rest' =>
            if (c' =? 41)%N && is_ws w then
              (d :: ds) ++ [46%N; ch_space] ++ drop_while is_ws rest'
            else text
        | _, _ => text
        end
      else text
  | [] => text
  end.

(** [normalizeListPrefix] *)
Definition normalizeListPrefix (text : jsstring) : jsstring :=
  replace_parenthesized_number (replace_bullet_glyph text).

(** *** Tables *)

(** [splitTabbedColumns] *)
Definition splitTabbedColumns (text : jsstring) : list jsstring :=
  map trim (split_on ch_tab text).

(** [fallbackTabbedBlock] *)
Definition fallbackTabbedBlock (block : list ExtractedLine) : list jsstring :=
  map (fun line =>
         normalizeListPrefix
           (trim (replace_runs 2 (is_char ch_space) [ch_space]
                    (replace_runs 1 (is_char ch_tab) [ch_space]
                       (line_text line)))))
      block.

(** [Math.min(...ns)] and [Math.max(...ns)] for a non-empty list of lengths;
    on the empty list the source gets plus and minus infinity, and the
    test [rows.length < 2] that comes first sends it to the fallback. *)
Definition min_of (ns : list nat) : nat :=
  match ns with
  | [] => 0
  | n :: rest => fold_left Nat.min rest n
  end.

Definition max_of (ns : list nat) : nat := fold_left Nat.max ns 0.

(** [while (normalized.length < colCount) normalized.push('')] *)
Definition pad_cells (colCount : nat) (cells : list jsstring) : list jsstring :=
  cells ++ repeat [] (colCount - length cells).

(** [`| ${row.join(' | ')} |`] *)
Definition table_row (cells : list jsstring) : jsstring :=
  str "| " ++ join (str " | ") cells ++ str " |".

(** [tabbedBlockToMarkdownTable] *)
Definition tabbedBlockToMarkdownTable (block : list ExtractedLine)
  : list jsstring :=
  let rows := map (fun line => splitTabbedColumns (line_text line)) block in
  let minCols := min_of (map (@length jsstring) rows) in
  let maxCols := max_of (map (@length jsstring) rows) in
  if (length rows <? 2) || (maxCols <? 2) || (1 <? maxCols - minCols) then
    fallbackTabbedBlock block
  else
    let colCount := maxCols in
    let paddedRows :=
      map (fun row =>
             let normalized := map (fun cell => trim (escape_bars cell)) row in
             firstn colCount (pad_cells colCount normalized))
          rows in
    let header := table_row (nth 0 paddedRows []) in
    let divider := table_row (repeat (str "---") colCount) in
    let body := map table_row (skipn 1 paddedRows) in
    header :: divider :: body.

(** *** linesToMarkdown *)

(** What the loop pushes for a line without tabs. *)
Definition plain_line_out (line : ExtractedLine) (bodyFontSize : num)
  : list jsstring :=
  let normalized := normalizeListPrefix (trim (line_text line)) in
  match normalized with
  | [] => [[]]
  | _ =>
      (if looksLikeHeading normalized (line_fontSize line) bodyFontSize then
         let level := headingLevel (line_fontSize line) bodyFontSize in
         [repeat ch_hash level ++ [ch_space] ++ normalized]
       else [normalized])
      ++ (if breakAfter line then [[]] else [])
  end.

(** What the loop pushes for a finished block of tab-bearing lines. *)
Definition block_out (block : list ExtractedLine) : list jsstring :=
  match block with
  | [] => []
  | _ => tabbedBlockToMarkdownTable block ++ [[]]
  end.

(** The array [out] of the loop; [block] holds the tab-bearing lines
    gathered by the inner [while] so far. *)
Fixpoint markdown_out (lines block : list ExtractedLine) (bodyFontSize : num)
  : list jsstring :=
  match lines with
  | [] => block_out block
  | line :: rest =>
      if hasTabs line then markdown_out rest (block ++ [line]) bodyFontSize
      else block_out block ++ plain_line_out line bodyFontSize
           ++ markdown_out rest [] bodyFontSize
  end.

(** The tab-bearing lines at the front of [lines], which the inner [while]
    gathers, and the lines after them. *)
Fixpoint tab_prefix (lines : list ExtractedLine) : list ExtractedLine :=
  match lines with
  | line :: rest => if hasTabs line then line :: tab_prefix rest else []
  | [] => []
  end.

Fixpoint after_tab_prefix (lines : list ExtractedLine) : list ExtractedLine :=
  match lines with
  | line :: rest => if hasTabs line then after_tab_prefix rest else lines
  | [] => []
  end.

(** [linesToMarkdown] *)
Definition linesToMarkdown (lines : list ExtractedLine) (bodyFontSize : num)
  : jsstring :=
  trim
    (strip_blanks_before_nl
       (replace_runs 3 (is_char ch_nl) [ch_nl; ch_nl]
          (join [ch_nl] (markdown_out lines [] bodyFontSize)))).

End Engine.

Arguments PdfTextSegment : clear implicits.
Arguments ExtractedLine : clear implicits.
Arguments RawItem : clear implicits.
Arguments Row : clear implicits.
Arguments RowState : clear implicits.

(** ** pdfToMarkdown *)

Definition MAX_PDF_PAGES : nat := 100.

(** What [pdfToMarkdown] throws: the page-limit error with the numbers of
    its message, the no-selectable-text error, and a failure of the PDF
    library while it reads a page. *)
Inductive PdfError : Type :=
| PageLimitExceeded (actual max : nat)
| NoExtractableText
| ExtractionFailure (pageNo : nat).

(** Computations that read pages of the document: the log lists the page
    numbers passed to [pdf.getPage] so far, oldest first. *)
Definition PdfIO (A : Type) : Type := list nat -> (PdfError + A) * list nat.

Definition io_ret {A : Type} (a : A) : PdfIO A := fun log => (inr a, log).

Definition io_throw {A : Type} (e : PdfError) : PdfIO A :=
  fun log => (inl e, log).

Definition io_bind {A B : Type} (m : PdfIO A) (k : A -> PdfIO B) : PdfIO B :=
  fun log =>
    match m log with
    | (inl e, log') => (inl e, log')
    | (inr a, log') => k a log'
    end.

Notation "x <- m ;; k" := (io_bind m (fun x => k))
  (at level 100, m at level 99, k at level 200, right associativity).

Section Driver.

Context {num : Type} `{JsNumber num}.

(** The loaded document: [pdf.numPages] and, for a page number, the
    [items] of its text content ([None] when the library throws). *)
Record PdfDocument : Type := {
  numPages : nat;
  page_items : nat -> option (list (RawItem num))
}.

(** [await pdf.getPage(pageNo)] followed by [await page.getTextContent(..)] *)
Definition getTextContent (pdf : PdfDocument) (pageNo : nat)
  : PdfIO (list (RawItem num)) :=
  fun log =>
    match page_items pdf pageNo with
    | Some items => (inr items, log ++ [pageNo])
    | None => (inl (ExtractionFailure pageNo), log ++ [pageNo])
    end.

(** The loop [for (pageNo = 1; pageNo <= pdf.numPages; pageNo += 1)] with
    [remaining] pages to go. *)
Fixpoint read_pages (pdf : PdfDocument) (remaining pageNo : nat)
  : PdfIO (list (list (ExtractedLine num))) :=
  match remaining with
  | O => io_ret []
  | S k =>
      textContent <- getTextContent pdf pageNo ;;
      pages <- read_pages pdf k (S pageNo) ;;
      io_ret (extractLinesFromPdfTextContent textContent :: pages)
  end.

(** [bodyFontSize] as [pdfToMarkdown] computes it from [allLines]. *)
Definition bodyFontSizeOf (allLines : list (ExtractedLine num)) : num :=
  let bodyFontCandidates :=
    map line_fontSize
      (List.filter
         (fun line => (20 <=? length (line_text line)) && negb (hasTabs line))
         allLines) in
  let fallbackFontCandidates := map line_fontSize allLines in
  num_or
    (getMedian (if 0 <? length bodyFontCandidates then bodyFontCandidates
                else fallbackFontCandidates))
    (num_lit 12).

Definition page_separator : jsstring :=
  [ch_nl; ch_nl; 45%N; 45%N; 45%N; ch_nl; ch_nl].

(** The part of [pdfToMarkdown] after the pages are read. *)
Definition pagesToMarkdown (pages : list (list (ExtractedLine num)))
  : PdfError + jsstring :=
  let allLines := concat pages in
  if length allLines =? 0 then inl NoExtractableText
  else
    let bodyFontSize := bodyFontSizeOf allLines in
    let perPageMarkdown :=
      List.filter (fun s => 0 <? length s)
        (map (fun pageLines => linesToMarkdown pageLines bodyFontSize) pages) in
    inr (trim (join page_separator perPageMarkdown)).

(** [pdfToMarkdown], from the loaded document on. *)
Definition pdfToMarkdown (pdf : PdfDocument) : PdfIO jsstring :=
  if MAX_PDF_PAGES <? numPages pdf then
    io_throw (PageLimitExceeded (numPages pdf) MAX_PDF_PAGES)
  else
    pages <- read_pages pdf (numPages pdf) 1 ;;
    match pagesToMarkdown pages with
    | inl e => io_throw e
    | inr markdown => io_ret markdown
    end.

End Driver.

Arguments PdfDocument : clear implicits.



(** ** Arrays as mutable objects

    [getMedian] receives a reference to an array and sorts with the
    in-place [Array.prototype.sort].  To follow what happens to the caller's
    array, arrays live in a heap and the function is run on references. *)

(** References to arrays. *)
Abbreviation loc := nat (only parsing).

Section ArrayHeap.

Context {num : Type} `{JsNumber num}.

(** A computation on the heap of arrays; [None] is a dangling reference. *)
Definition HeapOp (A : Type) : Type :=
  gmap loc (list num) -> option (A * gmap loc (list num)).

Definition heap_ret {A : Type} (a : A) : HeapOp A := fun h => Some (a, h).

Definition heap_bind {A B : Type} (m : HeapOp A) (k : A -> HeapOp B)
  : HeapOp B :=
  fun h =>
    match m h with
    | Some (a, h') => k a h'
    | None => None
    end.

(** [[...values]]: a new array with the elements of [values]. *)
Definition array_spread (values : loc) : HeapOp loc :=
  fun h =>
    match h !! values with
    | Some vs => let l := fresh (dom h) in Some (l, <[l := vs]> h)
    | None => None
    end.

(** [a.sort(cmp)]: sorts the array [a] in place and returns [a]. *)
Definition array_sort (cmp : num -> num -> num) (a : loc) : HeapOp loc :=
  fun h =>
    match h !! a with
    | Some vs => Some (a, <[a := sort_by cmp vs]> h)
    | None => None
    end.

(** [a.length] *)
Definition array_length (a : loc) : HeapOp nat :=
  fun h =>
    match h !! a with
    | Some vs => Some (length vs, h)
    | None => None
    end.

(** [a[i]] for an index within the array *)
Definition array_get (a : loc) (i : nat) : HeapOp num :=
  fun h =>
    match h !! a with
    | Some vs => Some (nth i vs (num_lit 0), h)
    | None => None
    end.

(** [getMedian] on a reference. *)
Definition getMedian_ref (values : loc) : HeapOp num :=
  heap_bind (array_length values) (fun n =>
  if n =? 0 then heap_ret (num_lit 0)
  else
    heap_bind (array_spread values) (fun copy =>
    heap_bind (array_sort (fun a b => num_sub a b) copy) (fun sorted =>
    heap_bind (array_length sorted) (fun len =>
    let middle := len / 2 in
    if len mod 2 =? 0 then
      heap_bind (array_get sorted (middle - 1)) (fun lo =>
      heap_bind (array_get sorted middle) (fun hi =>
      heap_ret (num_div (num_add lo hi) (num_lit 2))))
    else array_get sorted middle)))).

End ArrayHeap.

(** * The specification's notions

    The following definitions follow the words of the specification, not
    the code; the theorems below compare the code with them. *)

(** "Starts with a bullet marker": a dash or an asterisk, then whitespace. *)
Definition has_bullet_marker (s : jsstring) : Prop :=
  exists c w rest,
    s = c :: w :: rest /\ (c = 45%N \/ c = 42%N) /\ is_ws w = true.

(** "Starts with a numbered-list marker": digits, a dot or a closing
    parenthesis, then whitespace. *)
Definition has_numbered_marker (s : jsstring) : Prop :=
  exists ds c w rest,
    s = ds ++ c :: w :: rest /\ ds <> [] /\ forallb is_digit ds = true
    /\ (c = 46%N \/ c = 41%N) /\ is_ws w = true.

(** The number of words: the maximal runs of non-whitespace characters. *)
Fixpoint count_words (in_word : bool) (s : jsstring) : nat :=
  match s with
  | [] => 0
  | c :: r =>
      if is_ws c then count_words false r
      else (if in_word then 0 else 1) + count_words true r
  end.

Definition word_count (s : jsstring) : nat := count_words false s.

(** The heading test of the specification, with its plain ratio
    fontSize / bodyFontSize. *)
Definition spec_heading_test (text : jsstring) (fontSize bodyFontSize : Q)
  : Prop :=
  length text <= 90
  /\ ~ has_bullet_marker text
  /\ ~ has_numbered_marker text
  /\ includes ch_tab text = false
  /\ (1.28 <= fontSize / bodyFontSize)%Q
  /\ word_count text <= 14.

(** The heading level of the specification as a function of the ratio. *)
Definition spec_headingLevel (ratio : Q) : nat :=
  if Qle_bool 1.95 ratio then 1 else if Qle_bool 1.65 ratio then 2 else 3.

(** What the assembler inserts between two consecutive segments. *)
Inductive Separator : Type :=
| SepTab
| SepSpace
| SepNone.

Definition separator_chars (sep : Separator) : jsstring :=
  match sep with
  | SepTab => [ch_tab]
  | SepSpace => [ch_space]
  | SepNone => []
  end.

Definition is_tab_separator (sep : Separator) : bool :=
  match sep with
  | SepTab => true
  | _ => false
  end.

(** The decision of the specification from the gap and the previous
    segment's character width. *)
Definition spec_separator (gap previousCharWidth : Q) : Separator :=
  if Qlt_le_dec (Qmax 24 (previousCharWidth * 6)) gap then SepTab
  else if Qlt_le_dec (Qmax 6 (previousCharWidth * 1.75)) gap then SepSpace
  else SepNone.

(** gap = currentX - previousEnd, with previousEnd = x + width of the
    previous segment. *)
Definition spec_gap (previous current : PdfTextSegment Q) : Q :=
  (seg_x current - (seg_x previous + seg_width previous))%Q.

(** previousCharWidth = width / max(text length, 1) of the previous segment. *)
Definition spec_charWidth (previous : PdfTextSegment Q) : Q :=
  (seg_width previous
   / Qmax (inject_Z (Z.of_nat (length (seg_text previous)))) 1)%Q.

(** A text run that is empty or holds whitespace only. *)
Definition blank_item {num : Type} (rawItem : RawItem num) : Prop :=
  forallb is_ws (item_str rawItem) = true.

(** The table decision of the specification. *)
Definition is_min (m : nat) (ns : list nat) : Prop :=
  In m ns /\ Forall (fun n => m <= n) ns.

Definition is_max (m : nat) (ns : list nat) : Prop :=
  In m ns /\ Forall (fun n => n <= m) ns.

Section TableSpec.

Context {num : Type}.

(** The cells of a line: its text split on tabs, each piece trimmed. *)
Definition spec_cells (line : ExtractedLine num) : list jsstring :=
  map trim (split_on ch_tab (line_text line)).

Definition cell_counts (block : list (ExtractedLine num)) : list nat :=
  map (fun line => length (spec_cells line)) block.

(** At least 2 rows, maxCols at least 2, maxCols - minCols at most 1. *)
Definition spec_table_accepted (block : list (ExtractedLine num)) : Prop :=
  2 <= length block
  /\ exists minCols maxCols,
       is_min minCols (cell_counts block) /\ is_max maxCols (cell_counts block)
       /\ 2 <= maxCols /\ maxCols - minCols <= 1.

(** Every bar escaped, every row padded with empty cells. *)
Definition spec_table_cells (block : list (ExtractedLine num)) (maxCols : nat)
  : list (list jsstring) :=
  map (fun line =>
         map escape_bars (spec_cells line)
         ++ repeat [] (maxCols - length (spec_cells line)))
      block.

(** The first row as header, the separator row, the remaining rows. *)
Definition spec_table (block : list (ExtractedLine num)) (maxCols : nat)
  : list jsstring :=
  match spec_table_cells block maxCols with
  | [] => []
  | first :: others =>
      table_row first :: table_row (repeat (str "---") maxCols)
      :: map table_row others
  end.

End TableSpec.

(** Every bar of the string comes right after a backslash. *)
Fixpoint bars_escaped_from (after_backslash : bool) (s : jsstring) : bool :=
  match s with
  | [] => true
  | c :: r =>
      (if (c =? ch_bar)%N then after_backslash else true)
      && bars_escaped_from (c =? ch_backslash)%N r
  end.

Definition bars_escaped (s : jsstring) : bool := bars_escaped_from false s.

(** No two spaces in a row. *)
Fixpoint single_spaced_from (after_space : bool) (s : jsstring) : bool :=
  match s with
  | [] => true
  | c :: r =>
      (if (c =? ch_space)%N then negb after_space else true)
      && single_spaced_from (c =? ch_space)%N r
  end.

Definition single_spaced (s : jsstring) : bool := single_spaced_from false s.

(** ** Sample inputs *)

Section Samples.

Context {num : Type} `{JsNumber num}.

(** A tab-bearing line with the given cells. *)
Definition tab_line (cells : list string) : ExtractedLine num :=
  {| line_text := join [ch_tab] (map str cells); hasTabs := true;
     line_fontSize := num_lit 12; breakAfter := false |}.

(** Cell counts 3, 3, 2; one cell holds a bar. *)
Definition sample_table_block : list (ExtractedLine num) :=
  [tab_line ["Name"; "Qty"; "Price"]; tab_line ["Pen|cil"; "2"; "3"];
   tab_line ["Ink"; "1"]]%string.


(** A text run as the PDF library reports it: the font size sits in the
    scale entries of the transform, the position in its last two entries. *)
Definition text_run (s : string) (x y width fontSize : num) : RawItem num :=
  {| item_str := str s;
     item_transform := [fontSize; num_lit 0; num_lit 0; fontSize; x; y];
     item_width := Some width;
     item_height := Some fontSize |}.

(** The two runs of the end-to-end scenario. *)
Definition report_items (xA yA wA xB yB wB : num) : list (RawItem num) :=
  [text_run "Report Title" xA yA wA (num_lit 24);
   text_run "This is body text." xB yB wB (num_lit 12)].

Definition report_document (xA yA wA xB yB wB : num) : PdfDocument num :=
  {| numPages := 1;
     page_items := fun _ => Some (report_items xA yA wA xB yB wB) |}.

(** A two-page document with whitespace-only runs. *)
Definition blank_document : PdfDocument num :=
  {| numPages := 2;
     page_items := fun _ =>
       Some [text_run "   " (num_lit 72) (num_lit 700) (num_lit 9) (num_lit 12);
             text_run EmptyString (num_lit 72) (num_lit 650) (num_lit 0) (num_lit 12)] |}.

(** A document that reports 101 pages. *)
Definition long_document : PdfDocument num :=
  {| numPages := 101; page_items := fun _ => Some [] |}.

End Samples.

(** * Further notions *)

(** The only whitespace of the string is the plain space. *)
Definition plain_spaces (s : jsstring) : bool :=
  forallb (fun c => negb (is_ws c) || (c =? ch_space)%N) s.

(** A text as the extraction leaves it: not empty, trimmed, words separated
    by single spaces. *)
Definition clean_text (s : jsstring) : Prop :=
  s <> [] /\ trimmed s /\ single_spaced s = true /\ plain_spaces s = true.

Section FurtherNotions.

Context {num : Type} `{JsNumber num}.

(** The segments that the first loop of extractLinesFromPdfTextContent
    builds, in the order of the items. *)
Definition item_segments (items : list (RawItem num))
  : list (PdfTextSegment num) :=
  flat_map
    (fun rawItem =>
       match segment_of_item rawItem with
       | Some (_, segment) => [segment]
       | None => []
       end)
    items.

(** The text that the forEach over a row's segments assembles. *)
Definition row_text (row : Row num) : jsstring :=
  st_text (row_forEach (row_segments row) 0 row_start).

End FurtherNotions.

(** What the first loop keeps true of [rowMap]: the keys are pairwise
    different, and every segment sits under the quantized y it was given. *)
Definition rowMap_ok (items : list (RawItem Q))
  (rowMap : list (Q * list (PdfTextSegment Q))) : Prop :=
  NoDupA Qeq (map fst rowMap)
  /\ Forall (fun e =>
               Forall (fun s => exists rawItem k,
                                  In rawItem items
                                  /\ segment_of_item rawItem = Some (k, s)
                                  /\ (fst e == k)%Q)
                      (snd e))
            rowMap.

Section AssembledText.

Context {num : Type}.

(** What the forEach over a row keeps true once it has taken a segment:
    the text so far is not empty, trimmed and single-spaced, and the flag
    says whether it holds a tab. *)
Definition assembled_ok (st : RowState num) : Prop :=
  st_text st <> []
  /\ trimmed (st_text st)
  /\ single_spaced (st_text st) = true
  /\ st_hasTabs st = includes ch_tab (st_text st).

End AssembledText.

(** A list item as the renderer meets it: a bullet glyph, a parenthesised
    number, a dash or asterisk, or a number with a dot or parenthesis, each
    followed by something that is not whitespace. *)
Definition list_item (text : jsstring) : Prop :=
  (exists g rest,
      text = g :: rest /\ is_bullet_glyph g = true
      /\ forallb is_ws rest = false)
  \/ (exists ds w rest,
         text = 40%N :: ds ++ 41%N :: w :: rest /\ ds <> []
         /\ forallb is_digit ds = true /\ is_ws w = true
         /\ forallb is_ws rest = false)
  \/ (exists c w rest,
         text = c :: w :: rest /\ (c = 45%N \/ c = 42%N) /\ is_ws w = true
         /\ forallb is_ws rest = false)
  \/ (exists ds c w rest,
         text = ds ++ c :: w :: rest /\ ds <> []
         /\ forallb is_digit ds = true /\ (c = 46%N \/ c = 41%N)
         /\ is_ws w = true /\ forallb is_ws rest = false).

(** The number of bars of the string that do not come right after a
    backslash: the column delimiters of a table row. *)
Fixpoint count_bars_from (after_backslash : bool) (s : jsstring) : nat :=
  match s with
  | [] => 0
  | c :: r =>
      (if (c =? ch_bar)%N && negb after_backslash then 1 else 0)
      + count_bars_from (c =? ch_backslash)%N r
  end.

Definition count_bars (s : jsstring) : nat := count_bars_from false s.

(** Whether the string holds a character that is not whitespace. *)
Definition has_ink (s : jsstring) : bool :=
  existsb (fun c => negb (is_ws c)) s.

(** A line whose text holds a character that is not whitespace. *)
Definition inked {num : Type} (line : ExtractedLine num) : Prop :=
  has_ink (line_text line) = true.

(** * Importing a file *)

(** [a === b] on strings. *)
Fixpoint jsstring_eqb (a b : jsstring) : bool :=
  match a, b with
  | [], [] => true
  | x :: a', y :: b' => (x =? y)%N && jsstring_eqb a' b'
  | _, _ => false
  end.

(** [/\.pdf$/i.test(name)]: the pattern has no [u] flag, so a letter of the
    pattern matches its two ASCII cases and nothing else. *)
Definition ends_with_pdf (name : jsstring) : bool :=
  match rev name with
  | f :: d :: p :: dot :: _ =>
      ((dot =? 46) && ((p =? 112) || (p =? 80)) && ((d =? 100) || (d =? 68))
       && ((f =? 102) || (f =? 70)))%N
  | _ => false
  end.

(** The ASCII lower-case form of a character. *)
Definition ascii_lower (c : N) : N :=
  if ((65 <=? c) && (c <=? 90))%N then (c + 32)%N else c.

Definition MAX_PDF_BYTES : N := 10 * 1024 * 1024.

(** [importStatus]: the empty string, or one of the progress texts. *)
Inductive Status : Type :=
| StatusNone
| StatusLoading
| StatusReading (pageNo pageCount : nat)
| StatusImported (name : jsstring).

(** [importError]: the empty string, one of the texts of the source
    (only PDF files are supported; the file is too large, with its size;
    drop a PDF file to import), or the message of what pdfToMarkdown
    threw: one of its own errors, or the library failing to open the
    file or to read a page.  The text of a library error is not
    modelled: it is whatever the library wrote, the empty string
    included. *)
Inductive Message : Type :=
| MsgNone
| MsgOnlyPdf
| MsgTooLarge (size : N)
| MsgDropPdf
| MsgThrown (e : PdfError)
| MsgLoadFailed.

(** The refs of the component that the import code writes.  [dragDepth]
    only ever holds small integers, on which the arithmetic of the source
    is exact. *)
Record UiState : Type := {
  mdInput : jsstring;
  importStatus : Status;
  importError : Message;
  isImportingPdf : bool;
  dragDepth : Z
}.

Definition set_mdInput (v : jsstring) (ui : UiState) : UiState :=
  {| mdInput := v; importStatus := importStatus ui;
     importError := importError ui; isImportingPdf := isImportingPdf ui;
     dragDepth := dragDepth ui |}.

Definition set_importStatus (v : Status) (ui : UiState) : UiState :=
  {| mdInput := mdInput ui; importStatus := v;
     importError := importError ui; isImportingPdf := isImportingPdf ui;
     dragDepth := dragDepth ui |}.

Definition set_importError (v : Message) (ui : UiState) : UiState :=
  {| mdInput := mdInput ui; importStatus := importStatus ui;
     importError := v; isImportingPdf := isImportingPdf ui;
     dragDepth := dragDepth ui |}.

Definition set_isImportingPdf (v : bool) (ui : UiState) : UiState :=
  {| mdInput := mdInput ui; importStatus := importStatus ui;
     importError := importError ui; isImportingPdf := v;
     dragDepth := dragDepth ui |}.

Definition set_dragDepth (v : Z) (ui : UiState) : UiState :=
  {| mdInput := mdInput ui; importStatus := importStatus ui;
     importError := importError ui; isImportingPdf := isImportingPdf ui;
     dragDepth := v |}.

(** [isDraggingPdf] *)
Definition isDraggingPdf (ui : UiState) : bool := (0 <? dragDepth ui)%Z.

Section ImportModel.

Context {num : Type} `{JsNumber num}.

(** A file as the import code sees it: name, MIME type, size in bytes, and
    the document that the PDF library makes of its bytes, if it can. *)
Record File : Type := {
  file_name : jsstring;
  file_type : jsstring;
  file_size : N;
  file_document : option (PdfDocument num)
}.

(** [isPdfFile] *)
Definition isPdfFile (file : File) : bool :=
  jsstring_eqb (file_type file) (str "application/pdf")
  || ends_with_pdf (file_name file).

(** [pickPdfFile] *)
Definition pickPdfFile (fileList : option (list File)) : option File :=
  match fileList with
  | None => None
  | Some files => List.find isPdfFile files
  end.

(** The body of the [try] of importPdf: the library opens the file, then
    pdfToMarkdown runs on the document. *)
Definition convert (file : File) (log : list nat)
  : (Message + jsstring) * list nat :=
  match file_document file with
  | None => (inl MsgLoadFailed, log)
  | Some pdf =>
      match pdfToMarkdown pdf log with
      | (inl e, log') => (inl (MsgThrown e), log')
      | (inr markdown, log') => (inr markdown, log')
      end
  end.

(** [importPdf] when no other handler runs while it awaits pdfToMarkdown:
    the refs when the promise settles, and the pages read. *)
Definition importPdf (file : File) (ui : UiState) (log : list nat)
  : UiState * list nat :=
  let ui := set_importError MsgNone ui in
  let ui := set_importStatus StatusNone ui in
  if negb (isPdfFile file) then (set_importError MsgOnlyPdf ui, log)
  else if (MAX_PDF_BYTES <? file_size file)%N then
    (set_importError (MsgTooLarge (file_size file)) ui, log)
  else
    let ui := set_isImportingPdf true ui in
    let ui := set_importStatus StatusLoading ui in
    let '(result, log') := convert file log in
    let ui :=
      match result with
      | inr markdown =>
          set_importStatus (StatusImported (file_name file))
            (set_mdInput markdown ui)
      | inl message =>
          set_importStatus StatusNone (set_importError message ui)
      end in
    (set_isImportingPdf false ui, log').

(** A drag event: its [dataTransfer], if any, with the [types] and the
    [files] of it. *)
Record DataTransfer : Type := {
  types : list jsstring;
  files : list File
}.

Record DragEvent : Type := {
  dataTransfer : option DataTransfer
}.

(** [onDragEnterPdf] *)
Definition onDragEnterPdf (e : DragEvent) (ui : UiState) : UiState :=
  match dataTransfer e with
  | None => ui
  | Some dt =>
      if negb (existsb (jsstring_eqb (str "Files")) (types dt)) then ui
      else set_dragDepth (dragDepth ui + 1) ui
  end.

(** [onDragOverPdf]: it writes to the event only. *)
Definition onDragOverPdf (e : DragEvent) (ui : UiState) : UiState := ui.

(** [onDragLeavePdf] *)
Definition onDragLeavePdf (ui : UiState) : UiState :=
  set_dragDepth (Z.max 0 (dragDepth ui - 1)) ui.

(** [onDropPdf] *)
Definition onDropPdf (e : DragEvent) (ui : UiState) (log : list nat)
  : UiState * list nat :=
  let ui := set_dragDepth 0 ui in
  match pickPdfFile (option_map files (dataTransfer e)) with
  | None => (set_importError MsgDropPdf ui, log)
  | Some file => importPdf file ui log
  end.

(** The drag events of the page, and the handler bound to each. *)
Inductive UiEvent : Type :=
| DragEnter (e : DragEvent)
| DragOver (e : DragEvent)
| DragLeave
| Drop (e : DragEvent).

Definition handle (ev : UiEvent) (s : UiState * list nat)
  : UiState * list nat :=
  match ev with
  | DragEnter e => (onDragEnterPdf e (fst s), snd s)
  | DragOver e => (onDragOverPdf e (fst s), snd s)
  | DragLeave => (onDragLeavePdf (fst s), snd s)
  | Drop e => onDropPdf e (fst s) (snd s)
  end.

Definition handle_all (evs : list UiEvent) (s : UiState * list nat)
  : UiState * list nat :=
  fold_left (fun s ev => handle ev s) evs s.

(** Whether the event is a drag entering with files. *)
Definition enters_with_files (ev : UiEvent) : bool :=
  match ev with
  | DragEnter e =>
      match dataTransfer e with
      | Some dt => existsb (jsstring_eqb (str "Files")) (types dt)
      | None => false
      end
  | _ => false
  end.

End ImportModel.

Arguments File : clear implicits.
Arguments DataTransfer : clear implicits.
Arguments DragEvent : clear implicits.
Arguments UiEvent : clear implicits.

(** The state of the component when it is set up, the text of the editor
    apart. *)
Definition initial_ui (text : jsstring) : UiState :=
  {| mdInput := text; importStatus := StatusNone; importError := MsgNone;
     isImportingPdf := false; dragDepth := 0 |}.

(** * The table rule of the paste conversion *)

(** The text of a cell: [textContent], trimmed, every run of whitespace
    made one space, and one space when nothing is left. *)
Definition cell_text (textContent : jsstring) : jsstring :=
  let text := replace_runs 1 is_ws [ch_space] (trim textContent) in
  match text with
  | [] => [ch_space]
  | _ => text
  end.

(** The [forEach] over the rows of the table: each row is the list of the
    [textContent] of its cells, [markdown] is the string built so far. *)
Fixpoint rows_forEach (rows : list (list jsstring)) (rowIndex : nat)
  (markdown : jsstring) : jsstring :=
  match rows with
  | [] => markdown
  | cells :: rest =>
      match cells with
      | [] => rows_forEach rest (S rowIndex) markdown
      | _ =>
          let cellTexts := map cell_text cells in
          let markdown := markdown ++ table_row cellTexts ++ [ch_nl] in
          let markdown :=
            if rowIndex =? 0 then
              markdown
              ++ table_row (map (fun _ => str "---") cellTexts) ++ [ch_nl]
            else markdown in
          rows_forEach rest (S rowIndex) markdown
      end
  end.

(** The [replacement] of the rule [tables]; [rows] are the [tr] elements
    under the table node. *)
Definition tables_replacement (content : jsstring)
  (rows : list (list jsstring)) : jsstring :=
  match rows with
  | [] => content
  | _ => rows_forEach rows 0 [ch_nl] ++ [ch_nl]
  end.

(** Whether a row has cells. *)
Definition has_cells (cells : list jsstring) : bool :=
  negb (length cells =? 0).

(** The line of a row, with its line end. *)
Definition rule_line (cells : list jsstring) : jsstring :=
  table_row (map cell_text cells) ++ [ch_nl].

(** The number of occurrences of a character. *)
Definition count_char (c : N) (s : jsstring) : nat :=
  length (List.filter (is_char c) s).

(** Whether the string has no line end. *)
Definition inline (s : jsstring) : bool :=
  forallb (fun c => negb (c =? ch_nl)%N) s.

(** No three line ends in a row, that is no two blank lines in a row;
    [k] is the number of line ends just read. *)
Fixpoint no_triple_nl_from (k : nat) (s : jsstring) : bool :=
  match s with
  | [] => true
  | c :: r =>
      if (c =? ch_nl)%N then (k <? 2) && no_triple_nl_from (S k) r
      else no_triple_nl_from 0 r
  end.

Definition no_triple_nl (s : jsstring) : bool := no_triple_nl_from 0 s.

(** An entry of the array [out] of linesToMarkdown as the loop writes it:
    no line end inside, and no blank at its start. *)
Definition solid (e : jsstring) : bool :=
  inline e
  && match e with
     | [] => true
     | c :: _ => negb (is_space_or_tab c)
     end.

(** Every line of the string is empty or starts with a character that is
    no blank; [at_start] says whether the next character starts a line. *)
Fixpoint lines_solid_from (at_start : bool) (s : jsstring) : bool :=
  match s with
  | [] => true
  | c :: r =>
      if (c =? ch_nl)%N then lines_solid_from true r
      else (if at_start then negb (is_space_or_tab c) else true)
           && lines_solid_from false r
  end.

(** A line whose text has no line end. *)
Definition inline_line {num : Type} (line : ExtractedLine num) : Prop :=
  inline (line_text line) = true.

(** * The decisions in the arithmetic of the program *)

(** The notions above that compare numbers do so over the rationals.  The
    program computes in binary64: the notions below take the quotient, the
    gap and the thresholds as the program computes them, in whatever
    number type the engine runs on. *)

Section ProgramArithmetic.

Context {num : Type} `{JsNumber num}.

(** fontSize / max(bodyFontSize, 1), as computed. *)
Definition heading_ratio (fontSize bodyFontSize : num) : num :=
  num_div fontSize (num_max bodyFontSize (num_lit 1)).

(** The heading test on the computed ratio: the ratio is not below 1.28. *)
Definition heading_test (text : jsstring) (ratio : num) : Prop :=
  length text <= 90
  /\ ~ has_bullet_marker text
  /\ ~ has_numbered_marker text
  /\ includes ch_tab text = false
  /\ num_lt ratio (num_lit 1.28) = false
  /\ word_count text <= 14.

(** The heading level from the computed ratio. *)
Definition level_for (ratio : num) : nat :=
  if num_ge ratio (num_lit 1.95) then 1
  else if num_ge ratio (num_lit 1.65) then 2
  else 3.

(** gap = currentX - previousEnd, as computed. *)
Definition gap_between (previous current : PdfTextSegment num) : num :=
  num_sub (seg_x current) (num_add (seg_x previous) (seg_width previous)).

(** previousCharWidth = width / max(text length, 1), as computed. *)
Definition charWidth_of (previous : PdfTextSegment num) : num :=
  num_div (seg_width previous)
          (num_max (num_of_nat (length (seg_text previous))) (num_lit 1)).

(** The separator for a computed gap and character width. *)
Definition separator_for (gap previousCharWidth : num) : Separator :=
  if num_gt gap (num_max (num_lit 24)
                         (num_mul previousCharWidth (num_lit 6))) then SepTab
  else if num_gt gap (num_max (num_lit 6)
                              (num_mul previousCharWidth (num_lit 1.75)))
       then SepSpace
  else SepNone.

(** [x] may stand before [y] in an array sorted with the comparator
    (a, b) => a - b: either y - x > 0, or x - y > 0 fails.  On rationals,
    and on finite doubles, that is x <= y. *)
Definition ascending_pair (x y : num) : Prop :=
  num_gt (num_sub y x) (num_lit 0) = true
  \/ num_gt (num_sub x y) (num_lit 0) = false.

(** A document of 101 pages with whitespace-only runs. *)
Definition blank_long_document : PdfDocument num :=
  {| numPages := 101;
     page_items := fun _ =>
       Some [text_run "   " (num_lit 72) (num_lit 700) (num_lit 9)
               (num_lit 12)] |}.

End ProgramArithmetic.

(** * An import among other handlers *)

(** importPdf is asynchronous: it returns to the event loop when it
    awaits pdfToMarkdown, and handlers of other events run on the same
    refs before the promise settles.  [importPdf] above is the import
    that nothing interrupts; here its two halves are apart. *)

Section ImportSteps.

Context {num : Type} `{JsNumber num}.

(** importPdf up to its [await]: the refs it leaves, and whether it went
    on to call pdfToMarkdown. *)
Definition importPdf_begin (file : File num) (ui : UiState)
  : UiState * bool :=
  let ui := set_importError MsgNone ui in
  let ui := set_importStatus StatusNone ui in
  if negb (isPdfFile file) then (set_importError MsgOnlyPdf ui, false)
  else if (MAX_PDF_BYTES <? file_size file)%N then
    (set_importError (MsgTooLarge (file_size file)) ui, false)
  else
    let ui := set_isImportingPdf true ui in
    (set_importStatus StatusLoading ui, true).

(** importPdf from the moment the promise of pdfToMarkdown settles: the
    rest of the [try] or the [catch], then the [finally], on the refs as
    they are by then. *)
Definition importPdf_settle (file : File num) (result : Message + jsstring)
  (ui : UiState) : UiState :=
  let ui :=
    match result with
    | inr markdown =>
        set_importStatus (StatusImported (file_name file))
          (set_mdInput markdown ui)
    | inl message =>
        set_importStatus StatusNone (set_importError message ui)
    end in
  set_isImportingPdf false ui.

(** An import with other handlers in between: [meanwhile] is what they,
    and the progress texts that pdfToMarkdown writes to importStatus, make
    of the refs while the promise is pending. *)
Definition importPdf_among (file : File num)
  (meanwhile : UiState -> UiState) (ui : UiState) (log : list nat)
  : UiState * list nat :=
  let '(ui, awaited) := importPdf_begin file ui in
  if awaited then
    let '(result, log') := convert file log in
    (importPdf_settle file result (meanwhile ui), log')
  else (ui, log).

(** A drop event with the given files. *)
Definition drop_of (dropped : list (File num)) : DragEvent num :=
  {| dataTransfer := Some {| types := [str "Files"]; files := dropped |} |}.

End ImportSteps.
(** * Properties *)

(** ** The string functions and the renderer on small inputs *)

Example trim_sample : trim (str "  a b  ") = str "a b".
Proof. reflexivity. Qed.

Example collapse_whitespace_sample :
  replace_runs 1 is_ws [ch_space] (str "a " ++ [ch_tab; ch_nl] ++ str "b")
  = str "a b".
Proof. reflexivity. Qed.

Example collapse_spaces_sample :
  replace_runs 2 (is_char ch_space) [ch_space] (str "a   b c") = str "a b c".
Proof. reflexivity. Qed.

Example collapse_newlines_sample :
  replace_runs 3 (is_char ch_nl) [ch_nl; ch_nl]
    (str "a" ++ [ch_nl; ch_nl; ch_nl; ch_nl] ++ str "b" ++ [ch_nl; ch_nl]
     ++ str "c")
  = str "a" ++ [ch_nl; ch_nl] ++ str "b" ++ [ch_nl; ch_nl] ++ str "c".
Proof. reflexivity. Qed.

Example strip_blanks_before_nl_sample :
  strip_blanks_before_nl (str "a  " ++ [ch_nl] ++ str " b c")
  = str "a" ++ [ch_nl] ++ str " b c".
Proof. reflexivity. Qed.

Example split_ws_sample :
  split_ws (str "a  b c") = [str "a"; str "b"; str "c"]
  /\ split_ws (str " a") = [[]; str "a"]
  /\ split_ws [] = [[]].
Proof. repeat split. Qed.

Example split_on_sample :
  split_on ch_tab (str "a" ++ [ch_tab; ch_tab] ++ str "b")
  = [str "a"; []; str "b"].
Proof. reflexivity. Qed.

Example normalizeListPrefix_samples :
  normalizeListPrefix (8226%N :: str "  item") = str "- item"
  /\ normalizeListPrefix (str "(3)  third") = str "3. third"
  /\ normalizeListPrefix (str "(x) no") = str "(x) no"
  /\ normalizeListPrefix (str "- kept") = str "- kept".
Proof. repeat split. Qed.

Example linesToMarkdown_sample :
  let line text fontSize break :=
    {| line_text := text; hasTabs := false; line_fontSize := fontSize;
       breakAfter := break |} in
  linesToMarkdown
    [line (str "Overview") 20%Q true;
     line (8226%N :: str " first point") 10%Q false;
     line (str "(2) second") 10%Q false;
     tab_line ["Name"; "Qty"]%string; tab_line ["Pen"; "2"]%string;
     line (str "Closing text.") 10%Q false] 10%Q
  = join [ch_nl]
      [str "# Overview"; []; str "- first point"; str "2. second";
       str "| Name | Qty |"; str "| --- | --- |"; str "| Pen | 2 |"; [];
       str "Closing text."].
Proof. reflexivity. Qed.

Example binary64_round_samples :
  (Binary64.round 2.5 = 3 /\ Binary64.round (-2.5) = (-2)
   /\ Binary64.round 0.49999999999999994 = 0
   /\ Binary64.round (-0.2) = PrimFloat.neg_zero
   /\ Binary64.round 4503599627370495.5 = 4503599627370496
   /\ Binary64.lit 1.28%Q = 1.28)%float.
Proof. repeat split. Qed.


(** ** Exact rationals: the comparisons as propositions *)

Lemma Qltb_lt (a b : Q) : Qltb a b = true <-> (a < b)%Q.
Proof.
  unfold Qltb. rewrite negb_true_iff. split.
  - intros Hf. apply Qnot_le_lt. intros Hle.
    apply Qle_bool_iff in Hle. congruence.
  - intros Hlt. destruct (Qle_bool b a) eqn:E; [|reflexivity].
    apply Qle_bool_iff in E. exfalso. exact (Qlt_not_le _ _ Hlt E).
Qed.

Lemma Qltb_ge (a b : Q) : Qltb a b = false <-> (b <= a)%Q.
Proof.
  unfold Qltb. rewrite negb_false_iff. apply Qle_bool_iff.
Qed.

Lemma Qle_bool_gt (a b : Q) : Qle_bool a b = false <-> (b < a)%Q.
Proof.
  rewrite <- Qltb_lt. unfold Qltb. rewrite negb_true_iff. reflexivity.
Qed.

(** ** C8: quantization *)

Lemma Qfloor_half_up_Z (k : Z) : Qfloor (inject_Z k + (1 # 2)) = k.
Proof.
  unfold Qfloor, Qplus, inject_Z. cbn [Qnum Qden].
  change (Z.pos (1 * 2)) with 2%Z.
  replace (k * 2 + 1 * 1)%Z with (1 + k * 2)%Z by lia.
  rewrite Z.div_add by lia. reflexivity.
Qed.

Lemma quantizeY_exact (y : Q) :
  quantizeY y = inject_Z (Qfloor (y / 2 + (1 # 2)) * 2).
Proof. reflexivity. Qed.

(** C8. For every y, quantizeY(quantizeY(y)) = quantizeY(y), where
    quantizeY(y) = round(y / 2) * 2 (over the exact rationals). *)
Theorem quantizeY_idempotent (y : Q) :
  quantizeY (quantizeY y) = quantizeY y.
Proof.
  rewrite !quantizeY_exact.
  set (k := Qfloor (y / 2 + (1 # 2))).
  f_equal. f_equal.
  assert (E : (inject_Z (k * 2) / 2 == inject_Z k)%Q).
  { rewrite inject_Z_mult. field. }
  rewrite E. apply Qfloor_half_up_Z.
Qed.

(** The same on doubles, at values with a tie, a negative zero, a large
    magnitude and an odd integer above 2^52. *)
Example quantizeY_binary64_samples :
  Forall (fun y : float => quantizeY (quantizeY y) = quantizeY y)
    [0.5; -0.5; 701; 700.9; -3; 1e300; 4503599627370497; 0; 1e-320]%float
  /\ map quantizeY [0.5; 701; -3; 4503599627370497]%float
     = [0; 702; -2; 4503599627370498]%float.
Proof. split; [repeat constructor | reflexivity]. Qed.

(** ** Sorting *)

Section SortFacts.

Context {num : Type} `{JsNumber num} {A : Type} (cmp : A -> A -> num).

Lemma sort_insert_perm (a : A) (l : list A) :
  Permutation (sort_insert cmp a l) (a :: l).
Proof.
  induction l as [|b l IH]; simpl.
  - apply Permutation_refl.
  - destruct (num_gt (cmp a b) (num_lit 0)).
    + eapply perm_trans; [apply perm_skip, IH | apply perm_swap].
    + apply Permutation_refl.
Qed.

Lemma sort_by_perm (l : list A) : Permutation (sort_by cmp l) l.
Proof.
  induction l as [|a l IH]; simpl.
  - apply perm_nil.
  - eapply perm_trans; [apply sort_insert_perm | apply perm_skip, IH].
Qed.

Lemma sort_by_length (l : list A) : length (sort_by cmp l) = length l.
Proof. apply Permutation_length, sort_by_perm. Qed.

End SortFacts.




(** ** C5: the median *)

Lemma even_mod2 (n : nat) : (n mod 2 =? 0) = Nat.even n.
Proof.
  destruct (Nat.even n) eqn:E.
  - apply Nat.even_spec in E. destruct E as [k ->].
    apply Nat.eqb_eq. rewrite Nat.mul_comm. apply Nat.Div0.mod_mul.
  - apply Nat.eqb_neq. intros Hm.
    assert (Nat.even n = true); [|congruence].
    apply Nat.even_spec. exists (n / 2).
    pose proof (Nat.div_mod_eq n 2). lia.
Qed.

Section GenericSort.

Context {num : Type} `{JsNumber num}.

Lemma sort_insert_pairs (a : num) (l : list num) :
  Sorted ascending_pair l ->
  Sorted ascending_pair (sort_insert (fun a b => num_sub a b) a l).
Proof.
  induction 1 as [|b l Hs IH Hhd]; cbn [sort_insert].
  - repeat constructor.
  - destruct (num_gt (num_sub a b) (num_lit 0)) eqn:E.
    + constructor; [exact IH|].
      destruct l as [|c l]; cbn [sort_insert].
      * constructor. left. exact E.
      * destruct (num_gt (num_sub a c) (num_lit 0)).
        -- constructor. inversion Hhd; assumption.
        -- constructor. left. exact E.
    + constructor; [constructor; assumption|]. constructor.
      right. exact E.
Qed.

Lemma sort_by_pairs (l : list num) :
  Sorted ascending_pair (sort_by (fun a b => num_sub a b) l).
Proof.
  induction l as [|a l IH]; cbn [sort_by fold_right].
  - constructor.
  - apply sort_insert_pairs, IH.
Qed.

Lemma getMedian_cases (values : list num) :
  getMedian values =
    match length values with
    | O => num_lit 0
    | S _ =>
        let sorted := sort_by (fun a b => num_sub a b) values in
        if Nat.even (length values) then
          num_div (num_add (nth (length values / 2 - 1) sorted (num_lit 0))
                           (nth (length values / 2) sorted (num_lit 0)))
                  (num_lit 2)
        else nth (length values / 2) sorted (num_lit 0)
    end.
Proof.
  unfold getMedian. destruct values as [|v values]; [reflexivity|].
  rewrite sort_by_length, even_mod2.
  change (length (v :: values) =? 0) with false. cbv iota. reflexivity.
Qed.

End GenericSort.

Lemma ascending_pair_Q (x y : Q) : ascending_pair x y <-> (x <= y)%Q.
Proof.
  unfold ascending_pair, num_gt. cbn [num_lt num_sub num_lit Q_JsNumber].
  rewrite Qltb_lt, Qltb_ge. split.
  - intros [Hlt | Hle]; lra.
  - intros Hle. right. lra.
Qed.



(** ** C9: getMedian leaves its argument alone *)

Section MedianFrame.

Context {num : Type} `{JsNumber num}.

Lemma getMedian_ref_spec (h : gmap loc (list num)) (values : loc)
  (vs : list num) :
  h !! values = Some vs ->
  exists h', getMedian_ref values h = Some (getMedian vs, h')
             /\ forall l, is_Some (h !! l) -> h' !! l = h !! l.
Proof.
  intros Hv. unfold getMedian_ref, heap_bind, array_length at 1. rewrite Hv.
  unfold getMedian.
  destruct (length vs =? 0) eqn:E0.
  - exists h. split; [reflexivity|]. auto.
  - unfold array_spread. rewrite Hv.
    set (c := fresh (dom h)).
    assert (Hc : h !! c = None).
    { apply not_elem_of_dom. apply is_fresh. }
    set (sorted := sort_by (fun a b : num => num_sub a b) vs).
    set (h1 := <[c := vs]> h).
    assert (H1 : h1 !! c = Some vs) by apply (lookup_insert_eq h c vs).
    assert (H2 : <[c := sorted]> h1 !! c = Some sorted)
      by apply (lookup_insert_eq h1 c sorted).
    unfold array_sort. rewrite H1. cbv beta iota. fold sorted.
    unfold array_length. rewrite H2. cbv beta iota.
    exists (<[c := sorted]> h1). split.
    + unfold array_get, heap_ret.
      destruct (length sorted mod 2 =? 0); rewrite ?H2; cbv beta iota;
        rewrite ?H2; reflexivity.
    + intros l [w Hl].
      assert (Hne : c <> l) by (intros ->; congruence).
      rewrite (lookup_insert_ne h1 c l sorted Hne).
      apply (lookup_insert_ne h c l vs Hne).
Qed.

(** C9. For every heap and every array passed to getMedian, the call
    returns the median and the array holds the same elements after the
    call as before it: the function sorts a copy. *)
Theorem getMedian_does_not_mutate
  (h : gmap loc (list num)) (values : loc) (vs : list num) :
  h !! values = Some vs ->
  exists h', getMedian_ref values h = Some (getMedian vs, h')
             /\ h' !! values = Some vs.
Proof.
  intros Hv. destruct (getMedian_ref_spec h values vs Hv) as [h' [Hr Hf]].
  exists h'. split; [exact Hr|]. rewrite Hf; [exact Hv|]. rewrite Hv. eauto.
Qed.

End MedianFrame.

Lemma getMedian_does_not_mutate_witness :
  ({[ 0 := [3; 1; 2]%Q ]} : gmap loc (list Q)) !! 0 = Some [3; 1; 2]%Q
  /\ exists h', getMedian_ref 0 ({[ 0 := [3; 1; 2]%Q ]} : gmap loc (list Q))
                = Some (getMedian [3; 1; 2]%Q, h')
                /\ h' !! 0 = Some [3; 1; 2]%Q.
Proof.
  split; [reflexivity|].
  apply (getMedian_does_not_mutate {[ 0 := [3; 1; 2]%Q ]} 0 [3; 1; 2]%Q).
  reflexivity.
Defined.

(** The in-place sort on the caller's array itself would be visible. *)
Example array_sort_mutates :
  exists h', array_sort Qascending 0 ({[ 0 := [3; 1; 2]%Q ]} : gmap loc (list Q))
             = Some (0, h')
             /\ h' !! 0 = Some [1; 2; 3]%Q.
Proof. eexists. split; reflexivity. Qed.

(** ** Strings *)

Lemma drop_while_all (p : N -> bool) (s : jsstring) :
  forallb p s = true -> drop_while p s = [].
Proof.
  induction s as [|c r IH]; simpl; [reflexivity|].
  intros Hall. apply andb_true_iff in Hall as [Hc Hr]. rewrite Hc. auto.
Qed.

Lemma drop_while_head (p : N -> bool) (s : jsstring) (c : N) (r : jsstring) :
  drop_while p s = c :: r -> p c = false.
Proof.
  induction s as [|d s IH]; simpl; [discriminate|].
  destruct (p d) eqn:E; [exact IH|]. intros [= <- <-]. exact E.
Qed.

Lemma drop_while_fix (p : N -> bool) (c : N) (r : jsstring) :
  p c = false -> drop_while p (c :: r) = c :: r.
Proof. intros E. simpl. rewrite E. reflexivity. Qed.

Lemma take_drop_while (p : N -> bool) (s : jsstring) :
  take_while p s ++ drop_while p s = s.
Proof.
  induction s as [|c r IH]; simpl; [reflexivity|].
  destruct (p c); simpl; [rewrite IH|]; reflexivity.
Qed.

Lemma take_while_all (p : N -> bool) (s : jsstring) :
  forallb p (take_while p s) = true.
Proof.
  induction s as [|c r IH]; simpl; [reflexivity|].
  destruct (p c) eqn:E; simpl; [rewrite E, IH|]; reflexivity.
Qed.

Lemma take_while_app (p : N -> bool) (ds : jsstring) (c : N) (r : jsstring) :
  forallb p ds = true -> p c = false ->
  take_while p (ds ++ c :: r) = ds /\ drop_while p (ds ++ c :: r) = c :: r.
Proof.
  intros Hds Hc. induction ds as [|d ds IH]; simpl.
  - rewrite Hc. split; reflexivity.
  - simpl in Hds. apply andb_true_iff in Hds as [Hd Hds]. rewrite Hd.
    destruct (IH Hds) as [-> ->]. split; reflexivity.
Qed.

Lemma forallb_rev {A : Type} (p : A -> bool) (l : list A) :
  forallb p (rev l) = forallb p l.
Proof.
  induction l as [|a l IH]; simpl; [reflexivity|].
  rewrite forallb_app, IH. simpl. rewrite andb_true_r. apply andb_comm.
Qed.

(** [strip_end] removes a suffix of [p]-characters and leaves a string that
    does not end with one. *)
Lemma strip_end_split (p : N -> bool) (s : jsstring) :
  exists w, s = strip_end p s ++ w /\ forallb p w = true.
Proof.
  unfold strip_end. exists (rev (take_while p (rev s))). split.
  - rewrite <- rev_app_distr, take_drop_while, rev_involutive. reflexivity.
  - rewrite forallb_rev. apply take_while_all.
Qed.

Lemma strip_end_last (p : N -> bool) (s s' : jsstring) (c : N) :
  strip_end p s = s' ++ [c] -> p c = false.
Proof.
  unfold strip_end. intros E.
  apply (f_equal (@rev N)) in E. rewrite rev_involutive, rev_app_distr in E.
  simpl in E. eapply drop_while_head, E.
Qed.

Lemma strip_end_fix (p : N -> bool) (s : jsstring) (c : N) :
  p c = false -> strip_end p (s ++ [c]) = s ++ [c].
Proof.
  intros E. unfold strip_end. rewrite rev_app_distr. simpl. rewrite E.
  simpl. rewrite rev_involutive. reflexivity.
Qed.

Lemma strip_end_all (p : N -> bool) (s : jsstring) :
  forallb p s = true -> strip_end p s = [].
Proof.
  intros Hall. unfold strip_end. rewrite drop_while_all; [reflexivity|].
  rewrite forallb_rev. exact Hall.
Qed.

Lemma list_last_cases {A : Type} (l : list A) :
  l = [] \/ exists l' a, l = l' ++ [a].
Proof.
  destruct (rev l) as [|a l'] eqn:E.
  - left. apply (f_equal (@rev A)) in E. rewrite rev_involutive in E. exact E.
  - right. exists (rev l'), a.
    apply (f_equal (@rev A)) in E. rewrite rev_involutive in E. exact E.
Qed.

Lemma trim_trimmed (s : jsstring) : trimmed (trim s).
Proof.
  unfold trimmed, trim. set (d := drop_while is_ws s).
  destruct (list_last_cases (strip_end is_ws d)) as [E | [l' [a E]]].
  - rewrite E. split; reflexivity.
  - rewrite E. split.
    + destruct (strip_end_split is_ws d) as [w [Hd _]]. rewrite E in Hd.
      destruct l' as [|c l'].
      * simpl. rewrite (strip_end_last _ _ _ _ E). reflexivity.
      * simpl in *. assert (Hc : is_ws c = false).
        { apply (drop_while_head is_ws s c ((l' ++ [a]) ++ w)). exact Hd. }
        rewrite Hc. reflexivity.
    + apply strip_end_fix. eapply strip_end_last, E.
Qed.

Lemma trim_fix (s : jsstring) : trimmed s -> trim s = s.
Proof. intros [Hd He]. unfold trim. rewrite Hd. exact He. Qed.

Lemma trim_idempotent (s : jsstring) : trim (trim s) = trim s.
Proof. apply trim_fix, trim_trimmed. Qed.

Lemma trim_all_ws (s : jsstring) : forallb is_ws s = true -> trim s = [].
Proof.
  intros Hall. unfold trim. rewrite drop_while_all by exact Hall. reflexivity.
Qed.

Lemma trimmed_head (c : N) (r : jsstring) : trimmed (c :: r) -> is_ws c = false.
Proof. intros [Hd _]. eapply drop_while_head, Hd. Qed.

(** ** Headings *)

Lemma starts_with_bullet_marker_spec (s : jsstring) :
  starts_with_bullet_marker s = true <-> has_bullet_marker s.
Proof.
  unfold starts_with_bullet_marker, has_bullet_marker. split.
  - destruct s as [|c [|w rest]]; try discriminate.
    intros Hb. apply andb_true_iff in Hb as [Hc Hw].
    exists c, w, rest. split; [reflexivity|]. split; [|exact Hw].
    apply orb_true_iff in Hc as [Hc | Hc]; apply N.eqb_eq in Hc; auto.
  - intros [c [w [rest [-> [Hc Hw]]]]]. rewrite Hw, andb_true_r.
    destruct Hc as [-> | ->]; reflexivity.
Qed.

Lemma starts_with_numbered_marker_spec (s : jsstring) :
  starts_with_numbered_marker s = true <-> has_numbered_marker s.
Proof.
  unfold starts_with_numbered_marker, has_numbered_marker. split.
  - destruct (take_while is_digit s) as [|d ds] eqn:Et; [discriminate|].
    destruct (drop_while is_digit s) as [|c [|w rest]] eqn:Ed; try discriminate.
    intros Hb. apply andb_true_iff in Hb as [Hc Hw].
    exists (d :: ds), c, w, rest.
    split; [rewrite <- Et, <- Ed; symmetry; apply take_drop_while|].
    split; [discriminate|].
    split; [rewrite <- Et; apply take_while_all|].
    split; [|exact Hw].
    apply orb_true_iff in Hc as [Hc | Hc]; apply N.eqb_eq in Hc; auto.
  - intros [ds [c [w [rest [-> [Hne [Hds [Hc Hw]]]]]]]].
    assert (Hnd : is_digit c = false) by (destruct Hc as [-> | ->]; reflexivity).
    destruct (take_while_app is_digit ds c (w :: rest) Hds Hnd) as [-> ->].
    destruct ds as [|d ds]; [contradiction|].
    rewrite Hw, andb_true_r. destruct Hc as [-> | ->]; reflexivity.
Qed.

Lemma ends_with_ws_cons (c : N) (r : jsstring) :
  ends_with_ws (c :: r) = match r with [] => is_ws c | _ => ends_with_ws r end.
Proof. destruct r; reflexivity. Qed.

Lemma ends_with_ws_last (s : jsstring) (a : N) :
  ends_with_ws (s ++ [a]) = is_ws a.
Proof.
  induction s as [|c r IH]; [reflexivity|].
  change ((c :: r) ++ [a]) with (c :: (r ++ [a])).
  rewrite ends_with_ws_cons, IH. destruct r; reflexivity.
Qed.

(** The pieces of [split(/\s+/)] against the words of the string. *)
Lemma split_ws_from_length (s cur : jsstring) :
  length (split_ws_from false cur s)
  = count_words true s + 1 + (if ends_with_ws s then 1 else 0)
  /\ length (split_ws_from true cur s)
    = count_words false s
      + match s with [] => 1 | _ => if ends_with_ws s then 1 else 0 end.
Proof.
  revert cur. induction s as [|c r IH]; intros cur; [split; reflexivity|].
  rewrite ends_with_ws_cons. cbn [split_ws_from count_words].
  destruct (is_ws c) eqn:Ec.
  - destruct (IH []) as [_ IHt]. destruct (IH cur) as [_ IHt'].
    cbn [length]. rewrite IHt, IHt'. destruct r; split; lia.
  - destruct (IH (cur ++ [c])) as [IHf _]. rewrite IHf.
    destruct r; cbn [ends_with_ws]; split; lia.
Qed.

Lemma trimmed_ends (s : jsstring) : trimmed s -> ends_with_ws s = false.
Proof.
  intros [_ He]. destruct (list_last_cases s) as [-> | [s' [a ->]]];
    [reflexivity|].
  rewrite ends_with_ws_last. eapply strip_end_last, He.
Qed.

Lemma split_ws_word_count (s : jsstring) :
  trimmed s -> s <> [] -> length (split_ws s) = word_count s.
Proof.
  intros Ht Hne. destruct s as [|c r]; [contradiction|].
  unfold split_ws, word_count.
  destruct (split_ws_from_length (c :: r) []) as [-> _].
  rewrite (trimmed_ends _ Ht). cbn [count_words].
  rewrite (trimmed_head _ _ Ht). lia.
Qed.

(** [Math.max] over the rationals is the maximum of the library. *)
Lemma Qmax_b_Qmax (a b : Q) : Qmax_b a b = Qmax a b.
Proof.
  unfold Qmax_b, Qmax, GenericMinMax.gmax.
  destruct (Qltb a b) eqn:E.
  - apply Qltb_lt in E. rewrite (proj1 (Qlt_alt a b) E). reflexivity.
  - apply Qltb_ge in E. destruct (a ?= b)%Q eqn:Ec; try reflexivity.
    exfalso. exact (Qlt_not_le _ _ (proj2 (Qlt_alt a b) Ec) E).
Qed.

Lemma Qmax_b_clamp (b : Q) : (b < 1)%Q -> Qmax_b b 1 = 1%Q.
Proof. intros Hb. unfold Qmax_b. apply Qltb_lt in Hb. rewrite Hb. reflexivity. Qed.

Lemma Qmax_b_plain (b : Q) : (1 <= b)%Q -> Qmax_b b 1 = b.
Proof. intros Hb. unfold Qmax_b. apply Qltb_ge in Hb. rewrite Hb. reflexivity. Qed.

Lemma looksLikeHeading_ratio (text : jsstring) (fs bfs : Q) :
  looksLikeHeading text fs bfs = true <->
  trim text <> [] /\ spec_heading_test (trim text) fs (Qmax bfs 1).
Proof.
  rewrite <- Qmax_b_Qmax. unfold looksLikeHeading, spec_heading_test.
  pose proof (trim_trimmed text) as Ht.
  destruct (trim text) as [|c r] eqn:Ep.
  { split; [discriminate | intros [Hne _]; contradiction]. }
  set (plain := c :: r) in *.
  assert (Hne : plain <> []) by discriminate.
  rewrite <- (split_ws_word_count plain Ht Hne).
  pose proof (starts_with_bullet_marker_spec plain) as Hb.
  pose proof (starts_with_numbered_marker_spec plain) as Hn.
  destruct (90 <? length plain) eqn:E90.
  { apply Nat.ltb_lt in E90. split; [discriminate | intros [_ [Hl _]]; lia]. }
  apply Nat.ltb_ge in E90.
  destruct (starts_with_bullet_marker plain).
  { split; [discriminate | intros [_ [_ [Hnb _]]]]. exfalso. apply Hnb, Hb.
    reflexivity. }
  destruct (starts_with_numbered_marker plain).
  { split; [discriminate | intros [_ [_ [_ [Hnn _]]]]]. exfalso.
    apply Hnn, Hn. reflexivity. }
  destruct (includes ch_tab plain).
  { split; [discriminate | intros [_ [_ [_ [_ [Hf _]]]]]; discriminate]. }
  cbn [num_lt num_div num_max num_lit Q_JsNumber].
  destruct (Qltb (fs / Qmax_b bfs 1) 1.28) eqn:Er.
  { apply Qltb_lt in Er. split; [discriminate|].
    intros [_ [_ [_ [_ [_ [Hr _]]]]]]. exfalso. exact (Qlt_not_le _ _ Er Hr). }
  apply Qltb_ge in Er. rewrite Nat.leb_le. split.
  - intros Hw. repeat split; try assumption.
    + intros Hx. apply Hb in Hx. discriminate.
    + intros Hx. apply Hn in Hx. discriminate.
  - intros [_ [_ [_ [_ [_ [_ Hw]]]]]]. exact Hw.
Qed.

Lemma headingLevel_ratio (fs bfs : Q) :
  headingLevel fs bfs = spec_headingLevel (fs / Qmax bfs 1).
Proof. rewrite <- Qmax_b_Qmax. reflexivity. Qed.

(** ** C10: the body font size is clamped at 1 *)

(** C10. For every body font size below 1, the heading test and the heading
    level are what they are for the body font size 1, over the rationals
    and for every double; from 1 upwards both use the plain ratio
    fontSize / bodyFontSize of the specification. *)
Theorem heading_clamps_bodyFontSize :
  (forall (text : jsstring) (fs bfs : Q),
      ((bfs < 1)%Q ->
         looksLikeHeading text fs bfs = looksLikeHeading text fs 1%Q
         /\ headingLevel fs bfs = headingLevel fs 1%Q)
      /\ ((1 <= bfs)%Q ->
            (looksLikeHeading text fs bfs = true <->
               trim text <> [] /\ spec_heading_test (trim text) fs bfs)
            /\ headingLevel fs bfs = spec_headingLevel (fs / bfs)))
  /\ (forall (text : jsstring) (fs bfs : float),
        PrimFloat.ltb bfs 1 = true ->
        looksLikeHeading text fs bfs = looksLikeHeading text fs 1%float
        /\ headingLevel fs bfs = headingLevel fs 1%float).
Proof.
  split.
  - intros text fs bfs. split; intros Hb.
    + unfold looksLikeHeading, headingLevel.
      cbn [num_max num_lit Q_JsNumber]. rewrite (Qmax_b_clamp bfs Hb).
      split; reflexivity.
    + rewrite looksLikeHeading_ratio, headingLevel_ratio.
      rewrite <- Qmax_b_Qmax, (Qmax_b_plain bfs Hb). split; reflexivity.
  - intros text fs bfs Hb.
    assert (Em : num_max bfs (num_lit 1) = 1%float).
    { cbn [num_max Binary64.float_JsNumber]. unfold Binary64.max.
      change (num_lit 1) with 1%float. rewrite Hb. reflexivity. }
    unfold looksLikeHeading, headingLevel. rewrite Em.
    split; reflexivity.
Qed.

Lemma heading_clamps_bodyFontSize_witness :
  ((1 # 2) < 1)%Q
  /\ looksLikeHeading (str "Title") 2%Q (1 # 2) = looksLikeHeading (str "Title") 2%Q 1%Q
  /\ headingLevel 2%Q (1 # 2) = headingLevel 2%Q 1%Q.
Proof.
  split; [reflexivity|].
  apply (proj1 (proj1 heading_clamps_bodyFontSize (str "Title") 2%Q (1 # 2))).
  reflexivity.
Defined.

(** In binary64 the clamp shows at the same inputs: with body font size 0.5
    a font size 1 is no heading, although 1 / 0.5 = 2. *)
Example heading_clamp_binary64 :
  looksLikeHeading (str "Title") 1%float 0.5%float = false
  /\ looksLikeHeading (str "Title") 2%float 0.5%float = true
  /\ headingLevel 1.5%float 0.5%float = 3.
Proof. repeat split; vm_compute; reflexivity. Qed.

(** ** C3: heading classification *)

(** The claim with the plain ratio fails where the body font size is below
    1: font size 1 over body font size 1/2 has ratio 2, and the code says no
    heading; font size 3/2 over 1/2 has ratio 3, and the code says level 3. *)
Lemma heading_plain_ratio_counterexample :
  ~ (looksLikeHeading (str "Title") 1%Q (1 # 2) = true <->
       spec_heading_test (str "Title") 1%Q (1 # 2))
  /\ looksLikeHeading (str "Title") (3 # 2) (1 # 2) = true
  /\ headingLevel (3 # 2) (1 # 2) <> spec_headingLevel ((3 # 2) / (1 # 2)).
Proof.
  split; [|split; [reflexivity | discriminate]].
  intros [_ Hs].
  assert (Hf : looksLikeHeading (str "Title") 1%Q (1 # 2) = false) by reflexivity.
  rewrite Hs in Hf; [discriminate|].
  unfold spec_heading_test. repeat split.
  - vm_compute. lia.
  - intros Hx. apply starts_with_bullet_marker_spec in Hx. discriminate.
  - intros Hx. apply starts_with_numbered_marker_spec in Hx. discriminate.
  - vm_compute. discriminate.
  - vm_compute. lia.
Qed.

(** The comparisons of binary64: not below means at least, or not a number. *)
Lemma SFcompare_antisym (x y : spec_float) :
  SFcompare y x = option_map CompOpp (SFcompare x y).
Proof.
  destruct x as [sx | sx | | sx mx ex], y as [sy | sy | | sy my ey];
    cbn [SFcompare option_map]; try reflexivity;
    try (destruct sx; reflexivity); try (destruct sy; reflexivity);
    try (destruct sx, sy; reflexivity).
  destruct sx, sy; cbn [CompOpp]; try reflexivity.
  - rewrite (Z.compare_antisym ex ey).
    destruct (ex ?= ey)%Z; cbn [CompOpp]; try reflexivity.
    change (Pos.compare_cont Eq mx my) with (mx ?= my)%positive.
    change (Pos.compare_cont Eq my mx) with (my ?= mx)%positive.
    rewrite (Pos.compare_antisym mx my). reflexivity.
  - rewrite (Z.compare_antisym ex ey).
    destruct (ex ?= ey)%Z; cbn [CompOpp]; try reflexivity.
    change (Pos.compare_cont Eq mx my) with (mx ?= my)%positive.
    change (Pos.compare_cont Eq my mx) with (my ?= mx)%positive.
    rewrite (Pos.compare_antisym mx my). reflexivity.
Qed.

Lemma SFcompare_refl (x : spec_float) :
  SFcompare x x = match x with S754_nan => None | _ => Some Eq end.
Proof.
  destruct x as [s | s | | s m e]; cbn [SFcompare]; try reflexivity.
  - destruct s; reflexivity.
  - rewrite Z.compare_refl.
    change (Pos.compare_cont Eq m m) with (m ?= m)%positive.
    rewrite Pos.compare_refl. destruct s; reflexivity.
Qed.

Lemma is_nan_spec (x : float) :
  Binary64.is_nan x = true <-> Prim2SF x = S754_nan.
Proof.
  unfold Binary64.is_nan. rewrite FloatAxioms.eqb_spec. unfold SFeqb.
  rewrite SFcompare_refl. destruct (Prim2SF x); cbn; split;
    congruence || discriminate || reflexivity.
Qed.

Lemma not_below_binary64 (x y : float) :
  PrimFloat.ltb x y = false
  <-> PrimFloat.leb y x = true
      \/ Binary64.is_nan x = true \/ Binary64.is_nan y = true.
Proof.
  rewrite !is_nan_spec, FloatAxioms.ltb_spec, FloatAxioms.leb_spec.
  unfold SFltb, SFleb.
  rewrite (SFcompare_antisym x y) || rewrite (SFcompare_antisym (Prim2SF x) (Prim2SF y)).
  destruct (SFcompare (Prim2SF x) (Prim2SF y)) as [[| |]|] eqn:Ec;
    cbn [option_map CompOpp].
  - split; [left; reflexivity | reflexivity].
  - split; [discriminate|]. intros [Hd | [Hn | Hn]]; [discriminate| |];
      rewrite Hn in Ec; [|destruct (Prim2SF x)]; discriminate.
  - split; [left; reflexivity | reflexivity].
  - split; [|reflexivity]. intros _. right.
    destruct (Prim2SF x) as [sx | sx | | sx mx ex] eqn:Ex;
      [| |left; reflexivity|];
      (destruct (Prim2SF y) as [sy | sy | | sy my ey] eqn:Ey;
       [| |right; reflexivity|]; cbn in Ec; discriminate).
Qed.

Section GenericHeading.

Context {num : Type} `{JsNumber num}.

Lemma looksLikeHeading_test (text : jsstring) (fs bfs : num) :
  looksLikeHeading text fs bfs = true <->
  trim text <> [] /\ heading_test (trim text) (heading_ratio fs bfs).
Proof.
  unfold looksLikeHeading, heading_test, heading_ratio.
  pose proof (trim_trimmed text) as Ht.
  destruct (trim text) as [|c r] eqn:Ep.
  { split; [discriminate | intros [Hne _]; contradiction]. }
  set (plain := c :: r) in *.
  assert (Hne : plain <> []) by discriminate.
  rewrite <- (split_ws_word_count plain Ht Hne).
  pose proof (starts_with_bullet_marker_spec plain) as Hb.
  pose proof (starts_with_numbered_marker_spec plain) as Hn.
  destruct (90 <? length plain) eqn:E90.
  { apply Nat.ltb_lt in E90. split; [discriminate | intros [_ [Hl _]]; lia]. }
  apply Nat.ltb_ge in E90.
  destruct (starts_with_bullet_marker plain).
  { split; [discriminate | intros [_ [_ [Hnb _]]]]. exfalso. apply Hnb, Hb.
    reflexivity. }
  destruct (starts_with_numbered_marker plain).
  { split; [discriminate | intros [_ [_ [_ [Hnn _]]]]]. exfalso.
    apply Hnn, Hn. reflexivity. }
  destruct (includes ch_tab plain).
  { split; [discriminate | intros [_ [_ [_ [_ [Hf _]]]]]; discriminate]. }
  destruct (num_lt (num_div fs (num_max bfs (num_lit 1))) (num_lit 1.28)).
  { split; [discriminate|].
    intros [_ [_ [_ [_ [_ [Hr _]]]]]]. discriminate. }
  rewrite Nat.leb_le. split.
  - intros Hw. repeat split; try assumption.
    + intros Hx. apply Hb in Hx. discriminate.
    + intros Hx. apply Hn in Hx. discriminate.
  - intros [_ [_ [_ [_ [_ [_ Hw]]]]]]. exact Hw.
Qed.

Lemma headingLevel_level_for (fs bfs : num) :
  headingLevel fs bfs = level_for (heading_ratio fs bfs).
Proof. reflexivity. Qed.

End GenericHeading.

(** Where binary64 and the rationals part: 13.184 / 10.3 is exactly 1.28
    but computes to 1.2799999999999998, so the line is no heading;
    21.06 / 10.8 is exactly 1.95 but computes to just below it, so the level
    is 2; and Infinity / Infinity is not a number, which is not below 1.28
    and not at least 1.65. *)
Example heading_binary64_rounding :
  (13.184 / 10.3 == 1.28)%Q
  /\ looksLikeHeading (str "Title") 13.184%Q 10.3%Q = true
  /\ heading_ratio 13.184%float 10.3%float = 1.2799999999999998%float
  /\ looksLikeHeading (str "Title") 13.184%float 10.3%float = false
  /\ (21.06 / 10.8 == 1.95)%Q
  /\ headingLevel 21.06%Q 10.8%Q = 1
  /\ headingLevel 21.06%float 10.8%float = 2
  /\ looksLikeHeading (str "Title") PrimFloat.infinity PrimFloat.infinity
     = true
  /\ headingLevel PrimFloat.infinity PrimFloat.infinity = 3.
Proof. repeat split; vm_compute; reflexivity. Qed.

(** C3 (amended). In every number type a line qualifies as a heading iff
    its trimmed text is not empty and at most 90 characters long, does not
    start with a bullet or a numbered-list marker, contains no tab, the
    ratio fontSize / max(bodyFontSize, 1) as the program computes it is not
    below 1.28, and it has at most 14 words; the level is 1 when that
    computed ratio is at least 1.95, 2 when it is at least 1.65 and 3
    otherwise.  In binary64 "not below 1.28" is "at least 1.28, or not a
    number".  Over the rationals the ratio is the exact quotient.  With
    bodyFontSize 10, font size 12.8 qualifies and 12.79 does not, and the
    ratios 1.95, 1.94999, 1.65, 1.64999 give the levels 1, 2, 2, 3, over
    the rationals and in binary64 alike. *)
Theorem heading_classification :
  (forall (num : Type) (N : JsNumber num) (text : jsstring) (fs bfs : num),
      (looksLikeHeading text fs bfs = true <->
         trim text <> [] /\ heading_test (trim text) (heading_ratio fs bfs))
      /\ headingLevel fs bfs = level_for (heading_ratio fs bfs))
  /\ (forall ratio : float,
        num_lt ratio (num_lit 1.28) = false
        <-> num_ge ratio (num_lit 1.28) = true
            \/ Binary64.is_nan ratio = true)
  /\ (forall (text : jsstring) (fs bfs : Q),
      (looksLikeHeading text fs bfs = true <->
         trim text <> [] /\ spec_heading_test (trim text) fs (Qmax bfs 1))
      /\ headingLevel fs bfs = spec_headingLevel (fs / Qmax bfs 1))
  /\ (looksLikeHeading (str "Title") 12.8%Q 10%Q = true
      /\ looksLikeHeading (str "Title") 12.79%Q 10%Q = false
      /\ headingLevel 1.95%Q 1%Q = 1
      /\ headingLevel 1.94999%Q 1%Q = 2
      /\ headingLevel 1.65%Q 1%Q = 2
      /\ headingLevel 1.64999%Q 1%Q = 3
      /\ headingLevel 19.5%Q 10%Q = 1
      /\ headingLevel 19.4999%Q 10%Q = 2
      /\ headingLevel 16.5%Q 10%Q = 2
      /\ headingLevel 16.4999%Q 10%Q = 3)
  /\ (looksLikeHeading (str "Title") 12.8%float 10%float = true
      /\ looksLikeHeading (str "Title") 12.79%float 10%float = false
      /\ headingLevel 1.95%float 1%float = 1
      /\ headingLevel 1.94999%float 1%float = 2
      /\ headingLevel 1.65%float 1%float = 2
      /\ headingLevel 1.64999%float 1%float = 3
      /\ headingLevel 19.5%float 10%float = 1
      /\ headingLevel 19.4999%float 10%float = 2
      /\ headingLevel 16.5%float 10%float = 2
      /\ headingLevel 16.4999%float 10%float = 3).
Proof.
  split; [|split; [|split]].
  - intros num N text fs bfs. split;
      [apply looksLikeHeading_test | apply headingLevel_level_for].
  - intros ratio. cbn [num_lt num_ge num_le Binary64.float_JsNumber].
    unfold num_ge. cbn [num_le Binary64.float_JsNumber].
    rewrite not_below_binary64. split.
    + intros [Hl | [Hn | Hn]]; [left; exact Hl | right; exact Hn|].
      vm_compute in Hn. discriminate.
    + intros [Hl | Hn]; [left; exact Hl | right; left; exact Hn].
  - intros text fs bfs. split;
      [apply looksLikeHeading_ratio | apply headingLevel_ratio].
  - split; repeat split; vm_compute; reflexivity.
Qed.

(** ** C4: separators between segments *)

Section RowFacts.

Context {num : Type} `{JsNumber num}.

Lemma row_forEach_app (l1 l2 : list (PdfTextSegment num)) (i : nat)
  (st : RowState num) :
  row_forEach (l1 ++ l2) i st
  = row_forEach l2 (i + length l1) (row_forEach l1 i st).
Proof.
  revert i st. induction l1 as [|s l1 IH]; intros i st; simpl.
  - rewrite Nat.add_0_r. reflexivity.
  - rewrite IH. f_equal. lia.
Qed.

Lemma row_forEach_last (pre : list (PdfTextSegment num))
  (a : PdfTextSegment num) (i : nat) (st : RowState num) :
  st_previousEnd (row_forEach (pre ++ [a]) i st)
  = num_add (seg_x a) (seg_width a)
  /\ st_previousCharWidth (row_forEach (pre ++ [a]) i st)
     = num_div (seg_width a)
         (num_max (num_of_nat (length (seg_text a))) (num_lit 1)).
Proof.
  rewrite row_forEach_app. simpl. unfold row_step.
  destruct (0 <? i + length pre);
    repeat match goal with |- context [if ?b then _ else _] => destruct b end;
    split; reflexivity.
Qed.

End RowFacts.

Section GenericSeparator.

Context {num : Type} `{JsNumber num}.

Lemma row_step_separator_for (st : RowState num) (b : PdfTextSegment num)
  (i : nat) :
  0 < i ->
  let sep :=
    separator_for (num_sub (seg_x b) (st_previousEnd st))
                  (st_previousCharWidth st) in
  st_text (row_step st b i) = st_text st ++ separator_chars sep ++ seg_text b
  /\ st_hasTabs (row_step st b i) = st_hasTabs st || is_tab_separator sep.
Proof.
  intros Hi. unfold row_step, separator_for.
  apply Nat.ltb_lt in Hi. rewrite Hi.
  destruct (num_gt _ _).
  - cbn. rewrite <- app_assoc, orb_true_r. split; reflexivity.
  - destruct (num_gt _ _); cbn.
    + rewrite <- app_assoc, orb_false_r. split; reflexivity.
    + rewrite orb_false_r. split; reflexivity.
Qed.

Lemma consecutive_segments (pre : list (PdfTextSegment num))
  (a b : PdfTextSegment num) :
  let before := row_forEach (pre ++ [a]) 0 row_start in
  let after := row_forEach (pre ++ [a; b]) 0 row_start in
  let sep := separator_for (gap_between a b) (charWidth_of a) in
  st_text after = st_text before ++ separator_chars sep ++ seg_text b
  /\ st_hasTabs after = st_hasTabs before || is_tab_separator sep.
Proof.
  intros before after sep.
  assert (Ea : after = row_step before b (0 + length (pre ++ [a]))).
  { unfold after, before.
    change (pre ++ [a; b]) with (pre ++ [a] ++ [b]).
    rewrite app_assoc, row_forEach_app. reflexivity. }
  destruct (row_forEach_last pre a 0 row_start) as [He Hw].
  fold before in He, Hw.
  assert (Hsep : sep = separator_for (num_sub (seg_x b) (st_previousEnd before))
                         (st_previousCharWidth before)).
  { rewrite He, Hw. reflexivity. }
  rewrite Ea, Hsep. apply row_step_separator_for.
  rewrite length_app. simpl. lia.
Qed.

End GenericSeparator.

Lemma separator_for_Q (gap previousCharWidth : Q) :
  separator_for gap previousCharWidth = spec_separator gap previousCharWidth.
Proof.
  unfold separator_for, spec_separator.
  cbn [num_gt num_lt num_max num_mul num_lit Q_JsNumber].
  rewrite !Qmax_b_Qmax.
  destruct (Qlt_le_dec (Qmax 24 (previousCharWidth * 6)) gap) as [Ht | Ht].
  - apply Qltb_lt in Ht. rewrite Ht. reflexivity.
  - apply Qltb_ge in Ht. rewrite Ht.
    destruct (Qlt_le_dec (Qmax 6 (previousCharWidth * 1.75)) gap) as [Hs | Hs].
    + apply Qltb_lt in Hs. rewrite Hs. reflexivity.
    + apply Qltb_ge in Hs. rewrite Hs. reflexivity.
Qed.

(** Where binary64 and the rationals part: with a.x = 72.1, a.width = 20.1
    and b.x = 116.2 the gap is exactly 24 over the decimal fractions, so a
    space; on the doubles the program computes 24.000000000000014, so a
    tab. *)
Example gap_binary64_rounding :
  let a (n : Type) (N : JsNumber n) : PdfTextSegment n :=
    {| seg_text := str "Column"; seg_x := num_lit 72.1;
       seg_width := num_lit 20.1; seg_fontSize := num_lit 12 |} in
  let b (n : Type) (N : JsNumber n) : PdfTextSegment n :=
    {| seg_text := str "Value"; seg_x := num_lit 116.2;
       seg_width := num_lit 25; seg_fontSize := num_lit 12 |} in
  (gap_between (a Q _) (b Q _) == 24)%Q
  /\ separator_for (gap_between (a Q _) (b Q _)) (charWidth_of (a Q _))
     = SepSpace
  /\ gap_between (a float _) (b float _) = 24.000000000000014%float
  /\ separator_for (gap_between (a float _) (b float _))
                   (charWidth_of (a float _)) = SepTab
  /\ option_map line_text
       (line_of_row {| row_y := 700%float;
                       row_segments := [a float _; b float _] |} None)
     = Some (str "Column" ++ [ch_tab] ++ str "Value").
Proof. repeat split; vm_compute; reflexivity. Qed.

(** C4. In every number type, for every two consecutive segments a, b of
    a row (after any segments before them), with the gap
    b.x - (a.x + a.width) and the character width of a as the program
    computes them: the text grows by a tab when gap > max(24, 6 * charWidth)
    and the line's hasTabs flag is set, else by a space when
    gap > max(6, 1.75 * charWidth), else by nothing, and then by the text of
    b.  Over the rationals the comparisons are those of the exact values.
    With character width 5, a gap of 20 gives a space and a gap of 40 a
    tab, over the rationals and in binary64 alike. *)
Theorem gap_to_separator :
  (forall (num : Type) (N : JsNumber num)
          (pre : list (PdfTextSegment num)) (a b : PdfTextSegment num),
      let before := row_forEach (pre ++ [a]) 0 row_start in
      let after := row_forEach (pre ++ [a; b]) 0 row_start in
      let sep := separator_for (gap_between a b) (charWidth_of a) in
      st_text after = st_text before ++ separator_chars sep ++ seg_text b
      /\ st_hasTabs after = st_hasTabs before || is_tab_separator sep)
  /\ (forall (pre : list (PdfTextSegment Q)) (a b : PdfTextSegment Q),
      let before := row_forEach (pre ++ [a]) 0 row_start in
      let after := row_forEach (pre ++ [a; b]) 0 row_start in
      let sep := spec_separator (spec_gap a b) (spec_charWidth a) in
      st_text after = st_text before ++ separator_chars sep ++ seg_text b
      /\ st_hasTabs after = st_hasTabs before || is_tab_separator sep)
  /\ (spec_separator 20 5 = SepSpace /\ spec_separator 40 5 = SepTab)
  /\ (separator_for 20%float 5%float = SepSpace
      /\ separator_for 40%float 5%float = SepTab)
  /\ (let a := {| seg_text := str "Hello"; seg_x := 0%Q; seg_width := 25%Q;
                  seg_fontSize := 12%Q |} in
      let b x := {| seg_text := str "World"; seg_x := x; seg_width := 25%Q;
                    seg_fontSize := 12%Q |} in
      let line x := line_of_row {| row_y := 700%Q; row_segments := [a; b x] |}
                      None in
      option_map line_text (line 45%Q) = Some (str "Hello World")
      /\ option_map hasTabs (line 45%Q) = Some false
      /\ option_map line_text (line 65%Q)
         = Some (str "Hello" ++ [ch_tab] ++ str "World")
      /\ option_map hasTabs (line 65%Q) = Some true)
  /\ (let a := {| seg_text := str "Hello"; seg_x := 0%float;
                  seg_width := 25%float; seg_fontSize := 12%float |} in
      let b x := {| seg_text := str "World"; seg_x := x; seg_width := 25%float;
                    seg_fontSize := 12%float |} in
      let line x := line_of_row {| row_y := 700%float; row_segments := [a; b x] |}
                      None in
      option_map line_text (line 45%float) = Some (str "Hello World")
      /\ option_map hasTabs (line 45%float) = Some false
      /\ option_map line_text (line 65%float)
         = Some (str "Hello" ++ [ch_tab] ++ str "World")
      /\ option_map hasTabs (line 65%float) = Some true).
Proof.
  split; [|split; [|split; [split; reflexivity
                           |split; [split; vm_compute; reflexivity
                                   |split; repeat split; vm_compute; reflexivity]]]].
  - intros num N pre a b. apply consecutive_segments.
  - intros pre a b before after sep.
    pose proof (consecutive_segments pre a b) as Hc. cbv zeta in Hc.
    rewrite separator_for_Q in Hc.
    assert (Eg : sep = spec_separator (gap_between a b) (charWidth_of a)).
    { unfold sep, spec_gap, spec_charWidth, gap_between, charWidth_of.
      cbn [num_sub num_add num_div num_max num_of_nat num_lit Q_JsNumber].
      rewrite Qmax_b_Qmax. reflexivity. }
    rewrite Eg. exact Hc.
Qed.

(** ** C7 and C6: the errors of pdfToMarkdown *)

Section DriverFacts.

Context {num : Type} `{JsNumber num}.

(** C7. For every document with more than 100 pages, pdfToMarkdown throws
    the page-limit error with the actual page count and the limit 100, and
    the log of page reads is what it was: no page is read, so nothing is
    extracted or clustered.  A 101-page document gives
    PageLimitExceeded(101, 100). *)
Theorem page_limit_exceeded (pdf : PdfDocument num) (log : list nat) :
  100 < numPages pdf ->
  pdfToMarkdown pdf log = (inl (PageLimitExceeded (numPages pdf) 100), log)
  /\ (numPages pdf = 101 ->
      pdfToMarkdown pdf log = (inl (PageLimitExceeded 101 100), log)).
Proof.
  intros Hn. assert (E : pdfToMarkdown pdf log
                         = (inl (PageLimitExceeded (numPages pdf) 100), log)).
  { unfold pdfToMarkdown, MAX_PDF_PAGES.
    apply Nat.ltb_lt in Hn. rewrite Hn. reflexivity. }
  split; [exact E|]. intros E1. rewrite E, E1. reflexivity.
Qed.

(** On the other path every page is read, in order, and logged. *)
Lemma read_pages_log (pdf : PdfDocument num) (k pageNo : nat) (log : list nat) :
  (forall p, pageNo <= p < pageNo + k -> is_Some (page_items pdf p)) ->
  exists pages,
    read_pages pdf k pageNo log = (inr pages, log ++ seq pageNo k)
    /\ length pages = k.
Proof.
  revert pageNo log. induction k as [|k IH]; intros pageNo log Hp; simpl.
  - exists []. rewrite app_nil_r. split; reflexivity.
  - destruct (Hp pageNo ltac:(lia)) as [items Ei].
    destruct (IH (S pageNo) (log ++ [pageNo])) as [pages [Er El]];
      [intros p Hr; apply Hp; lia|].
    exists (extractLinesFromPdfTextContent items :: pages).
    unfold io_bind at 1. unfold getTextContent. rewrite Ei.
    unfold io_bind. rewrite Er. unfold io_ret. rewrite <- app_assoc.
    split; [reflexivity | simpl; congruence].
Qed.

Lemma replace_runs_from_all (min : nat) (p : N -> bool) (rep run s : jsstring) :
  forallb p s = true ->
  replace_runs_from min p rep run s = flush_run min rep (run ++ s).
Proof.
  revert run. induction s as [|c r IH]; intros run Hall; simpl.
  - rewrite app_nil_r. reflexivity.
  - simpl in Hall. apply andb_true_iff in Hall as [Hc Hr]. rewrite Hc.
    rewrite IH by exact Hr. rewrite <- app_assoc. reflexivity.
Qed.

Lemma segment_of_blank_item (rawItem : RawItem num) :
  blank_item rawItem -> segment_of_item rawItem = None.
Proof.
  unfold blank_item, segment_of_item. intros Hb.
  assert (E : trim (replace_runs 1 is_ws [ch_space] (item_str rawItem)) = []).
  { apply trim_all_ws. unfold replace_runs.
    rewrite replace_runs_from_all by exact Hb. unfold flush_run.
    destruct (length ([] ++ item_str rawItem) <? 1); [exact Hb | reflexivity]. }
  rewrite E. reflexivity.
Qed.

Lemma build_rowMap_blank (items : list (RawItem num)) :
  Forall blank_item items -> build_rowMap items = [].
Proof.
  unfold build_rowMap. generalize (@nil (num * list (PdfTextSegment num))).
  intros acc Hb. revert acc.
  induction Hb as [|it items Hit _ IH]; intros acc; simpl; [reflexivity|].
  rewrite (segment_of_blank_item it Hit). apply IH.
Qed.

Lemma extractLines_blank (items : list (RawItem num)) :
  Forall blank_item items -> extractLinesFromPdfTextContent items = [].
Proof.
  intros Hb. unfold extractLinesFromPdfTextContent.
  rewrite (build_rowMap_blank items Hb). reflexivity.
Qed.

Lemma read_pages_blank (pdf : PdfDocument num) (k pageNo : nat)
  (log : list nat) :
  (forall p, pageNo <= p < pageNo + k ->
     exists items, page_items pdf p = Some items /\ Forall blank_item items) ->
  read_pages pdf k pageNo log = (inr (repeat [] k), log ++ seq pageNo k).
Proof.
  revert pageNo log. induction k as [|k IH]; intros pageNo log Hp; simpl.
  - rewrite app_nil_r. reflexivity.
  - destruct (Hp pageNo ltac:(lia)) as [items [Ei Hb]].
    unfold io_bind at 1. unfold getTextContent. rewrite Ei.
    unfold io_bind. rewrite IH by (intros p Hr; apply Hp; lia).
    unfold io_ret. rewrite (extractLines_blank items Hb), <- app_assoc.
    reflexivity.
Qed.

Lemma concat_repeat_nil {A : Type} (k : nat) :
  concat (repeat (@nil A) k) = [].
Proof. induction k as [|k IH]; simpl; [reflexivity | exact IH]. Qed.

(** C6 (amended). For every document of at most 100 pages all of whose
    pages hold only empty or whitespace-only runs, every page yields zero
    lines and pdfToMarkdown throws the no-extractable-text error instead
    of returning Markdown; a whitespace-only run never becomes a segment,
    in any document.  Above 100 pages the page-limit error comes first. *)
Theorem no_extractable_text (pdf : PdfDocument num) (log : list nat) :
  numPages pdf <= 100 ->
  (forall pageNo, 1 <= pageNo <= numPages pdf ->
     exists items,
       page_items pdf pageNo = Some items /\ Forall blank_item items) ->
  fst (pdfToMarkdown pdf log) = inl NoExtractableText
  /\ (forall pageNo items,
        1 <= pageNo <= numPages pdf -> page_items pdf pageNo = Some items ->
        extractLinesFromPdfTextContent items = [])
  /\ (forall rawItem : RawItem num,
        blank_item rawItem -> segment_of_item rawItem = None).
Proof.
  intros Hn Hp. split; [|split].
  - unfold pdfToMarkdown, MAX_PDF_PAGES.
    apply Nat.ltb_ge in Hn. rewrite Hn. unfold io_bind.
    rewrite (read_pages_blank pdf (numPages pdf) 1 log)
      by (intros p Hr; apply Hp; lia).
    unfold pagesToMarkdown. rewrite concat_repeat_nil. reflexivity.
  - intros pageNo items Hr Ei. destruct (Hp pageNo Hr) as [items' [Ei' Hb]].
    rewrite Ei in Ei'. injection Ei' as <-. apply extractLines_blank, Hb.
  - apply segment_of_blank_item.
Qed.

End DriverFacts.

(** ** C2: tables *)

Lemma fold_max_spec (ns : list nat) (a : nat) :
  a <= fold_left Nat.max ns a
  /\ Forall (fun n => n <= fold_left Nat.max ns a) ns
  /\ (fold_left Nat.max ns a = a \/ In (fold_left Nat.max ns a) ns).
Proof.
  revert a. induction ns as [|n ns IH]; intros a; simpl.
  - split; [lia|]. split; [constructor | left; reflexivity].
  - destruct (IH (Nat.max a n)) as [Hle [Hall Hin]].
    split; [lia|]. split; [constructor; [lia | exact Hall]|].
    destruct Hin as [E | Hin]; [|right; right; exact Hin].
    destruct (Nat.max_spec a n) as [[_ Em] | [_ Em]].
    + right. left. rewrite E. symmetry. exact Em.
    + left. rewrite E. exact Em.
Qed.

Lemma fold_min_spec (ns : list nat) (a : nat) :
  fold_left Nat.min ns a <= a
  /\ Forall (fun n => fold_left Nat.min ns a <= n) ns
  /\ (fold_left Nat.min ns a = a \/ In (fold_left Nat.min ns a) ns).
Proof.
  revert a. induction ns as [|n ns IH]; intros a; simpl.
  - split; [lia|]. split; [constructor | left; reflexivity].
  - destruct (IH (Nat.min a n)) as [Hle [Hall Hin]].
    split; [lia|]. split; [constructor; [lia | exact Hall]|].
    destruct Hin as [E | Hin]; [|right; right; exact Hin].
    destruct (Nat.min_spec a n) as [[_ Em] | [_ Em]].
    + left. rewrite E. exact Em.
    + right. left. rewrite E. symmetry. exact Em.
Qed.

Lemma max_of_is_max (ns : list nat) : ns <> [] -> is_max (max_of ns) ns.
Proof.
  intros Hne. unfold max_of, is_max.
  destruct (fold_max_spec ns 0) as [_ [Hall Hin]]. split; [|exact Hall].
  destruct Hin as [E | Hin]; [|exact Hin].
  destruct ns as [|n ns]; [contradiction|].
  rewrite E in *. inversion Hall; subst. left. lia.
Qed.

Lemma min_of_is_min (ns : list nat) : ns <> [] -> is_min (min_of ns) ns.
Proof.
  intros Hne. destruct ns as [|n ns]; [contradiction|].
  unfold min_of, is_min.
  destruct (fold_min_spec ns n) as [Hle [Hall Hin]].
  split; [|constructor; assumption].
  destruct Hin as [E | Hin]; [left; congruence | right; exact Hin].
Qed.

Lemma is_max_unique (m m' : nat) (ns : list nat) :
  is_max m ns -> is_max m' ns -> m = m'.
Proof.
  intros [Hin Hall] [Hin' Hall']. rewrite List.Forall_forall in Hall, Hall'.
  apply Hall' in Hin. apply Hall in Hin'. lia.
Qed.

Lemma is_min_unique (m m' : nat) (ns : list nat) :
  is_min m ns -> is_min m' ns -> m = m'.
Proof.
  intros [Hin Hall] [Hin' Hall']. rewrite List.Forall_forall in Hall, Hall'.
  apply Hall' in Hin. apply Hall in Hin'. lia.
Qed.

(** Escaping keeps a trimmed cell trimmed and escapes every bar. *)
Lemma escape_bars_app (s t : jsstring) :
  escape_bars (s ++ t) = escape_bars s ++ escape_bars t.
Proof. unfold escape_bars. apply flat_map_app. Qed.

Lemma escape_bars_trimmed (s : jsstring) :
  trimmed s -> trimmed (escape_bars s).
Proof.
  intros Ht. pose proof (trimmed_ends s Ht) as He. destruct Ht as [Hd Hs].
  split.
  - destruct s as [|c r]; [reflexivity|].
    assert (Hc : is_ws c = false) by (eapply drop_while_head, Hd).
    unfold escape_bars. cbn [flat_map].
    destruct (c =? ch_bar)%N; cbn [app]; apply drop_while_fix;
      [reflexivity | exact Hc].
  - destruct (list_last_cases s) as [-> | [s' [a ->]]]; [reflexivity|].
    rewrite ends_with_ws_last in He.
    rewrite escape_bars_app.
    assert (Ea : escape_bars [a]
                 = if (a =? ch_bar)%N then [ch_backslash; ch_bar] else [a]).
    { unfold escape_bars. cbn [flat_map]. apply app_nil_r. }
    rewrite Ea. destruct (a =? ch_bar)%N.
    + change [ch_backslash; ch_bar] with ([ch_backslash] ++ [ch_bar]).
      rewrite app_assoc. apply strip_end_fix. reflexivity.
    + apply strip_end_fix, He.
Qed.

Lemma escape_bars_escaped (s : jsstring) (b : bool) :
  bars_escaped_from b (escape_bars s) = true.
Proof.
  revert b. induction s as [|c r IH]; intros b; [reflexivity|].
  unfold escape_bars. cbn [flat_map]. fold (escape_bars r).
  destruct (c =? ch_bar)%N eqn:E; cbn [app bars_escaped_from].
  - rewrite IH. reflexivity.
  - rewrite E, IH. reflexivity.
Qed.

Section TableFacts.

Context {num : Type} `{JsNumber num}.

Lemma rows_cell_counts (block : list (ExtractedLine num)) :
  map (@length jsstring)
    (map (fun line => splitTabbedColumns (line_text line)) block)
  = cell_counts block.
Proof. unfold cell_counts. rewrite map_map. reflexivity. Qed.

Lemma padded_row (maxCols : nat) (line : ExtractedLine num) :
  length (spec_cells line) <= maxCols ->
  firstn maxCols
    (pad_cells maxCols
       (map (fun cell => trim (escape_bars cell))
            (splitTabbedColumns (line_text line))))
  = map escape_bars (spec_cells line)
    ++ repeat [] (maxCols - length (spec_cells line)).
Proof.
  intros Hle. unfold splitTabbedColumns, spec_cells in *.
  set (parts := split_on ch_tab (line_text line)) in *.
  assert (E : map (fun cell => trim (escape_bars cell)) (map trim parts)
              = map escape_bars (map trim parts)).
  { rewrite !map_map. apply map_ext. intros part.
    apply trim_fix, escape_bars_trimmed, trim_trimmed. }
  rewrite E. unfold pad_cells. rewrite !length_map in *.
  apply firstn_all2.
  rewrite length_app, repeat_length, !length_map. lia.
Qed.

Lemma table_decision (block : list (ExtractedLine num)) :
  (length block <? 2) || (max_of (cell_counts block) <? 2)
  || (1 <? max_of (cell_counts block) - min_of (cell_counts block)) = false
  <-> spec_table_accepted block.
Proof.
  unfold spec_table_accepted. rewrite !orb_false_iff.
  rewrite !Nat.ltb_ge. split.
  - intros [[Hl Hm] Hd]. split; [exact Hl|].
    assert (Hne : cell_counts block <> []).
    { destruct block; [simpl in Hl; lia | discriminate]. }
    exists (min_of (cell_counts block)), (max_of (cell_counts block)).
    split; [apply min_of_is_min, Hne|].
    split; [apply max_of_is_max, Hne|]. split; assumption.
  - intros [Hl [minCols [maxCols [Hmin [Hmax [Hm Hd]]]]]].
    assert (Hne : cell_counts block <> []).
    { destruct block; [simpl in Hl; lia | discriminate]. }
    rewrite (is_min_unique _ _ _ (min_of_is_min _ Hne) Hmin).
    rewrite (is_max_unique _ _ _ (max_of_is_max _ Hne) Hmax).
    repeat split; assumption.
Qed.

Lemma table_rendering (block : list (ExtractedLine num)) :
  spec_table_accepted block ->
  tabbedBlockToMarkdownTable block
  = spec_table block (max_of (cell_counts block)).
Proof.
  intros Hacc. pose proof (proj2 (table_decision block) Hacc) as Hdec.
  unfold tabbedBlockToMarkdownTable.
  rewrite rows_cell_counts, length_map, Hdec.
  assert (Hne : cell_counts block <> []).
  { destruct Hacc as [Hl _]. destruct block; [simpl in Hl; lia | discriminate]. }
  destruct (max_of_is_max _ Hne) as [_ Hall].
  set (maxCols := max_of (cell_counts block)) in *.
  assert (E : map (fun row =>
                     firstn maxCols
                       (pad_cells maxCols
                          (map (fun cell => trim (escape_bars cell)) row)))
                  (map (fun line => splitTabbedColumns (line_text line)) block)
              = spec_table_cells block maxCols).
  { unfold spec_table_cells. rewrite map_map. apply map_ext_in.
    intros line Hin. apply padded_row.
    rewrite List.Forall_forall in Hall. apply Hall.
    unfold cell_counts. apply in_map_iff. exists line. split; [reflexivity | exact Hin]. }
  rewrite E. unfold spec_table.
  destruct (spec_table_cells block maxCols) as [|first others] eqn:Ec.
  - destruct block; [contradiction Hne; reflexivity | discriminate].
  - reflexivity.
Qed.

Lemma table_cells_shape (block : list (ExtractedLine num)) (maxCols : nat) :
  is_max maxCols (cell_counts block) ->
  Forall (fun row => length row = maxCols
                     /\ Forall (fun cell => bars_escaped cell = true) row)
         (spec_table_cells block maxCols).
Proof.
  intros [_ Hall]. unfold spec_table_cells, cell_counts in *.
  rewrite List.Forall_forall in *. intros row Hin.
  apply in_map_iff in Hin as [line [<- Hin]].
  assert (Hle : length (spec_cells line) <= maxCols).
  { apply Hall, in_map_iff. exists line. split; [reflexivity | exact Hin]. }
  split.
  - rewrite length_app, repeat_length, length_map. lia.
  - apply Forall_app. split.
    + rewrite List.Forall_forall. intros cell Hc.
      apply in_map_iff in Hc as [c [<- _]]. apply escape_bars_escaped.
    + rewrite List.Forall_forall. intros cell Hc.
      apply repeat_spec in Hc. rewrite Hc. reflexivity.
Qed.

End TableFacts.

(** The flattened lines hold no tab and no two spaces in a row. *)
Lemma includes_app (c : N) (s t : jsstring) :
  includes c (s ++ t) = includes c s || includes c t.
Proof. apply existsb_app. Qed.









Section FallbackFacts.

Context {num : Type} `{JsNumber num}.


End FallbackFacts.

Lemma single_spaced_weaken (b : bool) (s : jsstring) :
  single_spaced_from b s = true -> single_spaced_from false s = true.
Proof.
  destruct s as [|c r]; [reflexivity|]. cbn [single_spaced_from].
  intros Hs. apply andb_true_iff in Hs as [_ Hr]. rewrite Hr.
  destruct (c =? ch_space)%N; reflexivity.
Qed.

Lemma single_spaced_suffix (b : bool) (s t : jsstring) :
  single_spaced_from b (s ++ t) = true -> single_spaced_from false t = true.
Proof.
  revert b. induction s as [|c r IH]; intros b; [apply single_spaced_weaken|].
  cbn [app single_spaced_from]. intros Hs.
  apply andb_true_iff in Hs as [_ Hr]. eapply IH, Hr.
Qed.

Lemma single_spaced_prefix (b : bool) (s t : jsstring) :
  single_spaced_from b (s ++ t) = true -> single_spaced_from b s = true.
Proof.
  revert b. induction s as [|c r IH]; intros b; [reflexivity|].
  cbn [app single_spaced_from]. intros Hs.
  apply andb_true_iff in Hs as [Hc Hr]. rewrite Hc. eapply IH, Hr.
Qed.

Lemma single_spaced_drop_while (b : bool) (p : N -> bool) (s : jsstring) :
  single_spaced_from b s = true ->
  single_spaced_from false (drop_while p s) = true.
Proof.
  intros Hs. rewrite <- (take_drop_while p s) in Hs.
  eapply single_spaced_suffix, Hs.
Qed.

Lemma single_spaced_strip_end (b : bool) (p : N -> bool) (s : jsstring) :
  single_spaced_from b s = true -> single_spaced_from b (strip_end p s) = true.
Proof.
  intros Hs. destruct (strip_end_split p s) as [w [E _]].
  rewrite E in Hs. eapply single_spaced_prefix, Hs.
Qed.

Lemma single_spaced_trim (b : bool) (s : jsstring) :
  single_spaced_from b s = true -> single_spaced (trim s) = true.
Proof.
  intros Hs. apply single_spaced_strip_end.
  eapply single_spaced_drop_while, Hs.
Qed.





Section FallbackSpacing.

Context {num : Type} `{JsNumber num}.


End FallbackSpacing.

Section TableClaim.

Context {num : Type} `{JsNumber num}.


End TableClaim.

(** ** C1: the end-to-end scenario *)

Lemma quantizeY_or_zero (y : Q) : quantizeY (num_or y 0%Q) = quantizeY y.
Proof.
  unfold num_or. cbn [num_falsy Q_JsNumber].
  destruct (Qeq_bool y 0) eqn:E; [|reflexivity].
  apply Qeq_bool_iff in E. rewrite !quantizeY_exact. do 2 f_equal.
  apply Qfloor_comp. rewrite E. reflexivity.
Qed.

Lemma report_segments (xA yA wA xB yB wB : Q) :
  segment_of_item (text_run "Report Title" xA yA wA (num_lit 24))
  = Some (quantizeY (num_or yA 0%Q),
          {| seg_text := str "Report Title"; seg_x := num_or xA 0%Q;
             seg_width := num_or wA 48%Q; seg_fontSize := 24%Q |})
  /\ segment_of_item (text_run "This is body text." xB yB wB (num_lit 12))
     = Some (quantizeY (num_or yB 0%Q),
             {| seg_text := str "This is body text."; seg_x := num_or xB 0%Q;
                seg_width := num_or wB 72%Q; seg_fontSize := 12%Q |}).
Proof. split; reflexivity. Qed.

Lemma report_rows (xA yA wA xB yB wB : Q) :
  (quantizeY yB < quantizeY yA)%Q ->
  rows_of_rowMap (build_rowMap (report_items xA yA wA xB yB wB))
  = [ {| row_y := quantizeY yA;
         row_segments :=
           [ {| seg_text := str "Report Title"; seg_x := num_or xA 0%Q;
                seg_width := num_or wA 48%Q; seg_fontSize := 24%Q |} ] |};
      {| row_y := quantizeY yB;
         row_segments :=
           [ {| seg_text := str "This is body text."; seg_x := num_or xB 0%Q;
                seg_width := num_or wB 72%Q; seg_fontSize := 12%Q |} ] |} ].
Proof.
  intros Hy. unfold build_rowMap, report_items. cbn [fold_left].
  destruct (report_segments xA yA wA xB yB wB) as [-> ->].
  rewrite !quantizeY_or_zero. cbn [rowMap_push].
  assert (Hs : num_same (quantizeY yA) (quantizeY yB) = false).
  { cbn [num_same Q_JsNumber]. destruct (Qeq_bool _ _) eqn:E; [|reflexivity].
    apply Qeq_bool_iff in E. rewrite E in Hy. exfalso. exact (Qlt_irrefl _ Hy). }
  rewrite Hs. unfold rows_of_rowMap. cbn [map fst snd sort_by fold_right sort_insert row_y].
  assert (Hc : num_gt (num_sub (quantizeY yB) (quantizeY yA)) (num_lit 0) = false).
  { unfold num_gt. cbn [num_lt num_sub num_lit Q_JsNumber]. apply Qltb_ge.
    apply Qlt_le_weak in Hy. apply (Qplus_le_l _ _ (quantizeY yA)). ring_simplify.
    exact Hy. }
  rewrite Hc. reflexivity.
Qed.

Lemma report_lines (xA yA wA xB yB wB : Q) :
  (quantizeY yB < quantizeY yA)%Q ->
  extractLinesFromPdfTextContent (report_items xA yA wA xB yB wB)
  = [ {| line_text := str "Report Title"; hasTabs := false;
         line_fontSize := 24%Q;
         breakAfter := Qltb 40.8 (Qabs (quantizeY yA - quantizeY yB)) |};
      {| line_text := str "This is body text."; hasTabs := false;
         line_fontSize := 12%Q; breakAfter := false |} ].
Proof.
  intros Hy. unfold extractLinesFromPdfTextContent.
  rewrite (report_rows xA yA wA xB yB wB Hy). reflexivity.
Qed.

Lemma report_break (yA yB : Q) :
  (quantizeY yB < quantizeY yA)%Q ->
  Qltb 40.8 (Qabs (quantizeY yA - quantizeY yB))
  = if Qlt_le_dec 40.8 (quantizeY yA - quantizeY yB) then true else false.
Proof.
  intros Hy.
  assert (Hpos : (0 <= quantizeY yA - quantizeY yB)%Q).
  { apply Qlt_le_weak in Hy. apply (Qplus_le_l _ _ (quantizeY yB)).
    ring_simplify. exact Hy. }
  destruct (Qlt_le_dec 40.8 (quantizeY yA - quantizeY yB)) as [Hg | Hg].
  - apply Qltb_lt. rewrite (Qabs_pos _ Hpos). exact Hg.
  - apply Qltb_ge. rewrite (Qabs_pos _ Hpos). exact Hg.
Qed.

(** The scenario as the claim states it fails at the positions
    (72, 700) and (72, 650): the body font size is 18, not 12, the heading
    has level 3, not 1, and the Markdown starts with three hashes. *)
Lemma report_scenario_counterexample :
  let lines :=
    extractLinesFromPdfTextContent (report_items 72 700 150 72 650 100)%Q in
  ~ (bodyFontSizeOf lines == 12)%Q
  /\ headingLevel 24%Q (bodyFontSizeOf lines) <> 1
  /\ fst (pdfToMarkdown (report_document 72 700 150 72 650 100)%Q [])
     <> inr (str "# Report Title" ++ [ch_nl; ch_nl] ++ str "This is body text.").
Proof.
  split; [|split].
  - vm_compute. discriminate.
  - vm_compute. discriminate.
  - vm_compute. discriminate.
Qed.

(** C1 (amended). For the one-page document with the two rows "Report
    Title" (font size 24), above, and "This is body text." (font size 12),
    wherever the two runs sit: no line has 20 characters, so the body font
    size is the median 18 of the fallback set {24, 12}; the first row is a
    heading of level 3 (ratio 4/3); and the Markdown is "### Report Title",
    a blank line when the rows' quantized y differ by more than
    24 * 1.7 = 40.8, and "This is body text.". *)
Theorem report_scenario (xA yA wA xB yB wB : Q) (log : list nat) :
  (quantizeY yB < quantizeY yA)%Q ->
  let lines :=
    extractLinesFromPdfTextContent (report_items xA yA wA xB yB wB) in
  map line_text lines = [str "Report Title"; str "This is body text."]
  /\ map line_fontSize lines = [24%Q; 12%Q]
  /\ (bodyFontSizeOf lines == 18)%Q
  /\ looksLikeHeading (str "Report Title") 24%Q (bodyFontSizeOf lines) = true
  /\ headingLevel 24%Q (bodyFontSizeOf lines) = 3
  /\ looksLikeHeading (str "This is body text.") 12%Q (bodyFontSizeOf lines)
     = false
  /\ pdfToMarkdown (report_document xA yA wA xB yB wB) log
     = (inr (str "### Report Title"
             ++ (if Qlt_le_dec 40.8 (quantizeY yA - quantizeY yB)
                 then [ch_nl; ch_nl] else [ch_nl])
             ++ str "This is body text."),
        log ++ [1]).
Proof.
  intros Hy lines. unfold lines.
  pose proof (report_lines xA yA wA xB yB wB Hy) as El.
  pose proof (report_break yA yB Hy) as Eb.
  rewrite El. repeat split; try reflexivity.
  unfold pdfToMarkdown, read_pages, getTextContent, io_bind, io_ret.
  cbn [numPages page_items report_document]. rewrite El, Eb.
  destruct (Qlt_le_dec 40.8 (quantizeY yA - quantizeY yB)); reflexivity.
Qed.

Lemma report_scenario_witness :
  (quantizeY 650 < quantizeY 700)%Q
  /\ pdfToMarkdown (report_document 72 700 150 72 650 100)%Q []
     = (inr (str "### Report Title" ++ [ch_nl; ch_nl]
             ++ str "This is body text."), [1]).
Proof.
  split; [reflexivity|].
  apply (report_scenario 72 700 150 72 650 100 []). reflexivity.
Defined.

(** The same run of the scenario in binary64. *)
Example report_scenario_binary64 :
  pdfToMarkdown (report_document 72 700 150 72 650 100)%float []
  = (inr (str "### Report Title" ++ [ch_nl; ch_nl]
          ++ str "This is body text."), [1])
  /\ bodyFontSizeOf
       (extractLinesFromPdfTextContent
          (report_items 72 700 150 72 650 100)%float) = 18%float.
Proof. split; vm_compute; reflexivity. Qed.

(** Had the body font size been 12, the first row would be a level-1
    heading: the renderer alone, on the lines of the scenario. *)
Example report_rendered_with_body_12 :
  linesToMarkdown
    [ {| line_text := str "Report Title"; hasTabs := false;
         line_fontSize := 24%Q; breakAfter := true |};
      {| line_text := str "This is body text."; hasTabs := false;
         line_fontSize := 12%Q; breakAfter := false |} ] 12%Q
  = str "# Report Title" ++ [ch_nl; ch_nl] ++ str "This is body text.".
Proof. reflexivity. Qed.

(** ** Witnesses for C6 and C7 *)

Lemma page_limit_exceeded_witness :
  100 < numPages (long_document (num := Q))
  /\ pdfToMarkdown (long_document (num := Q)) []
     = (inl (PageLimitExceeded 101 100), []).
Proof.
  assert (Hn : 100 < numPages (long_document (num := Q))) by (cbn; lia).
  split; [exact Hn|].
  exact (proj1 (page_limit_exceeded long_document [] Hn)).
Defined.

Lemma no_extractable_text_witness :
  numPages (blank_document (num := Q)) <= 100
  /\ fst (pdfToMarkdown (blank_document (num := Q)) []) = inl NoExtractableText.
Proof.
  assert (Hn : numPages (blank_document (num := Q)) <= 100) by (cbn; lia).
  split; [exact Hn|].
  apply (no_extractable_text blank_document [] Hn).
  intros pageNo _. eexists. split; [reflexivity|].
  repeat constructor.
Defined.

(** The claim without the page limit fails: a document of 101 pages, all
    of them holding one whitespace-only run, gets the page-limit error and
    not the no-extractable-text error, and none of its pages is read. *)
Lemma no_extractable_text_counterexample :
  (forall pageNo,
     1 <= pageNo <= numPages (blank_long_document (num := float)) ->
     exists items,
       page_items (blank_long_document (num := float)) pageNo = Some items
       /\ Forall blank_item items)
  /\ pdfToMarkdown (blank_long_document (num := float)) []
     = (inl (PageLimitExceeded 101 100), [])
  /\ fst (pdfToMarkdown (blank_long_document (num := float)) [])
     <> inl NoExtractableText.
Proof.
  split; [|split; [reflexivity | discriminate]].
  intros pageNo _. eexists. split; [reflexivity|].
  repeat constructor.
Qed.

(** Both errors in binary64. *)
Example errors_binary64 :
  pdfToMarkdown (long_document (num := float)) []
  = (inl (PageLimitExceeded 101 100), [])
  /\ pdfToMarkdown (blank_document (num := float)) []
     = (inl NoExtractableText, [1; 2]).
Proof. split; vm_compute; reflexivity. Qed.
Section RenderFacts.

Context {num : Type} `{JsNumber num}.

(** The loop hands every maximal run of tab-bearing lines to the table
    function as one block, then goes on with the line after it. *)
Lemma markdown_out_blocks (lines block : list (ExtractedLine num))
  (bodyFontSize : num) :
  markdown_out lines block bodyFontSize
  = block_out (block ++ tab_prefix lines)
    ++ match after_tab_prefix lines with
       | [] => []
       | line :: rest =>
           plain_line_out line bodyFontSize ++ markdown_out rest [] bodyFontSize
       end.
Proof.
  revert block. induction lines as [|line rest IH]; intros block;
    cbn [markdown_out tab_prefix after_tab_prefix].
  - rewrite !app_nil_r. reflexivity.
  - destruct (hasTabs line).
    + rewrite IH, <- app_assoc. reflexivity.
    + rewrite app_nil_r. reflexivity.
Qed.

End RenderFacts.

Lemma Qfloor_half_bounds (y : Q) :
  (y - 1 < inject_Z (Qfloor (y / 2 + (1 # 2))) * 2)%Q
  /\ (inject_Z (Qfloor (y / 2 + (1 # 2))) * 2 <= y + 1)%Q.
Proof.
  pose proof (Qfloor_le (y / 2 + (1 # 2))) as Hlo.
  pose proof (Qlt_floor (y / 2 + (1 # 2))) as Hhi.
  rewrite inject_Z_plus in Hhi. change (inject_Z 1) with 1%Q in Hhi.
  set (q := inject_Z (Qfloor (y / 2 + (1 # 2)))) in *. clearbody q.
  unfold Qdiv in Hlo, Hhi. change (/ 2)%Q with (1 # 2)%Q in Hlo, Hhi.
  split; lra.
Qed.

Lemma quantizeY_bounds (y : Q) :
  (y - 1 < quantizeY y)%Q /\ (quantizeY y <= y + 1)%Q.
Proof.
  rewrite quantizeY_exact, inject_Z_mult. apply Qfloor_half_bounds.
Qed.

Lemma quantizeY_monotone (y y' : Q) :
  (y <= y')%Q -> (quantizeY y <= quantizeY y')%Q.
Proof.
  intros Hy. rewrite !quantizeY_exact. rewrite <- Zle_Qle.
  apply Z.mul_le_mono_nonneg_r; [lia|]. apply Qfloor_resp_le.
  unfold Qdiv. change (/ 2)%Q with (1 # 2)%Q. lra.
Qed.

Lemma quantizeY_even (y : Q) : exists k : Z, quantizeY y = inject_Z (2 * k).
Proof.
  exists (Qfloor (y / 2 + (1 # 2))). rewrite quantizeY_exact.
  f_equal. apply Z.mul_comm.
Qed.

(** X1. quantizeY(y) is an even integer, lies in the half-open interval
    (y - 1, y + 1], and grows with y. *)
Theorem quantizeY_bucket (y y' : Q) :
  (exists k : Z, quantizeY y = inject_Z (2 * k))
  /\ (y - 1 < quantizeY y)%Q /\ (quantizeY y <= y + 1)%Q
  /\ ((y <= y')%Q -> (quantizeY y <= quantizeY y')%Q).
Proof.
  split; [apply quantizeY_even|].
  destruct (quantizeY_bounds y) as [Hlo Hhi].
  split; [exact Hlo|]. split; [exact Hhi|]. apply quantizeY_monotone.
Qed.

(** X2. Two coordinates in the same bucket differ by less than 2; two
    coordinates less than 2 apart fall into the same bucket or into
    neighbouring ones (at most 2 apart), and not always into the same:
    0.9 goes to 0 and 1.1 to 2, in binary64 too. *)
Theorem quantizeY_rows (y y' : Q) :
  ((quantizeY y == quantizeY y')%Q -> (Qabs (y - y') < 2)%Q)
  /\ ((Qabs (y - y') < 2)%Q -> (Qabs (quantizeY y - quantizeY y') <= 2)%Q)
  /\ (quantizeY 0.9%Q = 0%Q /\ quantizeY 1.1%Q = 2%Q)
  /\ (quantizeY 0.9%float = 0%float /\ quantizeY 1.1%float = 2%float).
Proof.
  destruct (quantizeY_bounds y) as [Hlo Hhi].
  destruct (quantizeY_bounds y') as [Hlo' Hhi'].
  split; [|split; [|split; split; reflexivity]].
  - intros E. apply Qabs_Qlt_condition. split; lra.
  - intros Hd. apply Qabs_Qlt_condition in Hd as [Hd1 Hd2].
    apply Qabs_Qle_condition.
    assert (H12 : (quantizeY y - quantizeY y' < 4)%Q
                  /\ (quantizeY y' - quantizeY y < 4)%Q).
    { generalize dependent (quantizeY y). generalize dependent (quantizeY y').
      intros b Hlo' Hhi' a Hlo Hhi. split; lra. }
    destruct H12 as [H1 H2].
    clear Hlo Hhi Hlo' Hhi' Hd1 Hd2.
    destruct (quantizeY_even y) as [k Ek].
    destruct (quantizeY_even y') as [k' Ek'].
    rewrite Ek, Ek' in *.
    unfold Qminus in *. rewrite <- inject_Z_opp, <- inject_Z_plus in *.
    change 4%Q with (inject_Z 4) in *.
    change (- (2))%Q with (inject_Z (-2)). change 2%Q with (inject_Z 2).
    rewrite <- Zlt_Qlt in H1, H2. rewrite <- !Zle_Qle. lia.
Qed.

(** ** getMedian: drawn from the values *)

Lemma Forall_nth_in_range {A : Type} (P : A -> Prop) (l : list A) (i : nat)
  (d : A) :
  Forall P l -> i < length l -> P (nth i l d).
Proof.
  intros Hall Hi. rewrite List.Forall_forall in Hall. apply Hall, nth_In, Hi.
Qed.

Lemma list_split_two {A : Type} (l : list A) (i : nat) (d : A) :
  S i < length l ->
  l = firstn i l ++ nth i l d :: nth (S i) l d :: skipn (S (S i)) l.
Proof.
  revert i. induction l as [|x l IH]; intros i Hi; [cbn in Hi; lia|].
  destruct i as [|i].
  - destruct l as [|y l]; [cbn in Hi; lia | reflexivity].
  - cbn [firstn nth skipn app]. f_equal. apply IH. cbn in Hi. lia.
Qed.

Lemma Sorted_adjacent {A : Type} (R : A -> A -> Prop) (l1 l2 : list A)
  (a b : A) :
  Sorted R (l1 ++ a :: b :: l2) -> R a b.
Proof.
  induction l1 as [|x l1 IH]; cbn [app]; intros Hs.
  - inversion Hs as [|? ? _ Hhd]; subst. inversion Hhd; assumption.
  - inversion Hs; subst. auto.
Qed.

Lemma even_half_positive (n : nat) :
  Nat.even n = true -> n <> 0 -> 1 <= n / 2 /\ S (n / 2 - 1) = n / 2
                                  /\ n / 2 < n.
Proof.
  intros He Hn. apply Nat.even_spec in He as [k ->].
  rewrite Nat.mul_comm, Nat.div_mul by lia. lia.
Qed.

Section MedianValues.

Context {num : Type} `{JsNumber num}.

Lemma getMedian_odd (values : list num) :
  Nat.odd (length values) = true -> In (getMedian values) values.
Proof.
  intros Ho. rewrite getMedian_cases.
  destruct (length values) as [|n] eqn:El; [discriminate|].
  cbv zeta. rewrite <- Nat.negb_odd, Ho. cbn [negb].
  eapply Permutation_in; [apply (sort_by_perm (fun a b => num_sub a b))|].
  apply nth_In. rewrite sort_by_length, El. apply Nat.div_lt; lia.
Qed.

Lemma getMedian_even (values : list num) :
  Nat.even (length values) = true -> values <> [] ->
  exists a b rest,
    Permutation values (a :: b :: rest)
    /\ ascending_pair a b
    /\ getMedian values = num_div (num_add a b) (num_lit 2).
Proof.
  intros He Hne. rewrite getMedian_cases.
  destruct (length values) as [|n] eqn:El;
    [destruct values; [contradiction | discriminate]|].
  cbv zeta. rewrite He.
  set (sorted := sort_by (fun a b => num_sub a b) values).
  destruct (even_half_positive (S n) He ltac:(lia)) as [H1 [H2 H3]].
  assert (Hl : S (S n / 2 - 1) < length sorted).
  { unfold sorted. rewrite sort_by_length, El, H2. exact H3. }
  pose proof (list_split_two sorted (S n / 2 - 1) (num_lit 0) Hl) as Es.
  rewrite H2 in Es.
  exists (nth (S n / 2 - 1) sorted (num_lit 0)),
         (nth (S n / 2) sorted (num_lit 0)),
         (firstn (S n / 2 - 1) sorted ++ skipn (S (S n / 2)) sorted).
  split; [|split; [|reflexivity]].
  - eapply perm_trans;
      [apply Permutation_sym, (sort_by_perm (fun a b => num_sub a b))|].
    fold sorted. rewrite Es at 1.
    eapply perm_trans; [apply Permutation_sym, Permutation_middle|].
    apply perm_skip.
    apply Permutation_sym, Permutation_middle.
  - eapply Sorted_adjacent. rewrite <- Es. apply sort_by_pairs.
Qed.

Lemma getMedian_none : getMedian (@nil num) = num_lit 0.
Proof. reflexivity. Qed.


End MedianValues.

(** X3. The median is drawn from the values, in every number type: for an
    odd count it is one of them, so it has every property that all of
    them have; for an even count it is half the sum, as the program
    computes it, of two of them that the comparator puts in ascending
    order.  The sum can overflow in binary64: the median of 1e308 and
    1.5e308 is Infinity. *)
Theorem getMedian_from_values :
  (forall (num : Type) (N : JsNumber num) (values : list num),
      (Nat.odd (length values) = true ->
       In (getMedian values) values
       /\ forall P : num -> Prop, Forall P values -> P (getMedian values))
      /\ (Nat.even (length values) = true -> values <> [] ->
          exists a b rest,
            Permutation values (a :: b :: rest)
            /\ ascending_pair a b
            /\ getMedian values = num_div (num_add a b) (num_lit 2)))
  /\ getMedian [1e308; 1.5e308]%float = infinity
  /\ getMedian [1e308; 1.25e308; 1.5e308]%float = 1.25e308%float.
Proof.
  split; [|split; vm_compute; reflexivity].
  intros num N values. split.
  - intros Ho. pose proof (getMedian_odd values Ho) as Hin.
    split; [exact Hin|]. intros P HP.
    rewrite List.Forall_forall in HP. apply HP, Hin.
  - apply getMedian_even.
Qed.

(** ** Sorting: order and stability *)

Section SortOrder.

Context {num : Type} `{JsNumber num} {A : Type} (cmp : A -> A -> num).

(** [a] may stand before [b]. *)
Let before (a b : A) : Prop := num_gt (cmp a b) (num_lit 0) = false.

Hypothesis cmp_asym :
  forall a b, num_gt (cmp a b) (num_lit 0) = true ->
              num_gt (cmp b a) (num_lit 0) = false.

Lemma sort_insert_sorted (a : A) (l : list A) :
  Sorted before l -> Sorted before (sort_insert cmp a l).
Proof.
  induction 1 as [|b l Hs IH Hhd]; cbn [sort_insert].
  - repeat constructor.
  - destruct (num_gt (cmp a b) (num_lit 0)) eqn:E.
    + constructor; [exact IH|].
      destruct l as [|c l]; cbn [sort_insert].
      * constructor. apply cmp_asym, E.
      * destruct (num_gt (cmp a c) (num_lit 0)).
        -- constructor. inversion Hhd; assumption.
        -- constructor. apply cmp_asym, E.
    + constructor; [constructor; assumption|]. constructor. exact E.
Qed.

Lemma sort_by_sorted (l : list A) : Sorted before (sort_by cmp l).
Proof.
  induction l as [|a l IH]; simpl; [constructor|].
  apply sort_insert_sorted, IH.
Qed.

End SortOrder.

Section SortStable.

Context {num : Type} `{JsNumber num} {A : Type} (cmp : A -> A -> num)
  (p : A -> bool).

Hypothesis class_ties :
  forall a b, p a = true -> p b = true ->
              num_gt (cmp a b) (num_lit 0) = false.

Lemma sort_insert_stable (a : A) (l : list A) :
  List.filter p (sort_insert cmp a l) = List.filter p (a :: l).
Proof.
  induction l as [|b l IH]; [reflexivity|]. cbn [sort_insert].
  destruct (num_gt (cmp a b) (num_lit 0)) eqn:E; [|reflexivity].
  cbn [List.filter] in *. rewrite IH.
  destruct (p a) eqn:Ea; [|reflexivity].
  destruct (p b) eqn:Eb; [|reflexivity].
  rewrite (class_ties a b Ea Eb) in E. discriminate.
Qed.

Lemma sort_by_stable (l : list A) :
  List.filter p (sort_by cmp l) = List.filter p l.
Proof.
  induction l as [|a l IH]; [reflexivity|]. cbn [sort_by fold_right].
  fold (sort_by cmp l). rewrite sort_insert_stable.
  cbn [List.filter]. rewrite IH. reflexivity.
Qed.

End SortStable.

Lemma sort_by_x_ascending (segments : list (PdfTextSegment Q)) :
  Sorted (fun a b => (seg_x a <= seg_x b)%Q)
         (sort_by (fun a b => num_sub (seg_x a) (seg_x b)) segments).
Proof.
  eapply Sorted_ind with (P := fun l => Sorted _ l);
    [constructor | | apply (sort_by_sorted (fun a b : PdfTextSegment Q =>
                                 num_sub (seg_x a) (seg_x b)))].
  - intros a l _ IH Hhd. constructor; [exact IH|].
    destruct Hhd as [|b l Hab]; constructor.
    unfold num_gt in Hab. cbn in Hab. apply Qltb_ge in Hab. lra.
  - intros a b Hab. unfold num_gt in *. cbn in *.
    apply Qltb_lt in Hab. apply Qltb_ge. lra.
Qed.

(** X4. Array.prototype.sort with the comparator (a, b) => a.x - b.x, as
    the engine uses it on a row's segments: the result is a permutation of
    the input in ascending order of x, and segments with equal x keep the
    order they came in. *)
Theorem segments_sorted_by_x (segments : list (PdfTextSegment Q)) (x : Q) :
  let sorted := sort_by (fun a b => num_sub (seg_x a) (seg_x b)) segments in
  Permutation sorted segments
  /\ Sorted (fun a b => (seg_x a <= seg_x b)%Q) sorted
  /\ List.filter (fun s => Qeq_bool (seg_x s) x) sorted
     = List.filter (fun s => Qeq_bool (seg_x s) x) segments.
Proof.
  split; [apply sort_by_perm|]. split.
  - apply sort_by_x_ascending.
  - apply sort_by_stable. intros a b Ha Hb.
    apply Qeq_bool_iff in Ha, Hb. unfold num_gt. cbn. apply Qltb_ge. lra.
Qed.

(** ** Rows: no run lost, rows ordered *)

Section RowMapFacts.

Context {num : Type} `{JsNumber num}.

Lemma rowMap_push_segments (yKey : num) (segment : PdfTextSegment num)
  (rowMap : list (num * list (PdfTextSegment num))) :
  Permutation (flat_map snd (rowMap_push yKey segment rowMap))
              (flat_map snd rowMap ++ [segment]).
Proof.
  induction rowMap as [|[k segments] rest IH]; cbn [rowMap_push flat_map snd].
  - apply Permutation_refl.
  - destruct (num_same k yKey); cbn [flat_map snd].
    + rewrite <- !app_assoc. apply Permutation_app_head, Permutation_app_comm.
    + rewrite <- app_assoc. apply Permutation_app_head, IH.
Qed.

Lemma rowMap_push_nonempty (yKey : num) (segment : PdfTextSegment num)
  (rowMap : list (num * list (PdfTextSegment num))) :
  Forall (fun e => snd e <> []) rowMap ->
  Forall (fun e => snd e <> []) (rowMap_push yKey segment rowMap).
Proof.
  induction 1 as [|[k segments] rest Hk Hrest IH]; cbn [rowMap_push].
  - repeat constructor. discriminate.
  - destruct (num_same k yKey); constructor; try assumption.
    cbn. destruct segments; discriminate.
Qed.

Lemma build_rowMap_from (items : list (RawItem num))
  (acc : list (num * list (PdfTextSegment num))) :
  let rowMap :=
    fold_left
      (fun rowMap rawItem =>
         match segment_of_item rawItem with
         | None => rowMap
         | Some (yKey, segment) => rowMap_push yKey segment rowMap
         end)
      items acc in
  Permutation (flat_map snd rowMap) (flat_map snd acc ++ item_segments items)
  /\ (Forall (fun e => snd e <> []) acc ->
      Forall (fun e => snd e <> []) rowMap).
Proof.
  revert acc. induction items as [|it items IH]; intros acc; cbn [fold_left].
  - unfold item_segments. cbn. rewrite app_nil_r. split; [reflexivity | auto].
  - unfold item_segments. cbn [flat_map]. fold (item_segments items).
    destruct (segment_of_item it) as [[yKey segment]|].
    + destruct (IH (rowMap_push yKey segment acc)) as [Hp Hn]. split.
      * eapply perm_trans; [exact Hp|].
        rewrite (app_assoc _ [segment]).
        apply Permutation_app_tail, rowMap_push_segments.
      * intros Ha. apply Hn, rowMap_push_nonempty, Ha.
    + apply IH.
Qed.

Lemma rows_segments (rowMap : list (num * list (PdfTextSegment num))) :
  Permutation (flat_map row_segments (rows_of_rowMap rowMap))
              (flat_map snd rowMap)
  /\ (Forall (fun e => snd e <> []) rowMap ->
      Forall (fun row => row_segments row <> []) (rows_of_rowMap rowMap))
  /\ length (rows_of_rowMap rowMap) = length rowMap.
Proof.
  unfold rows_of_rowMap.
  set (mk := fun e : num * list (PdfTextSegment num) =>
               {| row_y := fst e;
                  row_segments :=
                    sort_by (fun a b => num_sub (seg_x a) (seg_x b)) (snd e) |}).
  set (cmp := fun a b : Row num => num_sub (row_y b) (row_y a)).
  pose proof (sort_by_perm cmp (map mk rowMap)) as Hp.
  split; [|split].
  - eapply perm_trans; [apply Permutation_flat_map, Hp|].
    rewrite flat_map_concat_map, map_map, <- flat_map_concat_map.
    induction rowMap as [|e rest IH]; [apply perm_nil|].
    cbn [flat_map]. apply Permutation_app; [apply sort_by_perm|].
    apply IH. apply sort_by_perm.
  - intros Hn. eapply Permutation_Forall; [apply Permutation_sym, Hp|].
    rewrite List.Forall_forall in *. intros row Hin.
    apply in_map_iff in Hin as [e [<- Hin]]. cbn [row_segments mk].
    intros E. apply (Hn e Hin).
    pose proof (sort_by_length (fun a b => num_sub (seg_x a) (seg_x b)) (snd e))
      as Hl.
    rewrite E in Hl. destruct (snd e); [reflexivity | discriminate].
  - rewrite sort_by_length, length_map. reflexivity.
Qed.

Lemma rows_segments_perm (items : list (RawItem num)) :
  Permutation (flat_map row_segments (rows_of_rowMap (build_rowMap items)))
              (item_segments items).
Proof.
  destruct (build_rowMap_from items []) as [Hp Hn]. fold (build_rowMap items) in *.
  destruct (rows_segments (build_rowMap items)) as [Hr [Hrn _]].
  eapply perm_trans; [exact Hr | exact Hp].
Qed.

Lemma rows_nonempty (items : list (RawItem num)) :
  Forall (fun row => row_segments row <> [])
         (rows_of_rowMap (build_rowMap items)).
Proof.
  destruct (build_rowMap_from items []) as [Hp Hn]. fold (build_rowMap items) in *.
  destruct (rows_segments (build_rowMap items)) as [Hr [Hrn _]].
  apply Hrn, Hn. constructor.
Qed.

(** X5. No run is lost or doubled: the segments of the rows of a page are
    exactly the segments of its non-blank items, each once, and no row is
    empty. *)
Theorem rows_hold_all_segments (items : list (RawItem num)) :
  let rows := rows_of_rowMap (build_rowMap items) in
  Permutation (flat_map row_segments rows) (item_segments items)
  /\ Forall (fun row => row_segments row <> []) rows.
Proof.
  split; [apply rows_segments_perm | apply rows_nonempty].
Qed.

End RowMapFacts.

(** ** Segments: clean text, positive font size *)

Lemma forallb_drop_while (q p : N -> bool) (s : jsstring) :
  forallb q s = true -> forallb q (drop_while p s) = true.
Proof.
  induction s as [|c r IH]; [reflexivity|]. intros Hs. cbn [drop_while].
  destruct (p c); [|exact Hs].
  simpl in Hs. apply andb_true_iff in Hs as [_ Hs]. auto.
Qed.

Lemma forallb_strip_end (q p : N -> bool) (s : jsstring) :
  forallb q s = true -> forallb q (strip_end p s) = true.
Proof.
  intros Hs. unfold strip_end. rewrite forallb_rev.
  apply forallb_drop_while. rewrite forallb_rev. exact Hs.
Qed.

Lemma whitespace_collapsed (run s : jsstring) :
  let out := replace_runs_from 1 is_ws [ch_space] run s in
  single_spaced_from false out = true /\ plain_spaces out = true.
Proof.
  assert (Hf : forall run', flush_run 1 [ch_space] run' = []
                            \/ flush_run 1 [ch_space] run' = [ch_space]).
  { intros [|a run']; [left | right]; reflexivity. }
  revert run. induction s as [|c r IH]; intros run; cbn [replace_runs_from].
  - destruct (Hf run) as [-> | ->]; split; reflexivity.
  - destruct (is_ws c) eqn:Ec; [apply IH|].
    assert (Es : (c =? ch_space)%N = false).
    { destruct (c =? ch_space)%N eqn:E; [|reflexivity].
      apply N.eqb_eq in E. subst c. discriminate. }
    destruct (IH []) as [IH1 IH2]. unfold plain_spaces in *.
    destruct (Hf run) as [-> | ->]; cbn [app single_spaced_from forallb];
      rewrite Ec, Es; cbn; split; assumption.
Qed.

Lemma plain_spaces_no_tab (s : jsstring) :
  plain_spaces s = true -> includes ch_tab s = false.
Proof.
  unfold plain_spaces, includes. induction s as [|c r IH]; [reflexivity|].
  cbn [forallb existsb]. intros Hs. apply andb_true_iff in Hs as [Hc Hr].
  rewrite (IH Hr), orb_false_r. unfold is_char.
  destruct (c =? ch_tab)%N eqn:E; [|reflexivity].
  apply N.eqb_eq in E. subst c. discriminate.
Qed.

Lemma collapsed_all_ws (run s : jsstring) :
  forallb is_ws (replace_runs_from 1 is_ws [ch_space] run s) = true ->
  forallb is_ws s = true.
Proof.
  revert run. induction s as [|a s IH]; intros run; [reflexivity|].
  cbn [replace_runs_from forallb]. destruct (is_ws a) eqn:Ea.
  - apply IH.
  - rewrite forallb_app. cbn [forallb]. rewrite Ea, andb_false_r. discriminate.
Qed.

Section SegmentFacts.

Context {num : Type} `{JsNumber num}.

Lemma segment_text_clean (rawItem : RawItem num) (yKey : num)
  (segment : PdfTextSegment num) :
  segment_of_item rawItem = Some (yKey, segment) ->
  clean_text (seg_text segment)
  /\ seg_text segment
     = trim (replace_runs 1 is_ws [ch_space] (item_str rawItem)).
Proof.
  unfold segment_of_item.
  set (text := trim (replace_runs 1 is_ws [ch_space] (item_str rawItem))).
  assert (Hc : text <> [] -> clean_text text).
  { intros Hne. split; [exact Hne|]. split; [apply trim_trimmed|].
    unfold text, replace_runs.
    destruct (whitespace_collapsed [] (item_str rawItem)) as [Hs Hp]. split.
    - apply (single_spaced_trim false), Hs.
    - apply forallb_strip_end, forallb_drop_while, Hp. }
  destruct text as [|c r] eqn:Et; [discriminate|].
  intros [= <- <-]. cbn [seg_text]. split; [apply Hc; discriminate | reflexivity].
Qed.

Lemma segment_of_item_blank (rawItem : RawItem num) :
  segment_of_item rawItem = None <-> blank_item rawItem.
Proof.
  split; [|apply segment_of_blank_item].
  unfold segment_of_item, blank_item.
  destruct (trim (replace_runs 1 is_ws [ch_space] (item_str rawItem)))
    as [|c r] eqn:Et; [|discriminate].
  intros _. unfold trim in Et.
  destruct (strip_end_split is_ws
              (drop_while is_ws
                 (replace_runs 1 is_ws [ch_space] (item_str rawItem))))
    as [w [Ew Hw]].
  rewrite Et in Ew. cbn [app] in Ew.
  assert (Ed : drop_while is_ws
                 (replace_runs 1 is_ws [ch_space] (item_str rawItem)) = []).
  { destruct (drop_while is_ws _) as [|d ds] eqn:Ed; [reflexivity|].
    apply drop_while_head in Ed. rewrite <- Ew in Hw. cbn [forallb] in Hw.
    rewrite Ed in Hw. discriminate. }
  clear Et Ew Hw w.
  assert (Hall : forall s, drop_while is_ws s = [] -> forallb is_ws s = true).
  { induction s as [|a s IH]; [reflexivity|]. cbn.
    destruct (is_ws a); [exact IH | discriminate]. }
  apply Hall in Ed. clear Hall. unfold replace_runs in Ed.
  eapply collapsed_all_ws, Ed.
Qed.

End SegmentFacts.

Lemma opt_or_nonzero (a : option Q) (b : Q) :
  ~ (b == 0)%Q -> ~ (opt_or a b == 0)%Q.
Proof.
  intros Hb. destruct a as [v|]; [|exact Hb]. unfold opt_or, num_or.
  cbn [num_falsy Q_JsNumber]. destruct (Qeq_bool v 0) eqn:E; [exact Hb|].
  intros Hv. apply Qeq_bool_iff in Hv. congruence.
Qed.

Lemma segment_font_positive (rawItem : RawItem Q) (yKey : Q)
  (segment : PdfTextSegment Q) :
  segment_of_item rawItem = Some (yKey, segment) ->
  (0 < seg_fontSize segment)%Q.
Proof.
  intros Es. unfold segment_of_item in Es.
  destruct (trim (replace_runs 1 is_ws [ch_space] (item_str rawItem)));
    [discriminate|].
  injection Es as _ <-. cbn [seg_fontSize num_abs Q_JsNumber].
  set (v := opt_or _ _).
  assert (Hv : ~ (v == 0)%Q).
  { unfold v. repeat apply opt_or_nonzero. discriminate. }
  destruct (Qlt_le_dec 0 (Qabs v)) as [Hp | Hn]; [exact Hp|].
  exfalso. apply Hv. apply Qabs_Qle_condition in Hn. lra.
Qed.

(** X6. Every segment built from an item has a clean text (not empty,
    trimmed, words separated by single spaces and no other whitespace) and
    a font size above 0: missing or zero entries fall through to the next
    candidate and finally to 12. *)
Theorem segment_well_formed (rawItem : RawItem Q) (yKey : Q)
  (segment : PdfTextSegment Q) :
  segment_of_item rawItem = Some (yKey, segment) ->
  clean_text (seg_text segment) /\ (0 < seg_fontSize segment)%Q.
Proof.
  intros Es. split; [apply (segment_text_clean rawItem yKey segment Es)|].
  apply (segment_font_positive rawItem yKey segment Es).
Qed.

Lemma segment_well_formed_witness :
  segment_of_item (text_run " Report   Title " 72 700 0 0)%Q
  = Some (700%Q, {| seg_text := str "Report Title"; seg_x := 72%Q;
                    seg_width := 48%Q; seg_fontSize := 12%Q |})
  /\ clean_text (str "Report Title") /\ (0 < 12)%Q.
Proof.
  split; [reflexivity|].
  apply (segment_well_formed (text_run " Report   Title " 72 700 0 0)%Q 700%Q
           {| seg_text := str "Report Title"; seg_x := 72%Q;
              seg_width := 48%Q; seg_fontSize := 12%Q |}).
  reflexivity.
Defined.

(** ** Rows in reading order *)

Lemma rowMap_push_keys (yKey : Q) (segment : PdfTextSegment Q)
  (rowMap : list (Q * list (PdfTextSegment Q))) :
  map fst (rowMap_push yKey segment rowMap) = map fst rowMap
  \/ (map fst (rowMap_push yKey segment rowMap) = map fst rowMap ++ [yKey]
      /\ Forall (fun k => ~ (k == yKey)%Q) (map fst rowMap)).
Proof.
  induction rowMap as [|[k segments] rest IH]; cbn [rowMap_push map fst].
  - right. split; [reflexivity | constructor].
  - cbn [num_same Q_JsNumber]. destruct (Qeq_bool k yKey) eqn:E.
    + left. reflexivity.
    + cbn [map fst]. destruct IH as [-> | [-> Hall]]; [left; reflexivity|].
      right. split; [reflexivity|]. constructor; [|exact Hall].
      intros Hk. apply Qeq_bool_iff in Hk. congruence.
Qed.

Lemma NoDupA_snoc (keys : list Q) (k : Q) :
  NoDupA Qeq keys -> Forall (fun k' => ~ (k' == k)%Q) keys ->
  NoDupA Qeq (keys ++ [k]).
Proof.
  induction 1 as [|a keys Ha Hnd IH]; intros Hall; cbn [app].
  - repeat constructor. intros Hin. inversion Hin.
  - inversion Hall as [|? ? Hak Hall']; subst. constructor; [|apply IH, Hall'].
    intros Hin. apply InA_app in Hin as [Hin | Hin]; [contradiction|].
    inversion Hin as [? ? E | ? ? Hnil]; subst; [contradiction | inversion Hnil].
Qed.

Lemma rowMap_push_ok (items : list (RawItem Q)) (rawItem : RawItem Q)
  (yKey : Q) (segment : PdfTextSegment Q)
  (rowMap : list (Q * list (PdfTextSegment Q))) :
  In rawItem items -> segment_of_item rawItem = Some (yKey, segment) ->
  rowMap_ok items rowMap -> rowMap_ok items (rowMap_push yKey segment rowMap).
Proof.
  intros Hin Es [Hnd Hseg]. split.
  - destruct (rowMap_push_keys yKey segment rowMap) as [-> | [-> Hall]];
      [exact Hnd | apply NoDupA_snoc; assumption].
  - clear Hnd. induction Hseg as [|[k segments] rest Hk Hrest IH];
      cbn [rowMap_push].
    + repeat constructor. exists rawItem, yKey. cbn [fst].
      split; [exact Hin|]. split; [exact Es | reflexivity].
    + cbn [num_same Q_JsNumber]. destruct (Qeq_bool k yKey) eqn:E.
      * constructor; [|exact Hrest]. cbn [fst snd] in *.
        apply Forall_app. split; [exact Hk|]. repeat constructor.
        exists rawItem, yKey. split; [exact Hin|]. split; [exact Es|].
        apply Qeq_bool_iff, E.
      * constructor; [exact Hk | exact IH].
Qed.

Lemma build_rowMap_ok_from (all items : list (RawItem Q))
  (acc : list (Q * list (PdfTextSegment Q))) :
  (forall rawItem, In rawItem items -> In rawItem all) ->
  rowMap_ok all acc ->
  rowMap_ok all
    (fold_left
       (fun rowMap rawItem =>
          match segment_of_item rawItem with
          | None => rowMap
          | Some (yKey, segment) => rowMap_push yKey segment rowMap
          end)
       items acc).
Proof.
  revert acc. induction items as [|it items IH]; intros acc Hsub Hok;
    cbn [fold_left]; [exact Hok|].
  apply IH; [intros r Hr; apply Hsub; right; exact Hr|].
  destruct (segment_of_item it) as [[yKey segment]|] eqn:Es; [|exact Hok].
  apply (rowMap_push_ok all it); [apply Hsub; left; reflexivity | exact Es | exact Hok].
Qed.

Lemma build_rowMap_ok (items : list (RawItem Q)) :
  rowMap_ok items (build_rowMap items).
Proof.
  apply build_rowMap_ok_from; [auto|]. split; constructor.
Qed.

Lemma Sorted_strict {A : Type} (le lt eqA : A -> A -> Prop) (l : list A) :
  (forall a b, le a b -> ~ eqA a b -> lt a b) ->
  Sorted le l -> NoDupA eqA l -> Sorted lt l.
Proof.
  intros Hlt. induction 1 as [|a l Hs IH Hhd]; intros Hnd; [constructor|].
  inversion Hnd as [|? ? Hnin Hnd']; subst. constructor; [apply IH, Hnd'|].
  destruct Hhd as [|b l Hab]; constructor.
  apply Hlt; [exact Hab|]. intros E. apply Hnin. left. exact E.
Qed.

#[local] Instance row_y_equivalence :
  Equivalence (fun a b : Row Q => (row_y a == row_y b)%Q).
Proof.
  split.
  - intros a. reflexivity.
  - intros a b E. symmetry. exact E.
  - intros a b c E1 E2. rewrite E1. exact E2.
Qed.

(** X7. The rows of a page come in reading order: their y strictly
    descends (no two rows share a y), the segments of each row ascend in x,
    and every segment sits in the row of its own quantized y. *)
Theorem rows_in_reading_order (items : list (RawItem Q)) :
  let rows := rows_of_rowMap (build_rowMap items) in
  Sorted (fun a b => (row_y b < row_y a)%Q) rows
  /\ Forall (fun row =>
               Sorted (fun a b => (seg_x a <= seg_x b)%Q) (row_segments row))
            rows
  /\ Forall (fun row =>
               Forall (fun s => exists rawItem k,
                                  In rawItem items
                                  /\ segment_of_item rawItem = Some (k, s)
                                  /\ (row_y row == k)%Q)
                      (row_segments row))
            rows.
Proof.
  destruct (build_rowMap_ok items) as [Hnd Hseg].
  intros rows. unfold rows, rows_of_rowMap.
  set (mk := fun e : Q * list (PdfTextSegment Q) =>
               {| row_y := fst e;
                  row_segments :=
                    sort_by (fun a b => num_sub (seg_x a) (seg_x b)) (snd e) |}).
  set (cmp := fun a b : Row Q => num_sub (row_y b) (row_y a)).
  pose proof (sort_by_perm cmp (map mk (build_rowMap items))) as Hp.
  split; [|split].
  - apply (Sorted_strict
             (fun a b => num_gt (cmp a b) (num_lit 0) = false)
             _ (fun a b => (row_y a == row_y b)%Q)).
    + intros a b Hle Hne. unfold num_gt, cmp in Hle. cbn in Hle.
      apply Qltb_ge in Hle.
      destruct (Qlt_le_dec (row_y b) (row_y a)) as [Hlt | Hge]; [exact Hlt|].
      exfalso. apply Hne. lra.
    + apply sort_by_sorted. intros a b Hab. unfold num_gt, cmp in *. cbn in *.
      apply Qltb_lt in Hab. apply Qltb_ge. lra.
    + assert (Hm : NoDupA (fun a b : Row Q => (row_y a == row_y b)%Q)
                     (map mk (build_rowMap items))).
      { clear Hp Hseg. induction (build_rowMap items) as [|e rest IH];
          [constructor|].
        cbn [map] in *. inversion Hnd as [|? ? Hnin Hnd']; subst.
        constructor; [|apply IH, Hnd'].
        intros Hin. apply Hnin. clear -Hin.
        induction rest as [|e' rest IH]; [inversion Hin|].
        cbn [map] in *. inversion Hin as [? ? E | ? ? Hin']; subst;
          [left; exact E | right; apply IH, Hin']. }
      eapply PermutationA_preserves_NoDupA;
        [apply row_y_equivalence | | exact Hm].
      apply Permutation_PermutationA; [apply row_y_equivalence|].
      apply Permutation_sym, Hp.
  - eapply Permutation_Forall; [apply Permutation_sym, Hp|].
    rewrite List.Forall_forall. intros row Hin.
    apply in_map_iff in Hin as [e [<- _]]. cbn [row_segments mk].
    apply sort_by_x_ascending.
  - eapply Permutation_Forall; [apply Permutation_sym, Hp|].
    rewrite List.Forall_forall in *. intros row Hin.
    apply in_map_iff in Hin as [e [<- Hin]]. cbn [row_segments row_y mk].
    eapply Permutation_Forall; [apply Permutation_sym, sort_by_perm|].
    apply Hseg, Hin.
Qed.

(** ** Lines: every row becomes a line, its text unchanged *)

Lemma clean_text_ends (s : jsstring) :
  clean_text s ->
  (exists c r, s = c :: r /\ is_ws c = false)
  /\ (exists s' z, s = s' ++ [z] /\ is_ws z = false)
  /\ includes ch_tab s = false.
Proof.
  intros [Hne [Ht [_ Hp]]]. split; [|split].
  - destruct s as [|c r]; [contradiction|]. exists c, r.
    split; [reflexivity | eapply trimmed_head, Ht].
  - destruct (list_last_cases s) as [-> | [s' [z ->]]]; [contradiction|].
    exists s', z. split; [reflexivity|].
    pose proof (trimmed_ends _ Ht) as He. rewrite ends_with_ws_last in He.
    exact He.
  - apply plain_spaces_no_tab, Hp.
Qed.

Lemma single_spaced_app (b : bool) (s t : jsstring) :
  s <> [] -> ends_with_ws s = false ->
  single_spaced_from b (s ++ t)
  = single_spaced_from b s && single_spaced_from false t.
Proof.
  revert b. induction s as [|c r IH]; intros b Hne He; [contradiction|].
  rewrite ends_with_ws_cons in He. cbn [app single_spaced_from].
  destruct r as [|c' r'].
  - cbn [app single_spaced_from]. rewrite andb_true_r.
    assert (Es : (c =? ch_space)%N = false).
    { destruct (c =? ch_space)%N eqn:E; [|reflexivity].
      apply N.eqb_eq in E. subst c. discriminate. }
    rewrite Es. reflexivity.
  - rewrite (IH _ ltac:(discriminate) He), andb_assoc. reflexivity.
Qed.

Lemma trimmed_app (s t : jsstring) (c z : N) (r t' : jsstring) :
  s = c :: r -> is_ws c = false -> t = t' ++ [z] -> is_ws z = false ->
  trimmed (s ++ t).
Proof.
  intros -> Hc -> Hz. split.
  - cbn [app]. apply drop_while_fix, Hc.
  - rewrite app_assoc. apply strip_end_fix, Hz.
Qed.

(** The text so far, a separator and a clean segment text. *)
Lemma assembled_append (text sep s : jsstring) :
  text <> [] -> trimmed text -> single_spaced text = true ->
  sep = [] \/ sep = [ch_space] \/ sep = [ch_tab] ->
  clean_text s ->
  (text ++ sep) ++ s <> []
  /\ trimmed ((text ++ sep) ++ s)
  /\ single_spaced ((text ++ sep) ++ s) = true
  /\ includes ch_tab ((text ++ sep) ++ s)
     = includes ch_tab text || includes ch_tab sep.
Proof.
  intros Hne Ht Hs Hsep Hclean.
  destruct (clean_text_ends s Hclean) as [[c [r [Es Hc]]] [[s' [z [Es' Hz]]] Hnt]].
  destruct Hclean as [_ [_ [Hss _]]].
  destruct text as [|a text']; [contradiction|].
  pose proof (trimmed_head _ _ Ht) as Ha.
  pose proof (trimmed_ends _ Ht) as He.
  rewrite <- app_assoc. split; [discriminate|]. split; [|split].
  - cbn [app]. split; [apply drop_while_fix, Ha|].
    rewrite Es'. change (a :: text' ++ sep ++ s' ++ [z])
      with ((a :: text') ++ sep ++ s' ++ [z]).
    rewrite !app_assoc. apply strip_end_fix, Hz.
  - unfold single_spaced in *.
    rewrite (single_spaced_app false (a :: text') (sep ++ s)
               ltac:(discriminate) He), Hs. cbn [andb].
    assert (Hs1 : single_spaced_from true s = true).
    { rewrite Es in *. cbn [single_spaced_from] in *.
      destruct (c =? ch_space)%N eqn:E; [|exact Hss].
      apply N.eqb_eq in E. subst c. discriminate. }
    destruct Hsep as [-> | [-> | ->]]; cbn [app single_spaced_from];
      [exact Hss | exact Hs1 | exact Hss].
  - rewrite !includes_app, Hnt, orb_false_r. reflexivity.
Qed.

Section LineFacts.

Context {num : Type} `{JsNumber num}.

Lemma row_step_first (segment : PdfTextSegment num) :
  clean_text (seg_text segment) ->
  assembled_ok (row_step row_start segment 0).
Proof.
  intros Hc. unfold assembled_ok, row_step.
  change (0 <? 0) with false. cbv iota.
  cbn [row_start st_text st_hasTabs app].
  destruct (clean_text_ends _ Hc) as [_ [_ Hnt]].
  destruct Hc as [Hne [Ht [Hs _]]]. rewrite Hnt. auto.
Qed.

Lemma row_step_next (st : RowState num) (segment : PdfTextSegment num)
  (i : nat) :
  0 < i -> assembled_ok st -> clean_text (seg_text segment) ->
  assembled_ok (row_step st segment i).
Proof.
  intros Hi [Hne [Ht [Hs Hf]]] Hc. unfold assembled_ok, row_step.
  apply Nat.ltb_lt in Hi. rewrite Hi.
  destruct (num_gt _ _).
  - cbn [st_text st_hasTabs].
    destruct (assembled_append (st_text st) [ch_tab] (seg_text segment))
      as [H1 [H2 [H3 H4]]]; auto.
    rewrite H4. cbn. rewrite orb_true_r. auto.
  - destruct (num_gt _ _).
    + cbn [st_text st_hasTabs].
      destruct (assembled_append (st_text st) [ch_space] (seg_text segment))
        as [H1 [H2 [H3 H4]]]; auto.
      rewrite H4, Hf. cbn. rewrite orb_false_r. auto.
    + cbn [st_text st_hasTabs].
      destruct (assembled_append (st_text st) [] (seg_text segment))
        as [H1 [H2 [H3 H4]]]; auto.
      rewrite app_nil_r in *. rewrite H4, Hf. cbn. rewrite orb_false_r. auto.
Qed.

Lemma row_forEach_next (segments : list (PdfTextSegment num)) (i : nat)
  (st : RowState num) :
  0 < i -> assembled_ok st ->
  Forall (fun s => clean_text (seg_text s)) segments ->
  assembled_ok (row_forEach segments i st).
Proof.
  revert i st. induction segments as [|s rest IH]; intros i st Hi Hok Hall;
    cbn [row_forEach]; [exact Hok|].
  inversion Hall; subst. apply IH; [lia | apply row_step_next; assumption |
                                    assumption].
Qed.

Lemma row_text_ok (row : Row num) :
  row_segments row <> [] ->
  Forall (fun s => clean_text (seg_text s)) (row_segments row) ->
  assembled_ok (row_forEach (row_segments row) 0 row_start).
Proof.
  intros Hne Hall. destruct (row_segments row) as [|s rest]; [contradiction|].
  inversion Hall; subst. cbn [row_forEach].
  apply row_forEach_next; [lia | apply row_step_first; assumption | assumption].
Qed.

End LineFacts.

Lemma strip_blank_end_trimmed (s : jsstring) :
  trimmed s -> strip_end is_space_or_tab s = s.
Proof.
  intros Ht. pose proof (trimmed_ends s Ht) as He.
  destruct (list_last_cases s) as [-> | [s' [z ->]]]; [reflexivity|].
  rewrite ends_with_ws_last in He. apply strip_end_fix.
  unfold is_space_or_tab.
  destruct (z =? 32)%N eqn:E1; [apply N.eqb_eq in E1; subst z; discriminate|].
  destruct (z =? 9)%N eqn:E2; [apply N.eqb_eq in E2; subst z; discriminate|].
  reflexivity.
Qed.

Lemma collapse_spaces_id (run s : jsstring) :
  run = [] \/ run = [ch_space] ->
  single_spaced_from (match run with [] => false | _ => true end) s = true ->
  replace_runs_from 2 (is_char ch_space) [ch_space] run s = run ++ s.
Proof.
  revert run. induction s as [|c r IH]; intros run Hrun Hs;
    cbn [replace_runs_from].
  - rewrite app_nil_r. destruct Hrun as [-> | ->]; reflexivity.
  - unfold is_char at 1. cbn [single_spaced_from] in Hs.
    apply andb_true_iff in Hs as [Hc Hr].
    destruct (c =? ch_space)%N eqn:Ec.
    + destruct Hrun as [-> | ->]; [|discriminate].
      apply N.eqb_eq in Ec. subst c. cbn [app].
      rewrite (IH [ch_space]); [reflexivity | right; reflexivity | exact Hr].
    + rewrite (IH []); [|left; reflexivity | exact Hr].
      destruct Hrun as [-> | ->]; reflexivity.
Qed.

Section LinesOfRows.

Context {num : Type} `{JsNumber num}.

Lemma line_of_clean_row (row : Row num) (nextRow : option (Row num)) :
  row_segments row <> [] ->
  Forall (fun s => clean_text (seg_text s)) (row_segments row) ->
  exists line,
    line_of_row row nextRow = Some line
    /\ line_text line = row_text row
    /\ hasTabs line = includes ch_tab (line_text line)
    /\ line_text line <> [] /\ trimmed (line_text line)
    /\ single_spaced (line_text line) = true.
Proof.
  intros Hne Hall. destruct (row_text_ok row Hne Hall) as [Hn [Ht [Hs Hf]]].
  unfold line_of_row, row_text.
  set (st := row_forEach (row_segments row) 0 row_start) in *.
  rewrite (strip_blank_end_trimmed _ Ht). unfold replace_runs.
  rewrite (collapse_spaces_id [] (st_text st)); [|left; reflexivity | exact Hs].
  cbn [app]. destruct (st_text st) as [|c r] eqn:Et; [contradiction|].
  eexists. split; [reflexivity|]. cbn [line_text hasTabs].
  repeat split; try assumption; try reflexivity; apply Ht.
Qed.

Lemma lines_of_clean_rows (rows : list (Row num)) :
  Forall (fun row => row_segments row <> []
                     /\ Forall (fun s => clean_text (seg_text s))
                               (row_segments row)) rows ->
  map line_text (lines_of_rows rows) = map row_text rows
  /\ Forall (fun line =>
               line_text line <> [] /\ trimmed (line_text line)
               /\ single_spaced (line_text line) = true
               /\ hasTabs line = includes ch_tab (line_text line))
            (lines_of_rows rows).
Proof.
  induction 1 as [|row rest [Hne Hall] _ [IH1 IH2]]; cbn [lines_of_rows map].
  - split; [reflexivity | constructor].
  - destruct (line_of_clean_row row (head rest) Hne Hall)
      as [line [-> [Et [Hf [Hn [Ht Hs]]]]]].
    cbn [map]. split; [rewrite Et, IH1; reflexivity|].
    constructor; [|exact IH2]. auto.
Qed.

Lemma rows_clean (items : list (RawItem num)) :
  Forall (fun row => row_segments row <> []
                     /\ Forall (fun s => clean_text (seg_text s))
                               (row_segments row))
         (rows_of_rowMap (build_rowMap items)).
Proof.
  pose proof (rows_segments_perm items) as Hp.
  pose proof (rows_nonempty items) as Hne.
  assert (Hc : Forall (fun s => clean_text (seg_text s)) (item_segments items)).
  { unfold item_segments. rewrite List.Forall_forall. intros s Hin.
    apply in_flat_map in Hin as [it [_ Hin]].
    destruct (segment_of_item it) as [[k s']|] eqn:Es; [|contradiction].
    destruct Hin as [<- | []]. apply (segment_text_clean it k s' Es). }
  apply Permutation_sym in Hp.
  pose proof (Permutation_Forall Hp Hc) as Hall.
  rewrite List.Forall_forall in *. intros row Hin. split; [apply Hne, Hin|].
  rewrite List.Forall_forall. intros s Hs. apply Hall.
  apply in_flat_map. exists row. split; assumption.
Qed.

(** X8. Every row of a page becomes a line, and the line's text is the
    text assembled from the row's segments, unchanged by the final
    normalisation: it is never empty, neither starts nor ends with
    whitespace, has no two spaces in a row, and the line's hasTabs flag is
    set exactly when the text holds a tab. *)
Theorem extracted_lines_clean (items : list (RawItem num)) :
  let rows := rows_of_rowMap (build_rowMap items) in
  let lines := extractLinesFromPdfTextContent items in
  map line_text lines = map row_text rows
  /\ Forall (fun line =>
               line_text line <> [] /\ trimmed (line_text line)
               /\ single_spaced (line_text line) = true
               /\ hasTabs line = includes ch_tab (line_text line))
            lines.
Proof. apply lines_of_clean_rows, rows_clean. Qed.

Lemma blank_of_no_lines (items : list (RawItem num)) :
  extractLinesFromPdfTextContent items = [] -> Forall blank_item items.
Proof.
  intros El.
  destruct (lines_of_clean_rows _ (rows_clean items)) as [Em _].
  change (lines_of_rows (rows_of_rowMap (build_rowMap items)))
    with (extractLinesFromPdfTextContent items) in Em.
  rewrite El in Em. cbn [map] in Em. symmetry in Em.
  apply map_eq_nil in Em.
  pose proof (rows_segments_perm items) as Hp. rewrite Em in Hp.
  cbn [flat_map] in Hp. apply Permutation_nil in Hp.
  rewrite List.Forall_forall. intros it Hin. apply segment_of_item_blank.
  destruct (segment_of_item it) as [[k s]|] eqn:Es; [|reflexivity].
  exfalso. assert (Hs : In s (item_segments items)).
  { unfold item_segments. apply in_flat_map. exists it. split; [exact Hin|].
    rewrite Es. left. reflexivity. }
  rewrite Hp in Hs. exact Hs.
Qed.

(** X9. A page yields no line exactly when all of its runs are blank. *)
Theorem no_lines_iff_blank (items : list (RawItem num)) :
  extractLinesFromPdfTextContent items = [] <-> Forall blank_item items.
Proof. split; [apply blank_of_no_lines | apply extractLines_blank]. Qed.

End LinesOfRows.

(** ** Font sizes and breaks of the extracted lines *)

Lemma font_sum_positive (segments : list (PdfTextSegment Q)) (acc : Q) :
  (0 <= acc)%Q ->
  Forall (fun s => (0 < seg_fontSize s)%Q) segments ->
  (0 <= fold_left (fun sum s => num_add sum (seg_fontSize s)) segments acc)%Q
  /\ (segments <> [] ->
      (0 < fold_left (fun sum s => num_add sum (seg_fontSize s)) segments acc)%Q).
Proof.
  intros Hacc Hall. revert acc Hacc.
  induction Hall as [|s rest Hs _ IH]; intros acc Hacc; cbn [fold_left].
  - split; [exact Hacc | intros Hne; contradiction].
  - cbn [num_add Q_JsNumber].
    assert (Hp : (0 < acc + seg_fontSize s)%Q) by lra.
    destruct (IH (acc + seg_fontSize s)%Q ltac:(lra)) as [Hge Hgt].
    split; [exact Hge|]. intros _.
    destruct rest as [|s' rest']; [exact Hp | apply Hgt; discriminate].
Qed.

Lemma line_of_row_fonts (row : Row Q) (nextRow : option (Row Q))
  (line : ExtractedLine Q) :
  row_segments row <> [] ->
  Forall (fun s => (0 < seg_fontSize s)%Q) (row_segments row) ->
  line_of_row row nextRow = Some line ->
  (0 < line_fontSize line)%Q /\ (nextRow = None -> breakAfter line = false).
Proof.
  intros Hne Hall. unfold line_of_row.
  destruct (replace_runs 2 _ _ _); [discriminate|]. intros [= <-].
  cbn [line_fontSize breakAfter].
  destruct (font_sum_positive (row_segments row) 0%Q ltac:(lra) Hall)
    as [_ Hsum].
  specialize (Hsum Hne). cbn [num_lit Q_JsNumber] in *.
  set (sum := fold_left _ _ _) in *. clearbody sum.
  assert (Hn : (0 < inject_Z (Z.of_nat (length (row_segments row))))%Q).
  { change 0%Q with (inject_Z 0). rewrite <- Zlt_Qlt.
    destruct (row_segments row); [contradiction | cbn; lia]. }
  assert (Havg : (0 < sum / inject_Z (Z.of_nat (length (row_segments row))))%Q).
  { unfold Qdiv.
    apply Qmult_lt_0_compat; [exact Hsum | apply Qinv_lt_0_compat, Hn]. }
  set (avg := (sum / inject_Z (Z.of_nat (length (row_segments row))))%Q) in *.
  clearbody avg. split; [exact Havg|]. intros ->.
  unfold num_gt. cbn [num_lt num_mul num_lit Q_JsNumber]. apply Qltb_ge. lra.
Qed.

Lemma rows_fonts_positive (items : list (RawItem Q)) :
  Forall (fun row => Forall (fun s => (0 < seg_fontSize s)%Q)
                            (row_segments row))
         (rows_of_rowMap (build_rowMap items)).
Proof.
  pose proof (rows_segments_perm items) as Hp.
  assert (Hc : Forall (fun s => (0 < seg_fontSize s)%Q) (item_segments items)).
  { unfold item_segments. rewrite List.Forall_forall. intros s Hin.
    apply in_flat_map in Hin as [it [_ Hin]].
    destruct (segment_of_item it) as [[k s']|] eqn:Es; [|contradiction].
    destruct Hin as [<- | []]. apply (segment_font_positive it k s' Es). }
  apply Permutation_sym in Hp.
  pose proof (Permutation_Forall Hp Hc) as Hall.
  rewrite List.Forall_forall in *. intros row Hin.
  rewrite List.Forall_forall. intros s Hs. apply Hall.
  apply in_flat_map. exists row. split; assumption.
Qed.

Lemma lines_of_rows_fonts (rows : list (Row Q)) :
  Forall (fun row => row_segments row <> []
                     /\ Forall (fun s => clean_text (seg_text s))
                               (row_segments row)) rows ->
  Forall (fun row => Forall (fun s => (0 < seg_fontSize s)%Q)
                            (row_segments row)) rows ->
  Forall (fun line => (0 < line_fontSize line)%Q) (lines_of_rows rows)
  /\ (forall lines' line,
         lines_of_rows rows = lines' ++ [line] -> breakAfter line = false).
Proof.
  induction 1 as [|row rest [Hne Hall] Hrest IH]; intros Hf;
    cbn [lines_of_rows].
  - split; [constructor|]. intros lines' line E.
    destruct lines'; discriminate.
  - inversion Hf as [|? ? Hfr Hfrest]; subst.
    destruct (IH Hfrest) as [IH1 IH2].
    destruct (line_of_clean_row row (head rest) Hne Hall) as [l [El _]].
    rewrite El.
    destruct (line_of_row_fonts row (head rest) l Hne Hfr El) as [Hp Hb].
    split; [constructor; assumption|]. intros lines' line E.
    destruct lines' as [|l0 lines'].
    + cbn [app] in E. injection E as <- En. apply Hb.
      destruct rest as [|r2 rest']; [reflexivity|]. exfalso.
      inversion Hrest as [|? ? [Hne2 Hall2] _]; subst.
      destruct (line_of_clean_row r2 (head rest') Hne2 Hall2) as [l2 [El2 _]].
      cbn [lines_of_rows] in En. rewrite El2 in En. discriminate.
    + cbn [app] in E. injection E as _ En. apply (IH2 lines' line En).
Qed.

(** X10. Every extracted line has a font size above 0, and the last line of
    a page never asks for a blank line after it. *)
Theorem lines_fonts_and_last_break (items : list (RawItem Q)) :
  Forall (fun line => (0 < line_fontSize line)%Q)
         (extractLinesFromPdfTextContent items)
  /\ (forall lines' line,
         extractLinesFromPdfTextContent items = lines' ++ [line] ->
         breakAfter line = false).
Proof.
  apply lines_of_rows_fonts; [apply rows_clean | apply rows_fonts_positive].
Qed.

(** ** The body font size *)

Lemma getMedian_convex (P : Q -> Prop) (values : list Q) :
  (forall a b, P a -> P b -> P ((a + b) / 2)%Q) ->
  values <> [] -> Forall P values -> P (getMedian values).
Proof.
  intros Hconv Hne Hall.
  destruct values as [|v values]; [contradiction|].
  set (sorted := sort_by Qascending (v :: values)).
  assert (E : getMedian (v :: values)
              = if length sorted mod 2 =? 0 then
                  ((nth (length sorted / 2 - 1) sorted 0
                    + nth (length sorted / 2) sorted 0) / 2)%Q
                else nth (length sorted / 2) sorted 0%Q) by reflexivity.
  rewrite E. clear E.
  assert (Hs : Forall P sorted).
  { eapply Permutation_Forall; [|exact Hall].
    apply Permutation_sym, sort_by_perm. }
  assert (Hl : length sorted = S (length values)).
  { unfold sorted. rewrite sort_by_length. reflexivity. }
  assert (Hm : length sorted / 2 < length sorted) by (apply Nat.div_lt; lia).
  destruct (length sorted mod 2 =? 0).
  - apply Hconv; apply Forall_nth_in_range; try assumption; lia.
  - apply Forall_nth_in_range; assumption.
Qed.

Lemma bodyFontSizeOf_in (P : Q -> Prop) (allLines : list (ExtractedLine Q)) :
  (forall a b, P a -> P b -> P ((a + b) / 2)%Q) ->
  (forall a, P a -> ~ (a == 0)%Q) ->
  allLines <> [] -> Forall (fun line => P (line_fontSize line)) allLines ->
  P (bodyFontSizeOf allLines).
Proof.
  intros Hconv Hnz Hne Hall. unfold bodyFontSizeOf.
  set (keep := fun line : ExtractedLine Q =>
                 (20 <=? length (line_text line)) && negb (hasTabs line)).
  set (chosen := if 0 <? length (map line_fontSize (List.filter keep allLines))
                 then map line_fontSize (List.filter keep allLines)
                 else map line_fontSize allLines).
  assert (Hc : chosen <> [] /\ Forall P chosen).
  { unfold chosen.
    destruct (map line_fontSize (List.filter keep allLines)) as [|a l] eqn:Ef.
    - cbn. split; [destruct allLines; [contradiction | discriminate]|].
      apply Forall_map. exact Hall.
    - cbn. split; [discriminate|]. rewrite <- Ef. apply Forall_map.
      rewrite List.Forall_forall in *. intros line Hin.
      apply filter_In in Hin as [Hin _]. apply Hall, Hin. }
  destruct Hc as [Hcn Hca].
  pose proof (getMedian_convex P chosen Hconv Hcn Hca) as Hm.
  unfold num_or. cbn [num_falsy Q_JsNumber].
  destruct (Qeq_bool (getMedian chosen) 0) eqn:E; [|exact Hm].
  apply Qeq_bool_iff in E. exfalso. exact (Hnz _ Hm E).
Qed.


(** X12. The body font size of the lines extracted from any pages is above
    0, so the ratio of the heading test is taken over a positive number. *)
Theorem document_bodyFontSize_positive (pages : list (list (RawItem Q))) :
  (0 < bodyFontSizeOf
         (concat (map extractLinesFromPdfTextContent pages)))%Q.
Proof.
  set (allLines := concat (map extractLinesFromPdfTextContent pages)).
  destruct allLines as [|l ls] eqn:El; [reflexivity|].
  rewrite <- El.
  apply (bodyFontSizeOf_in (fun v => (0 < v)%Q)).
  - intros a b Ha Hb. unfold Qdiv. change (/ 2)%Q with (1 # 2)%Q. lra.
  - intros a Ha E. lra.
  - rewrite El. discriminate.
  - unfold allLines. rewrite List.Forall_forall. intros line Hin.
    apply in_concat in Hin as [lines [Hl Hin]].
    apply in_map_iff in Hl as [items [<- _]].
    destruct (lines_of_rows_fonts _ (rows_clean items)
                (rows_fonts_positive items)) as [Hf _].
    rewrite List.Forall_forall in Hf. apply Hf, Hin.
Qed.

(** ** Headings and list items *)

Lemma spec_headingLevel_antitone (r r' : Q) :
  (r <= r')%Q -> spec_headingLevel r' <= spec_headingLevel r.
Proof.
  intros Hr. unfold spec_headingLevel.
  destruct (Qle_bool 1.95 r) eqn:E1.
  - apply Qle_bool_iff in E1.
    assert (E1' : Qle_bool 1.95 r' = true)
      by (apply Qle_bool_iff; eapply Qle_trans; [exact E1 | exact Hr]).
    rewrite E1'. clear. lia.
  - destruct (Qle_bool 1.95 r'); [clear; destruct (Qle_bool 1.65 r); lia|].
    destruct (Qle_bool 1.65 r) eqn:E2.
    + apply Qle_bool_iff in E2.
      assert (E2' : Qle_bool 1.65 r' = true)
        by (apply Qle_bool_iff; eapply Qle_trans; [exact E2 | exact Hr]).
      rewrite E2'. clear. lia.
    + clear. destruct (Qle_bool 1.65 r'); lia.
Qed.

Lemma ratio_monotone (fs fs' bfs : Q) :
  (fs <= fs')%Q -> (fs / Qmax bfs 1 <= fs' / Qmax bfs 1)%Q.
Proof.
  intros Hf. pose proof (Q.le_max_r bfs 1) as Hm.
  unfold Qdiv. apply Qmult_le_compat_r; [exact Hf|].
  apply Qlt_le_weak, Qinv_lt_0_compat. lra.
Qed.

(** X13. A larger font never loses a heading nor deepens it: if a text is a
    heading at font size fs, it is one at every larger font size, and the
    heading level at the larger size is at most the level at fs. *)
Theorem heading_monotone (text : jsstring) (fs fs' bfs : Q) :
  (fs <= fs')%Q ->
  (looksLikeHeading text fs bfs = true -> looksLikeHeading text fs' bfs = true)
  /\ headingLevel fs' bfs <= headingLevel fs bfs.
Proof.
  intros Hf. pose proof (ratio_monotone fs fs' bfs Hf) as Hr. split.
  - rewrite !looksLikeHeading_ratio. unfold spec_heading_test.
    intros [Hne [Hl [Hb [Hn [Ht [Hq Hw]]]]]].
    repeat split; try assumption. eapply Qle_trans; [exact Hq | exact Hr].
  - rewrite !headingLevel_ratio. apply spec_headingLevel_antitone, Hr.
Qed.

Lemma heading_monotone_witness :
  (13 <= 20)%Q
  /\ (looksLikeHeading (str "Title") 13%Q 10%Q = true ->
      looksLikeHeading (str "Title") 20%Q 10%Q = true)
  /\ headingLevel 20%Q 10%Q <= headingLevel 13%Q 10%Q.
Proof.
  split; [discriminate|].
  apply (heading_monotone (str "Title") 13%Q 20%Q 10%Q). discriminate.
Defined.

Lemma drop_while_app_keep (p : N -> bool) (u v : jsstring) :
  forallb p u = false -> drop_while p (u ++ v) = drop_while p u ++ v.
Proof.
  induction u as [|c u IH]; [discriminate|]. cbn [forallb app drop_while].
  destruct (p c); [exact IH | reflexivity].
Qed.

Lemma strip_end_app_keep (p : N -> bool) (s t : jsstring) :
  forallb p t = false -> strip_end p (s ++ t) = s ++ strip_end p t.
Proof.
  intros Ht. unfold strip_end. rewrite rev_app_distr.
  rewrite drop_while_app_keep by (rewrite forallb_rev; exact Ht).
  rewrite rev_app_distr, rev_involutive. reflexivity.
Qed.

Lemma drop_while_keeps_nonws (s : jsstring) :
  forallb is_ws s = false -> forallb is_ws (drop_while is_ws s) = false.
Proof.
  induction s as [|c r IH]; [discriminate|]. cbn [forallb drop_while].
  destruct (is_ws c) eqn:Ec; [exact IH|]. intros _. cbn [forallb].
  rewrite Ec. reflexivity.
Qed.

Lemma trim_keeps_prefix (pre rest : jsstring) (c : N) :
  is_ws c = false -> forallb is_ws rest = false ->
  trim (c :: pre ++ rest) = c :: pre ++ strip_end is_ws rest.
Proof.
  intros Hc Hr. unfold trim. rewrite (drop_while_fix _ _ _ Hc).
  change (c :: pre ++ rest) with ((c :: pre) ++ rest).
  apply strip_end_app_keep, Hr.
Qed.

Section ListItems.

Context {num : Type} `{JsNumber num}.

Lemma marked_text_no_heading (plain : jsstring) (fs bfs : num) :
  starts_with_bullet_marker (trim plain) = true
  \/ starts_with_numbered_marker (trim plain) = true ->
  looksLikeHeading plain fs bfs = false.
Proof.
  intros Hm. unfold looksLikeHeading.
  destruct (trim plain) as [|c r]; [reflexivity|].
  destruct (90 <? length (c :: r)); [reflexivity|].
  destruct Hm as [-> | Hn]; [reflexivity|].
  destruct (starts_with_bullet_marker (c :: r)); [reflexivity|].
  rewrite Hn. reflexivity.
Qed.

(** X14. A list item is never rendered as a heading, whatever its font
    size: after normalizeListPrefix a line that starts with a bullet glyph,
    a parenthesised number, a dash or asterisk, or a number with a dot or
    parenthesis fails the heading test. *)
Theorem list_items_are_no_headings (text : jsstring) (fs bfs : num) :
  list_item text ->
  looksLikeHeading (normalizeListPrefix text) fs bfs = false.
Proof.
  intros [Hi | [Hi | [Hi | Hi]]]; apply marked_text_no_heading.
  - destruct Hi as [g [rest [-> [Hg Hr]]]]. left.
    unfold normalizeListPrefix, replace_bullet_glyph. rewrite Hg.
    cbn [app replace_parenthesized_number N.eqb Pos.eqb].
    change (45%N :: ch_space :: drop_while is_ws rest)
      with (45%N :: [ch_space] ++ drop_while is_ws rest).
    rewrite trim_keeps_prefix;
      [reflexivity | reflexivity | apply drop_while_keeps_nonws, Hr].
  - destruct Hi as [ds [w [rest [-> [Hne [Hd [Hw Hr]]]]]]]. right.
    unfold normalizeListPrefix. cbn [replace_bullet_glyph is_bullet_glyph
                                     N.eqb Pos.eqb orb].
    unfold replace_parenthesized_number. cbn [N.eqb Pos.eqb].
    destruct (take_while_app is_digit ds 41%N (w :: rest) Hd eq_refl)
      as [-> ->].
    destruct ds as [|d ds']; [contradiction|].
    cbn [N.eqb Pos.eqb andb]. rewrite Hw.
    assert (Hdw : is_ws d = false).
    { cbn [forallb] in Hd. apply andb_true_iff in Hd as [Hd _].
      unfold is_digit in Hd. apply andb_true_iff in Hd as [H1 H2].
      apply N.leb_le in H1, H2. unfold is_ws.
      repeat match goal with
             | |- context [(?a <=? d)%N] =>
                 destruct (N.leb_spec a d); try lia
             | |- context [(d <=? ?a)%N] =>
                 destruct (N.leb_spec d a); try lia
             | |- context [(d =? ?a)%N] =>
                 destruct (N.eqb_spec d a); try lia
             end; reflexivity. }
    rewrite (app_assoc (d :: ds') [46%N; ch_space]).
    change ((d :: ds') ++ [46%N; ch_space]) with (d :: ds' ++ [46%N; ch_space]).
    change ((d :: ds' ++ [46%N; ch_space]) ++ drop_while is_ws rest)
      with (d :: (ds' ++ [46%N; ch_space]) ++ drop_while is_ws rest).
    rewrite trim_keeps_prefix;
      [| exact Hdw | apply drop_while_keeps_nonws, Hr].
    apply starts_with_numbered_marker_spec.
    exists (d :: ds'), 46%N, ch_space, (strip_end is_ws (drop_while is_ws rest)).
    split; [cbn [app]; rewrite <- app_assoc; reflexivity|].
    split; [discriminate|]. split; [exact Hd|]. split; [left|]; reflexivity.
  - destruct Hi as [c [w [rest [-> [Hc [Hw Hr]]]]]]. left.
    assert (En : normalizeListPrefix (c :: w :: rest) = c :: w :: rest).
    { destruct Hc as [-> | ->]; reflexivity. }
    rewrite En. change (c :: w :: rest) with (c :: [w] ++ rest).
    rewrite trim_keeps_prefix;
      [| destruct Hc as [-> | ->]; reflexivity | exact Hr].
    cbn [app starts_with_bullet_marker]. rewrite Hw.
    destruct Hc as [-> | ->]; reflexivity.
  - destruct Hi as [ds [c [w [rest [-> [Hne [Hd [Hc [Hw Hr]]]]]]]]]. right.
    destruct ds as [|d ds']; [contradiction|].
    assert (Hdd : is_digit d = true).
    { cbn [forallb] in Hd. apply andb_true_iff in Hd as [Hd' _]. exact Hd'. }
    assert (Hd3 : is_ws d = false /\ is_bullet_glyph d = false
                  /\ (d =? 40)%N = false).
    { unfold is_digit in Hdd. apply andb_true_iff in Hdd as [H1 H2].
      apply N.leb_le in H1, H2. unfold is_ws, is_bullet_glyph.
      repeat match goal with
             | |- context [(?a <=? d)%N] =>
                 destruct (N.leb_spec a d); try lia
             | |- context [(d <=? ?a)%N] =>
                 destruct (N.leb_spec d a); try lia
             | |- context [(d =? ?a)%N] =>
                 destruct (N.eqb_spec d a); try lia
             end; repeat split; reflexivity. }
    destruct Hd3 as [Hdw [Hdg Hd40]].
    assert (En : normalizeListPrefix ((d :: ds') ++ c :: w :: rest)
                 = (d :: ds') ++ c :: w :: rest).
    { unfold normalizeListPrefix. cbn [app replace_bullet_glyph].
      rewrite Hdg. cbn [replace_parenthesized_number]. rewrite Hd40.
      reflexivity. }
    rewrite En.
    change ((d :: ds') ++ c :: w :: rest)
      with ((d :: ds') ++ [c; w] ++ rest).
    rewrite (app_assoc (d :: ds') [c; w]).
    change (((d :: ds') ++ [c; w]) ++ rest) with (d :: (ds' ++ [c; w]) ++ rest).
    rewrite trim_keeps_prefix; [| exact Hdw | exact Hr].
    apply starts_with_numbered_marker_spec.
    exists (d :: ds'), c, w, (strip_end is_ws rest).
    split; [cbn [app]; rewrite <- app_assoc; reflexivity|].
    split; [discriminate|]. split; [exact Hd|]. split; assumption.
Qed.

End ListItems.

Lemma list_items_are_no_headings_witness :
  list_item (8226%N :: str " item")
  /\ looksLikeHeading (normalizeListPrefix (8226%N :: str " item")) 100%Q 10%Q
     = false.
Proof.
  assert (Hi : list_item (8226%N :: str " item")).
  { left. exists 8226%N, (str " item"). repeat split. }
  split; [exact Hi|].
  apply (list_items_are_no_headings (8226%N :: str " item") 100%Q 10%Q Hi).
Defined.

Lemma digit_is_plain (d : N) :
  is_digit d = true ->
  is_bullet_glyph d = false /\ (d =? 40)%N = false.
Proof.
  unfold is_digit. intros Hd. apply andb_true_iff in Hd as [H1 H2].
  apply N.leb_le in H1, H2. split; [|apply N.eqb_neq; lia].
  unfold is_bullet_glyph.
  repeat match goal with
         | |- context [(d =? ?a)%N] => destruct (N.eqb_spec d a); try lia
         end; reflexivity.
Qed.

Lemma normalizeListPrefix_shape (text : jsstring) :
  normalizeListPrefix text = text
  \/ (exists d, normalizeListPrefix text = 45%N :: ch_space :: d)
  \/ (exists d rest, normalizeListPrefix text = d :: rest
                     /\ is_digit d = true).
Proof.
  unfold normalizeListPrefix, replace_bullet_glyph.
  destruct text as [|c rest]; [left; reflexivity|].
  destruct (is_bullet_glyph c).
  - right. left. exists (drop_while is_ws rest). reflexivity.
  - unfold replace_parenthesized_number.
    destruct (c =? 40)%N; [|left; reflexivity].
    pose proof (take_while_all is_digit rest) as Hd.
    destruct (take_while is_digit rest) as [|d ds]; [left; reflexivity|].
    destruct (drop_while is_digit rest) as [|c' [|w rest']];
      try (left; reflexivity).
    destruct ((c' =? 41)%N && is_ws w); [|left; reflexivity].
    right. right. cbn [app]. eexists _, _. split; [reflexivity|].
    cbn [forallb] in Hd. apply andb_true_iff in Hd as [Hd _]. exact Hd.
Qed.

(** X15. normalizeListPrefix is idempotent: a normalised line is left as
    it is by a second pass. *)
Theorem normalizeListPrefix_idempotent (text : jsstring) :
  normalizeListPrefix (normalizeListPrefix text) = normalizeListPrefix text.
Proof.
  destruct (normalizeListPrefix_shape text) as [E | [[d E] | [d [rest [E Hd]]]]];
    rewrite E; [exact E | reflexivity |].
  destruct (digit_is_plain d Hd) as [Hg H40].
  unfold normalizeListPrefix, replace_bullet_glyph. rewrite Hg.
  unfold replace_parenthesized_number. rewrite H40. reflexivity.
Qed.

Section LoneGlyph.

Context {num : Type} `{JsNumber num}.

(** X16. A line that holds a bullet glyph and nothing else (but
    whitespace) becomes the text "- ", and that text passes the heading
    test unless the font ratio is below 1.28: such a line is rendered as a
    heading whose text is a dash. *)
Theorem lone_bullet_glyph (g : N) (rest : jsstring) (fs bfs : num) :
  is_bullet_glyph g = true -> forallb is_ws rest = true ->
  normalizeListPrefix (g :: rest) = str "- "
  /\ looksLikeHeading (str "- ") fs bfs
     = negb (num_lt (num_div fs (num_max bfs (num_lit 1))) (num_lit 1.28))
  /\ plain_line_out
       {| line_text := g :: rest; hasTabs := false; line_fontSize := fs;
          breakAfter := false |} bfs
     = if num_lt (num_div fs (num_max bfs (num_lit 1))) (num_lit 1.28)
       then [str "- "]
       else [repeat ch_hash (headingLevel fs bfs) ++ str " - "].
Proof.
  intros Hg Hr.
  assert (En : normalizeListPrefix (g :: rest) = str "- ").
  { unfold normalizeListPrefix, replace_bullet_glyph. rewrite Hg.
    rewrite (drop_while_all _ _ Hr). reflexivity. }
  assert (Eh : looksLikeHeading (str "- ") fs bfs
               = negb (num_lt (num_div fs (num_max bfs (num_lit 1)))
                              (num_lit 1.28))).
  { unfold looksLikeHeading. change (trim (str "- ")) with [45%N]. cbn.
    destruct (num_lt _ _); reflexivity. }
  split; [exact En|]. split; [exact Eh|].
  unfold plain_line_out. cbn [line_text line_fontSize breakAfter].
  assert (Et : trim (g :: rest) = [g]).
  { unfold trim.
    assert (Hgw : is_ws g = false).
    { unfold is_bullet_glyph in Hg.
      repeat (apply orb_true_iff in Hg as [Hg | Hg]);
        apply N.eqb_eq in Hg; subst g; reflexivity. }
    rewrite (drop_while_fix _ _ _ Hgw).
    unfold strip_end. cbn [rev].
    assert (Ed : forall u, forallb is_ws u = true ->
                           drop_while is_ws (u ++ [g]) = [g]).
    { induction u as [|a u IH]; cbn [app drop_while forallb].
      - rewrite Hgw. reflexivity.
      - intros Hu. apply andb_true_iff in Hu as [-> Hu]. apply IH, Hu. }
    rewrite Ed by (rewrite forallb_rev; exact Hr). reflexivity. }
  rewrite Et.
  assert (En' : normalizeListPrefix [g] = str "- ").
  { unfold normalizeListPrefix, replace_bullet_glyph. rewrite Hg. reflexivity. }
  rewrite En', Eh. change (str "- ") with [45%N; ch_space] at 1. cbv iota.
  destruct (num_lt _ _); cbn [negb]; rewrite app_nil_r; reflexivity.
Qed.

End LoneGlyph.

Lemma lone_bullet_glyph_witness :
  is_bullet_glyph 8226%N = true
  /\ normalizeListPrefix (8226%N :: str "  ") = str "- "
  /\ looksLikeHeading (str "- ") 24%Q 12%Q = true.
Proof.
  split; [reflexivity|].
  destruct (lone_bullet_glyph 8226%N (str "  ") 24%Q 12%Q eq_refl eq_refl)
    as [En [Eh _]].
  split; [exact En | exact Eh].
Defined.

(** ** Tables are rectangular *)

Lemma count_bars_escaped (b : bool) (s : jsstring) :
  bars_escaped_from b s = true -> count_bars_from b s = 0.
Proof.
  revert b. induction s as [|c r IH]; intros b; [reflexivity|].
  cbn [bars_escaped_from count_bars_from]. intros Hs.
  apply andb_true_iff in Hs as [Hc Hr]. rewrite (IH _ Hr).
  destruct (c =? ch_bar)%N; [rewrite Hc|]; reflexivity.
Qed.

Lemma count_bars_app_space (b : bool) (s t : jsstring) :
  count_bars_from b (s ++ ch_space :: t)
  = count_bars_from b s + count_bars_from false t.
Proof.
  revert b. induction s as [|c r IH]; intros b; [reflexivity|].
  cbn [app count_bars_from]. rewrite IH. lia.
Qed.

Lemma count_bars_joined (cells : list jsstring) :
  cells <> [] -> Forall (fun cell => bars_escaped cell = true) cells ->
  count_bars_from false (join (str " | ") cells ++ str " |") = length cells.
Proof.
  intros Hne Hall. induction Hall as [|cell rest Hc Hrest IH]; [contradiction|].
  assert (E0 : count_bars_from false cell = 0) by apply count_bars_escaped, Hc.
  destruct rest as [|cell' rest'].
  - cbn [join]. change (str " |") with (ch_space :: [ch_bar]).
    rewrite count_bars_app_space, E0. reflexivity.
  - change (join (str " | ") (cell :: cell' :: rest'))
      with (cell ++ str " | " ++ join (str " | ") (cell' :: rest')).
    rewrite <- !app_assoc.
    change (str " | " ++ join (str " | ") (cell' :: rest') ++ str " |")
      with (ch_space :: ch_bar :: ch_space
              :: (join (str " | ") (cell' :: rest') ++ str " |")).
    rewrite count_bars_app_space, E0. cbn [count_bars_from].
    change ((ch_bar =? ch_bar)%N && negb false) with true.
    change ((ch_space =? ch_bar)%N && negb (ch_bar =? ch_backslash)%N) with false.
    change (ch_space =? ch_backslash)%N with false.
    rewrite IH by discriminate. cbn [length]. lia.
Qed.

Lemma count_bars_table_row (cells : list jsstring) :
  cells <> [] -> Forall (fun cell => bars_escaped cell = true) cells ->
  count_bars (table_row cells) = length cells + 1.
Proof.
  intros Hne Hall. unfold count_bars, table_row.
  change (str "| " ++ join (str " | ") cells ++ str " |")
    with (ch_bar :: ch_space :: (join (str " | ") cells ++ str " |")).
  cbn [count_bars_from].
  change ((ch_bar =? ch_bar)%N && negb false) with true.
  change ((ch_space =? ch_bar)%N && negb (ch_bar =? ch_backslash)%N) with false.
  change (ch_space =? ch_backslash)%N with false.
  rewrite (count_bars_joined cells Hne Hall). lia.
Qed.

Section TableShape.

Context {num : Type} `{JsNumber num}.

(** X17. An accepted table is rectangular: its output has one line more
    than the block (the separator), and every line, the separator
    included, has exactly maxCols + 1 column delimiters, that is bars
    which are not escaped. *)
Theorem table_is_rectangular (block : list (ExtractedLine num)) :
  spec_table_accepted block ->
  exists maxCols,
    is_max maxCols (cell_counts block)
    /\ length (tabbedBlockToMarkdownTable block) = length block + 1
    /\ Forall (fun out => count_bars out = maxCols + 1)
              (tabbedBlockToMarkdownTable block).
Proof.
  intros Hacc. exists (max_of (cell_counts block)).
  assert (Hmax : is_max (max_of (cell_counts block)) (cell_counts block)).
  { apply max_of_is_max. destruct Hacc as [Hl _].
    destruct block; [simpl in Hl; lia | discriminate]. }
  assert (H2 : 2 <= max_of (cell_counts block)).
  { destruct Hacc as [_ [mn [mx [_ [Hmx [H2 _]]]]]].
    rewrite (is_max_unique _ _ _ Hmax Hmx). exact H2. }
  split; [exact Hmax|].
  rewrite (table_rendering block Hacc).
  pose proof (table_cells_shape block _ Hmax) as Hshape.
  unfold spec_table.
  assert (Hlen : length (spec_table_cells block (max_of (cell_counts block)))
                 = length block).
  { unfold spec_table_cells. apply length_map. }
  set (maxCols := max_of (cell_counts block)) in *.
  destruct (spec_table_cells block maxCols) as [|first others] eqn:Ec.
  { destruct Hacc as [Hl _]. cbn in Hlen. lia. }
  assert (Hrow : forall row,
             length row = maxCols
             /\ Forall (fun cell => bars_escaped cell = true) row ->
             count_bars (table_row row) = maxCols + 1).
  { intros row [Hl Hall]. rewrite count_bars_table_row; [lia | | exact Hall].
    destruct row; [cbn in Hl; lia | discriminate]. }
  split.
  - cbn [length] in *. rewrite length_map. lia.
  - inversion Hshape as [|? ? Hfirst Hothers]; subst.
    constructor; [apply Hrow, Hfirst|]. constructor.
    + apply Hrow. split; [apply repeat_length|].
      rewrite List.Forall_forall. intros cell Hin.
      apply repeat_spec in Hin. rewrite Hin. reflexivity.
    + rewrite List.Forall_forall in *. intros out Hin.
      apply in_map_iff in Hin as [row [<- Hin]]. apply Hrow, Hothers, Hin.
Qed.

End TableShape.

Lemma table_is_rectangular_witness :
  spec_table_accepted (sample_table_block (num := Q))
  /\ exists maxCols,
       is_max maxCols (cell_counts (sample_table_block (num := Q)))
       /\ length (tabbedBlockToMarkdownTable (sample_table_block (num := Q)))
          = length (sample_table_block (num := Q)) + 1
       /\ Forall (fun out => count_bars out = maxCols + 1)
                 (tabbedBlockToMarkdownTable (sample_table_block (num := Q))).
Proof.
  assert (Ha : spec_table_accepted (sample_table_block (num := Q)))
    by (apply table_decision; reflexivity).
  split; [exact Ha|]. apply (table_is_rectangular sample_table_block Ha).
Defined.

(** ** The outcomes of pdfToMarkdown *)

Section Outcomes.

Context {num : Type} `{JsNumber num}.

Lemma read_pages_fail (pdf : PdfDocument num) (j k pageNo : nat)
  (log : list nat) :
  j < k -> page_items pdf (pageNo + j) = None ->
  (forall q, pageNo <= q < pageNo + j -> is_Some (page_items pdf q)) ->
  read_pages pdf k pageNo log
  = (inl (ExtractionFailure (pageNo + j)), log ++ seq pageNo (S j)).
Proof.
  revert k pageNo log. induction j as [|j IH]; intros k pageNo log Hk Hf Hp.
  - destruct k as [|k]; [lia|]. cbn [read_pages]. unfold io_bind at 1.
    unfold getTextContent. rewrite Nat.add_0_r in Hf. rewrite Hf, Nat.add_0_r.
    reflexivity.
  - destruct k as [|k]; [lia|]. cbn [read_pages]. unfold io_bind at 1.
    unfold getTextContent.
    destruct (Hp pageNo ltac:(lia)) as [items Ei]. rewrite Ei.
    unfold io_bind.
    rewrite (IH k (S pageNo) (log ++ [pageNo]));
      [| lia | replace (S pageNo + j) with (pageNo + S j) by lia; exact Hf
       | intros q Hq; apply Hp; lia].
    replace (S pageNo + j) with (pageNo + S j) by lia.
    rewrite <- app_assoc. reflexivity.
Qed.

(** X18. When the PDF library fails on page p (of a document of at most
    100 pages whose earlier pages it could read), pdfToMarkdown throws that
    failure: the pages 1 to p have been read, no later page is, and no
    Markdown is returned. *)
Theorem extraction_failure_stops (pdf : PdfDocument num) (log : list nat)
  (p : nat) :
  numPages pdf <= 100 -> 1 <= p <= numPages pdf ->
  page_items pdf p = None ->
  (forall q, 1 <= q < p -> is_Some (page_items pdf q)) ->
  pdfToMarkdown pdf log = (inl (ExtractionFailure p), log ++ seq 1 p).
Proof.
  intros Hn Hp Hf Hq. unfold pdfToMarkdown, MAX_PDF_PAGES.
  apply Nat.ltb_ge in Hn. rewrite Hn. unfold io_bind.
  destruct p as [|j]; [lia|].
  rewrite (read_pages_fail pdf j (numPages pdf) 1 log);
    [reflexivity | lia | exact Hf | intros q Hr; apply Hq; lia].
Qed.

Lemma read_pages_ok (pdf : PdfDocument num) (k pageNo : nat)
  (log : list nat) :
  (forall p, pageNo <= p < pageNo + k -> is_Some (page_items pdf p)) ->
  exists pages,
    read_pages pdf k pageNo log = (inr pages, log ++ seq pageNo k)
    /\ Forall2 (fun p lines =>
                  exists items,
                    page_items pdf p = Some items
                    /\ lines = extractLinesFromPdfTextContent items)
               (seq pageNo k) pages.
Proof.
  revert pageNo log. induction k as [|k IH]; intros pageNo log Hp; simpl.
  - exists []. rewrite app_nil_r. split; [reflexivity | constructor].
  - destruct (Hp pageNo ltac:(lia)) as [items Ei].
    destruct (IH (S pageNo) (log ++ [pageNo])) as [pages [Er Hf]];
      [intros p Hr; apply Hp; lia|].
    exists (extractLinesFromPdfTextContent items :: pages).
    unfold io_bind at 1. unfold getTextContent. rewrite Ei.
    unfold io_bind. rewrite Er. unfold io_ret. rewrite <- app_assoc.
    split; [reflexivity|]. constructor; [|exact Hf].
    exists items. split; [exact Ei | reflexivity].
Qed.

(** X19. For a document of at most 100 pages that the library can read,
    every page is read once, in order, and the result is decided by the
    text alone: the no-extractable-text error when every run of every page
    is blank, Markdown as soon as one run is not. *)
Theorem pdfToMarkdown_outcome (pdf : PdfDocument num) (log : list nat) :
  numPages pdf <= 100 ->
  (forall p, 1 <= p <= numPages pdf -> is_Some (page_items pdf p)) ->
  snd (pdfToMarkdown pdf log) = log ++ seq 1 (numPages pdf)
  /\ ((fst (pdfToMarkdown pdf log) = inl NoExtractableText
       /\ forall p items, 1 <= p <= numPages pdf ->
                          page_items pdf p = Some items ->
                          Forall blank_item items)
      \/ ((exists markdown, fst (pdfToMarkdown pdf log) = inr markdown)
          /\ exists p items, 1 <= p <= numPages pdf
                             /\ page_items pdf p = Some items
                             /\ ~ Forall blank_item items)).
Proof.
  intros Hn Hp. unfold pdfToMarkdown, MAX_PDF_PAGES.
  apply Nat.ltb_ge in Hn. rewrite Hn. unfold io_bind.
  destruct (read_pages_ok pdf (numPages pdf) 1 log) as [pages [-> Hf]];
    [intros p Hr; apply Hp; lia|].
  unfold pagesToMarkdown.
  destruct (concat pages) as [|l ls] eqn:Ec; cbn [length Nat.eqb].
  - split; [reflexivity|]. left. split; [reflexivity|].
    intros p items Hr Ei.
    assert (Hin : In p (seq 1 (numPages pdf))) by (apply in_seq; lia).
    clear Hp Hn. revert Ec Hin. induction Hf as [|q lines ps pages' Hq _ IH];
      intros Ec Hin; [contradiction|].
    cbn [concat] in Ec. apply app_eq_nil in Ec as [El Ec].
    destruct Hin as [-> | Hin]; [|apply IH; assumption].
    destruct Hq as [items' [Ei' ->]]. rewrite Ei in Ei'. injection Ei' as <-.
    apply blank_of_no_lines, El.
  - split; [reflexivity|]. right. split; [eexists; reflexivity|].
    assert (Hex : exists q lines, In q (seq 1 (numPages pdf))
                    /\ (exists items, page_items pdf q = Some items
                          /\ lines = extractLinesFromPdfTextContent items)
                    /\ lines <> []).
    { clear Hp Hn. revert Ec. induction Hf as [|q lines ps pages' Hq _ IH];
        intros Ec; [discriminate|].
      destruct lines as [|l' ls'] eqn:El.
      - cbn [concat app] in Ec. destruct (IH Ec) as [q' [lines' [Hin H']]].
        exists q', lines'. split; [right; exact Hin | exact H'].
      - exists q, (l' :: ls'). split; [left; reflexivity|].
        split; [exact Hq | discriminate]. }
    destruct Hex as [q [lines [Hin [[items [Ei ->]] Hne]]]].
    exists q, items. apply in_seq in Hin. split; [lia|]. split; [exact Ei|].
    intros Hb. apply Hne, extractLines_blank, Hb.
Qed.

End Outcomes.

Lemma extraction_failure_stops_witness :
  let pdf : PdfDocument Q :=
    {| numPages := 3;
       page_items := fun p => if p =? 2 then None else Some [] |} in
  numPages pdf <= 100
  /\ pdfToMarkdown pdf [] = (inl (ExtractionFailure 2), [1; 2]).
Proof.
  split; [cbn; lia|].
  apply (extraction_failure_stops
           {| numPages := 3;
              page_items := fun p => if p =? 2 then None else Some [] |} [] 2).
  - cbn. lia.
  - cbn. lia.
  - reflexivity.
  - intros q Hq. assert (q = 1) as -> by lia. cbn. eauto.
Defined.

Lemma pdfToMarkdown_outcome_witness :
  numPages (report_document 72 700 150 72 650 100)%Q <= 100
  /\ snd (pdfToMarkdown (report_document 72 700 150 72 650 100)%Q []) = [1].
Proof.
  split; [cbn; lia|].
  apply (pdfToMarkdown_outcome (report_document 72 700 150 72 650 100)%Q []).
  - cbn. lia.
  - intros p _. cbn. eauto.
Defined.

(** ** The Markdown of a successful conversion *)

Lemma has_ink_app (a b : jsstring) :
  has_ink (a ++ b) = has_ink a || has_ink b.
Proof. apply existsb_app. Qed.

Lemma has_ink_rev (s : jsstring) : has_ink (rev s) = has_ink s.
Proof.
  induction s as [|c r IH]; [reflexivity|].
  cbn [rev]. rewrite has_ink_app, IH. cbn. rewrite orb_false_r.
  apply orb_comm.
Qed.

Lemma has_ink_drop_while (s : jsstring) :
  has_ink (drop_while is_ws s) = has_ink s.
Proof.
  induction s as [|c r IH]; [reflexivity|].
  cbn [drop_while]. destruct (is_ws c) eqn:Ec; [|reflexivity].
  rewrite IH. cbn. rewrite Ec. reflexivity.
Qed.

Lemma has_ink_trim (s : jsstring) : has_ink (trim s) = has_ink s.
Proof.
  unfold trim, strip_end.
  rewrite has_ink_rev, has_ink_drop_while, has_ink_rev.
  apply has_ink_drop_while.
Qed.

Lemma has_ink_nonempty (s : jsstring) : has_ink s = true -> s <> [].
Proof. intros Hs ->. discriminate. Qed.

Lemma has_ink_clean (s : jsstring) : s <> [] -> trimmed s -> has_ink s = true.
Proof.
  destruct s as [|c r]; [congruence|]. intros _ Ht.
  cbn. rewrite (trimmed_head c r Ht). reflexivity.
Qed.

Lemma has_ink_replace_runs_from (min : nat) (p : N -> bool)
  (rep run s : jsstring) :
  (forall c, p c = true -> is_ws c = true) ->
  has_ink s = true -> has_ink (replace_runs_from min p rep run s) = true.
Proof.
  intros Hp. revert run. induction s as [|c r IH]; intros run Hs;
    [discriminate|].
  cbn [replace_runs_from]. cbn in Hs. destruct (p c) eqn:Ec.
  - rewrite (Hp c Ec) in Hs. apply IH, Hs.
  - rewrite has_ink_app. apply orb_true_iff. right. cbn.
    destruct (is_ws c); [|reflexivity]. apply IH, Hs.
Qed.

Lemma has_ink_replace_runs (min : nat) (p : N -> bool) (rep s : jsstring) :
  (forall c, p c = true -> is_ws c = true) ->
  has_ink s = true -> has_ink (replace_runs min p rep s) = true.
Proof.
  intros Hp Hs. destruct min; [exact Hs|].
  apply has_ink_replace_runs_from; assumption.
Qed.

Lemma has_ink_strip_blanks_from (run s : jsstring) :
  has_ink s = true -> has_ink (strip_blanks_before_nl_from run s) = true.
Proof.
  revert run. induction s as [|c r IH]; intros run Hs; [discriminate|].
  cbn [strip_blanks_before_nl_from]. cbn in Hs.
  destruct (is_space_or_tab c) eqn:Eb.
  - assert (Hw : is_ws c = true).
    { unfold is_space_or_tab in Eb. apply orb_true_iff in Eb as [E | E];
        apply N.eqb_eq in E; subst c; reflexivity. }
    rewrite Hw in Hs. apply IH, Hs.
  - destruct (c =? ch_nl)%N eqn:En.
    + apply N.eqb_eq in En. subst c. cbn in Hs |- *. apply IH, Hs.
    + rewrite has_ink_app. apply orb_true_iff. right. cbn.
      destruct (is_ws c); [|reflexivity]. apply IH, Hs.
Qed.

Lemma is_char_ws (a : N) : is_ws a = true -> forall c, is_char a c = true -> is_ws c = true.
Proof. intros Ha c Ec. apply N.eqb_eq in Ec. subst c. exact Ha. Qed.

Lemma has_ink_join (sep part : jsstring) (parts : list jsstring) :
  In part parts -> has_ink part = true -> has_ink (join sep parts) = true.
Proof.
  intros Hin Hp. induction parts as [|q rest IH]; [contradiction|].
  destruct rest as [|q' rest'].
  - destruct Hin as [-> | []]. exact Hp.
  - change (join sep (q :: q' :: rest')) with (q ++ sep ++ join sep (q' :: rest')).
    rewrite !has_ink_app. destruct Hin as [-> | Hin].
    + rewrite Hp. reflexivity.
    + rewrite (IH Hin). rewrite !orb_true_r. reflexivity.
Qed.

Lemma has_ink_normalizeListPrefix (s : jsstring) :
  has_ink s = true -> has_ink (normalizeListPrefix s) = true.
Proof.
  intros Hs. unfold normalizeListPrefix.
  assert (Hb : has_ink (replace_bullet_glyph s) = true).
  { unfold replace_bullet_glyph. destruct s as [|c r]; [exact Hs|].
    destruct (is_bullet_glyph c); [reflexivity | exact Hs]. }
  revert Hb. generalize (replace_bullet_glyph s). intros t Ht.
  unfold replace_parenthesized_number. destruct t as [|c r]; [exact Ht|].
  destruct (c =? 40)%N; [|exact Ht].
  destruct (take_while is_digit r) as [|d ds]; [exact Ht|].
  destruct (drop_while is_digit r) as [|c' [|w rest']]; try exact Ht.
  destruct ((c' =? 41)%N && is_ws w); [|exact Ht].
  rewrite !has_ink_app. cbn. rewrite orb_true_r. reflexivity.
Qed.

Section NonEmpty.

Context {num : Type} `{JsNumber num}.

Lemma table_has_ink (block : list (ExtractedLine num)) :
  block <> [] -> Forall inked block ->
  exists part, In part (tabbedBlockToMarkdownTable block)
               /\ has_ink part = true.
Proof.
  intros Hne Hall. unfold tabbedBlockToMarkdownTable.
  match goal with |- context [if ?b then _ else _] => destruct b end.
  - destruct block as [|line rest]; [congruence|].
    apply Forall_inv in Hall. unfold inked in Hall.
    eexists. split; [left; reflexivity|].
    apply has_ink_normalizeListPrefix. rewrite has_ink_trim.
    apply has_ink_replace_runs; [apply is_char_ws; reflexivity|].
    apply has_ink_replace_runs; [apply is_char_ws; reflexivity|].
    exact Hall.
  - eexists. split; [left; reflexivity|]. reflexivity.
Qed.

Lemma block_out_has_ink (block : list (ExtractedLine num)) :
  block <> [] -> Forall inked block ->
  exists part, In part (block_out block) /\ has_ink part = true.
Proof.
  intros Hne Hall. destruct (table_has_ink block Hne Hall) as [part [Hin Hp]].
  exists part. split; [|exact Hp].
  unfold block_out. destruct block; [congruence|].
  apply in_or_app. left. exact Hin.
Qed.

Lemma plain_line_out_has_ink (line : ExtractedLine num) (bodyFontSize : num) :
  inked line ->
  exists part, In part (plain_line_out line bodyFontSize)
               /\ has_ink part = true.
Proof.
  intros Hl. unfold plain_line_out.
  assert (Hn : has_ink (normalizeListPrefix (trim (line_text line))) = true).
  { apply has_ink_normalizeListPrefix. rewrite has_ink_trim. exact Hl. }
  destruct (normalizeListPrefix (trim (line_text line))) as [|c r] eqn:En;
    [discriminate|].
  destruct (looksLikeHeading (c :: r) (line_fontSize line) bodyFontSize).
  - eexists. split; [left; reflexivity|].
    rewrite !has_ink_app. rewrite Hn. rewrite !orb_true_r. reflexivity.
  - eexists. split; [left; reflexivity|]. exact Hn.
Qed.

Lemma markdown_out_has_ink (lines block : list (ExtractedLine num))
  (bodyFontSize : num) :
  lines ++ block <> [] -> Forall inked lines -> Forall inked block ->
  exists part, In part (markdown_out lines block bodyFontSize)
               /\ has_ink part = true.
Proof.
  revert block. induction lines as [|line rest IH]; intros block Hne Hl Hb.
  - cbn [markdown_out]. apply block_out_has_ink; [exact Hne | exact Hb].
  - cbn [markdown_out]. inversion Hl as [|? ? Hline Hrest]; subst.
    destruct (hasTabs line).
    + apply IH; [destruct rest; discriminate || (intros E; apply app_eq_nil in E as [_ E]; destruct block; discriminate) | exact Hrest |].
      apply Forall_app. split; [exact Hb | constructor; [exact Hline | constructor]].
    + destruct (plain_line_out_has_ink line bodyFontSize Hline)
        as [part [Hin Hp]].
      exists part. split; [|exact Hp].
      apply in_or_app. right. apply in_or_app. left. exact Hin.
Qed.

Lemma linesToMarkdown_has_ink (lines : list (ExtractedLine num))
  (bodyFontSize : num) :
  lines <> [] -> Forall inked lines ->
  has_ink (linesToMarkdown lines bodyFontSize) = true.
Proof.
  intros Hne Hl. unfold linesToMarkdown. rewrite has_ink_trim.
  apply has_ink_strip_blanks_from.
  apply has_ink_replace_runs; [apply is_char_ws; reflexivity|].
  destruct (markdown_out_has_ink lines [] bodyFontSize) as [part [Hin Hp]];
    [rewrite app_nil_r; exact Hne | exact Hl | constructor |].
  eapply has_ink_join; eassumption.
Qed.

Lemma extracted_lines_inked (items : list (RawItem num)) :
  Forall inked (extractLinesFromPdfTextContent items).
Proof.
  destruct (lines_of_clean_rows _ (rows_clean items)) as [_ Hc].
  eapply List.Forall_impl; [|exact Hc].
  intros line [Hne [Ht _]]. apply has_ink_clean; assumption.
Qed.

Lemma read_pages_extracted (pdf : PdfDocument num) (k pageNo : nat)
  (log log' : list nat) (pages : list (list (ExtractedLine num))) :
  read_pages pdf k pageNo log = (inr pages, log') ->
  Forall (Forall inked) pages.
Proof.
  revert pageNo log log' pages.
  induction k as [|k IH]; intros pageNo log log' pages; cbn [read_pages].
  - unfold io_ret. intros E. injection E as <- _. constructor.
  - unfold io_bind at 1. unfold getTextContent.
    destruct (page_items pdf pageNo) as [items|]; [|discriminate].
    unfold io_bind.
    destruct (read_pages pdf k (S pageNo) (log ++ [pageNo]))
      as [[e | rest] log''] eqn:Er; [discriminate|].
    unfold io_ret. intros E. injection E as <- _.
    constructor; [apply extracted_lines_inked | eapply IH, Er].
Qed.

Lemma pagesToMarkdown_has_ink (pages : list (list (ExtractedLine num)))
  (markdown : jsstring) :
  Forall (Forall inked) pages ->
  pagesToMarkdown pages = inr markdown -> has_ink markdown = true.
Proof.
  intros Hall. unfold pagesToMarkdown.
  destruct (concat pages) as [|l ls] eqn:Ec; cbn [length Nat.eqb];
    [discriminate|].
  intros E. injection E as <-. rewrite has_ink_trim.
  set (body := bodyFontSizeOf (l :: ls)).
  assert (Hex : exists lines, In lines pages /\ lines <> []).
  { clear Hall body. revert Ec. induction pages as [|pg rest IH]; [discriminate|].
    cbn [concat]. destruct pg as [|l' ls'].
    - intros Ec. destruct (IH Ec) as [lines [Hin Hne]].
      exists lines. split; [right; exact Hin | exact Hne].
    - intros _. exists (l' :: ls'). split; [left; reflexivity | discriminate]. }
  destruct Hex as [lines [Hin Hne]].
  assert (Hink : has_ink (linesToMarkdown lines body) = true).
  { apply linesToMarkdown_has_ink; [exact Hne|].
    rewrite List.Forall_forall in Hall. apply Hall, Hin. }
  eapply has_ink_join; [|exact Hink].
  apply filter_In.
  split; [apply (in_map (fun pageLines => linesToMarkdown pageLines body));
          exact Hin|].
  destruct (linesToMarkdown lines body); [discriminate | reflexivity].
Qed.

(** X20. The Markdown of a successful conversion is never blank: it holds
    a character that is not whitespace, and it neither starts nor ends
    with whitespace. *)
Theorem markdown_never_blank (pdf : PdfDocument num) (log : list nat)
  (markdown : jsstring) :
  fst (pdfToMarkdown pdf log) = inr markdown ->
  has_ink markdown = true /\ trimmed markdown.
Proof.
  unfold pdfToMarkdown. destruct (MAX_PDF_PAGES <? numPages pdf);
    [discriminate|].
  unfold io_bind.
  destruct (read_pages pdf (numPages pdf) 1 log) as [[e | pages] log'] eqn:Er;
    [discriminate|].
  destruct (pagesToMarkdown pages) as [e | md] eqn:Ep; [discriminate|].
  cbn [io_ret fst]. intros E. injection E as <-. split.
  - eapply pagesToMarkdown_has_ink; [eapply read_pages_extracted, Er | exact Ep].
  - revert Ep. unfold pagesToMarkdown.
    destruct (length (concat pages) =? 0); [discriminate|].
    intros E. injection E as <-. apply trim_trimmed.
Qed.

End NonEmpty.

Lemma markdown_never_blank_witness :
  has_ink (str "### Report Title" ++ [ch_nl; ch_nl]
           ++ str "This is body text.") = true
  /\ trimmed (str "### Report Title" ++ [ch_nl; ch_nl]
              ++ str "This is body text.").
Proof.
  apply (markdown_never_blank (report_document 72 700 150 72 650 100)%Q []).
  reflexivity.
Defined.

(** ** Importing a file *)

Lemma jsstring_eqb_eq (a b : jsstring) : jsstring_eqb a b = true <-> a = b.
Proof.
  revert b. induction a as [|x a IH]; intros [|y b]; cbn [jsstring_eqb];
    try (split; [discriminate | congruence]); [tauto|].
  rewrite andb_true_iff, N.eqb_eq, IH. split.
  - intros [-> ->]. reflexivity.
  - intros E. injection E as -> ->. split; reflexivity.
Qed.

Lemma ascii_lower_inv (c v : N) :
  ascii_lower c = v -> c = v \/ (v = (c + 32)%N /\ (65 <= c <= 90)%N).
Proof.
  unfold ascii_lower.
  destruct ((65 <=? c) && (c <=? 90))%N eqn:E; [|left; assumption].
  apply andb_true_iff in E as [E1 E2].
  apply N.leb_le in E1. apply N.leb_le in E2.
  intros <-. right. split; [reflexivity | split; assumption].
Qed.

Lemma ends_with_pdf_spec (name : jsstring) :
  ends_with_pdf name = true
  <-> exists stem ext,
        name = stem ++ ext /\ map ascii_lower ext = str ".pdf".
Proof.
  unfold ends_with_pdf. split.
  - destruct (rev name) as [|f [|d [|p [|dot r]]]] eqn:Er; try discriminate.
    intros Hc. exists (rev r), [dot; p; d; f]. split.
    + rewrite <- (rev_involutive name), Er. cbn [rev].
      rewrite <- !app_assoc. reflexivity.
    + repeat (apply andb_true_iff in Hc as [Hc ?]).
      apply N.eqb_eq in Hc. subst dot.
      repeat match goal with
             | Ho : (_ || _)%bool = true |- _ =>
                 apply orb_true_iff in Ho as [Ho | Ho];
                 apply N.eqb_eq in Ho; subst
             end; reflexivity.
  - intros [stem [ext [-> He]]].
    destruct ext as [|a [|b [|c [|d [|x ext]]]]]; try discriminate.
    cbn [map] in He. injection He as Ha Hb Hc Hd.
    rewrite rev_app_distr. cbn [rev app].
    apply ascii_lower_inv in Ha, Hb, Hc, Hd.
    assert (a = 46%N) as -> by lia.
    assert (Eb : b = 112%N \/ b = 80%N) by lia.
    assert (Ec : c = 100%N \/ c = 68%N) by lia.
    assert (Ed : d = 102%N \/ d = 70%N) by lia.
    destruct Eb as [-> | ->], Ec as [-> | ->], Ed as [-> | ->]; reflexivity.
Qed.

Lemma Z_max_0_nonneg (d : Z) : (0 <= Z.max 0 d)%Z.
Proof. lia. Qed.

Section ImportProps.

Context {num : Type} `{JsNumber num}.

(** X21. A file counts as a PDF exactly when its type is application/pdf
    or its name ends in .pdf, in any mix of upper and lower case; nothing
    else of the file is looked at, its content included. *)
Theorem isPdfFile_by_type_or_extension (file : File num) :
  isPdfFile file = true
  <-> file_type file = str "application/pdf"
      \/ exists stem ext,
           file_name file = stem ++ ext /\ map ascii_lower ext = str ".pdf".
Proof.
  unfold isPdfFile. rewrite orb_true_iff, jsstring_eqb_eq, ends_with_pdf_spec.
  reflexivity.
Qed.

Lemma find_first (files : list (File num)) (file : File num) :
  List.find isPdfFile files = Some file
  <-> exists before after,
        files = before ++ file :: after /\ isPdfFile file = true
        /\ Forall (fun f => isPdfFile f = false) before.
Proof.
  induction files as [|f rest IH]; cbn [List.find].
  - split; [discriminate|]. intros [[|? ?] [after [E _]]]; discriminate.
  - destruct (isPdfFile f) eqn:Ef.
    + split.
      * intros E. injection E as <-. exists [], rest.
        split; [reflexivity | split; [exact Ef | constructor]].
      * intros [before [after [E [Hf Hb]]]]. destruct before as [|b before].
        -- injection E as -> _. reflexivity.
        -- injection E as -> _. apply Forall_inv in Hb. congruence.
    + rewrite IH. split.
      * intros [before [after [-> [Hf Hb]]]]. exists (f :: before), after.
        split; [reflexivity | split; [exact Hf | constructor; assumption]].
      * intros [before [after [E [Hf Hb]]]]. destruct before as [|b before].
        -- injection E as -> _. congruence.
        -- injection E as -> ->. exists before, after.
           split; [reflexivity | split; [exact Hf |]].
           inversion Hb; assumption.
Qed.

Lemma find_none (files : list (File num)) :
  List.find isPdfFile files = None
  <-> Forall (fun f => isPdfFile f = false) files.
Proof.
  induction files as [|f rest IH]; cbn [List.find].
  - split; [constructor | reflexivity].
  - destruct (isPdfFile f) eqn:Ef.
    + split; [discriminate|]. intros Hall. apply Forall_inv in Hall.
      congruence.
    + rewrite IH. split.
      * intros Hr. constructor; assumption.
      * intros Hall. inversion Hall; assumption.
Qed.

(** X22. pickPdfFile returns the first PDF of the list, in the list's
    order, whatever comes after it; it returns null exactly when there is
    no list or no file of the list is a PDF. *)
Theorem pickPdfFile_first (fileList : option (list (File num))) :
  (forall file,
     pickPdfFile fileList = Some file
     <-> exists before after,
           fileList = Some (before ++ file :: after)
           /\ isPdfFile file = true
           /\ Forall (fun f => isPdfFile f = false) before)
  /\ (pickPdfFile fileList = None
      <-> forall fs, fileList = Some fs ->
                     Forall (fun f => isPdfFile f = false) fs).
Proof.
  destruct fileList as [fs|]; cbn [pickPdfFile]; split.
  - intros file. rewrite find_first. split.
    + intros [before [after [-> Hr]]]. exists before, after.
      split; [reflexivity | exact Hr].
    + intros [before [after [E Hr]]]. injection E as ->.
      exists before, after. split; [reflexivity | exact Hr].
  - rewrite find_none. split.
    + intros Hall fs' E. injection E as <-. exact Hall.
    + intros Hall. apply Hall. reflexivity.
  - intros file. split; [discriminate|].
    intros [before [after [E _]]]. discriminate.
  - split; [intros _ fs E; discriminate | reflexivity].
Qed.

(** X23. A file that is no PDF, or a PDF of more than 10 485 760 bytes, is
    turned away before anything is parsed: no page is read, the text of
    the editor, the importing flag and the drag depth stay as they were,
    the status is cleared, and the error names the reason, the wrong type
    first. *)
Theorem import_guards (file : File num) (ui : UiState) (log : list nat) :
  isPdfFile file = false \/ (10485760 < file_size file)%N ->
  importPdf file ui log
  = ({| mdInput := mdInput ui;
        importStatus := StatusNone;
        importError :=
          if isPdfFile file then MsgTooLarge (file_size file)
          else MsgOnlyPdf;
        isImportingPdf := isImportingPdf ui;
        dragDepth := dragDepth ui |}, log).
Proof.
  intros Hg. unfold importPdf. destruct (isPdfFile file); cbn [negb].
  - destruct Hg as [Hg | Hg]; [discriminate|].
    change MAX_PDF_BYTES with 10485760%N.
    apply N.ltb_lt in Hg. rewrite Hg. reflexivity.
  - reflexivity.
Qed.

Lemma convert_has_ink (file : File num) (log log' : list nat)
  (markdown : jsstring) :
  convert file log = (inr markdown, log') -> has_ink markdown = true.
Proof.
  unfold convert. destruct (file_document file) as [pdf|]; [|discriminate].
  destruct (pdfToMarkdown pdf log) as [[e | md] l] eqn:Ep; [discriminate|].
  intros E. injection E as <- _.
  unfold pdfToMarkdown in Ep. destruct (MAX_PDF_PAGES <? numPages pdf);
    [discriminate|].
  unfold io_bind in Ep.
  destruct (read_pages pdf (numPages pdf) 1 log) as [[e | pages] l'] eqn:Er;
    [discriminate|].
  destruct (pagesToMarkdown pages) as [e | md'] eqn:Epm; [discriminate|].
  injection Ep as <- _.
  eapply pagesToMarkdown_has_ink; [eapply read_pages_extracted, Er | exact Epm].
Qed.

Lemma convert_failure (file : File num) (log log' : list nat)
  (message : Message) :
  convert file log = (inl message, log') ->
  message = MsgLoadFailed \/ exists e, message = MsgThrown e.
Proof.
  unfold convert. destruct (file_document file) as [pdf|].
  - destruct (pdfToMarkdown pdf log) as [[e | md] l]; [|discriminate].
    intros E. injection E as <- _. right. exists e. reflexivity.
  - intros E. injection E as <- _. left. reflexivity.
Qed.

Lemma importPdf_alone (file : File num) (ui : UiState) (log : list nat) :
  importPdf file ui log = importPdf_among file (fun ui => ui) ui log.
Proof.
  unfold importPdf, importPdf_among, importPdf_begin, importPdf_settle.
  destruct (negb (isPdfFile file)); [reflexivity|].
  destruct (MAX_PDF_BYTES <? file_size file)%N; [reflexivity|].
  destruct (convert file log) as [[message | markdown] log']; reflexivity.
Qed.

(** X24. An import among other handlers.  importPdf awaits pdfToMarkdown,
    and whatever other handlers do to the refs in the meantime, when the
    promise settles the importing flag goes off, the drag depth is left as
    it is by then, and: on success the text of the editor becomes the
    Markdown of the file, which is not blank, and the status names the
    file, while the error is left as it is by then (empty when nothing
    wrote it in between, a drop's error when a drop without a PDF came
    in between); on failure the text is left as it is by then, the
    status is cleared and the error is the message of what was thrown.
    A file that is turned away awaits nothing.  With no handler in
    between, this is importPdf run to its end. *)
Theorem import_among_handlers (file : File num)
  (meanwhile : UiState -> UiState) (ui : UiState) (log : list nat) :
  let started := fst (importPdf_begin file ui) in
  let now := meanwhile started in
  let ui' := fst (importPdf_among file meanwhile ui log) in
  importPdf file ui log = importPdf_among file (fun ui => ui) ui log
  /\ (snd (importPdf_begin file ui) = false ->
      importPdf_among file meanwhile ui log = (started, log))
  /\ (snd (importPdf_begin file ui) = true ->
      (isPdfFile file = true /\ (file_size file <= 10485760)%N)
      /\ (isImportingPdf started = true /\ importError started = MsgNone
          /\ mdInput started = mdInput ui)
      /\ isImportingPdf ui' = false
      /\ dragDepth ui' = dragDepth now
      /\ ((exists markdown,
              fst (convert file log) = inr markdown
              /\ has_ink markdown = true
              /\ mdInput ui' = markdown
              /\ importStatus ui' = StatusImported (file_name file)
              /\ importError ui' = importError now)
          \/ (exists message,
                 fst (convert file log) = inl message
                 /\ (message = MsgLoadFailed \/ exists e, message = MsgThrown e)
                 /\ mdInput ui' = mdInput now
                 /\ importStatus ui' = StatusNone
                 /\ importError ui' = message))).
Proof.
  cbv zeta. split; [apply importPdf_alone|].
  unfold importPdf_among, importPdf_begin. change MAX_PDF_BYTES with 10485760%N.
  destruct (isPdfFile file); cbn [negb fst snd];
    [|split; [reflexivity | discriminate]].
  destruct (10485760 <? file_size file)%N eqn:Es; cbn [fst snd];
    [split; [reflexivity | discriminate]|].
  apply N.ltb_ge in Es. split; [discriminate|]. intros _.
  split; [split; [reflexivity | exact Es]|].
  split; [repeat split|].
  destruct (convert file log) as [[message | markdown] log'] eqn:Ec;
    cbn [fst snd]; (split; [reflexivity|]); (split; [reflexivity|]).
  - right. exists message. split; [reflexivity|].
    split; [eapply convert_failure, Ec | repeat split].
  - left. exists markdown. split; [reflexivity|].
    split; [eapply convert_has_ink, Ec | repeat split].
Qed.

Lemma importPdf_dragDepth (file : File num) (ui : UiState) (log : list nat) :
  dragDepth (fst (importPdf file ui log)) = dragDepth ui.
Proof.
  unfold importPdf. destruct (isPdfFile file); cbn [negb]; [|reflexivity].
  destruct (MAX_PDF_BYTES <? file_size file)%N; [reflexivity|].
  destruct (convert file log) as [[message | markdown] log']; reflexivity.
Qed.

Lemma onDropPdf_dragDepth (e : DragEvent num) (ui : UiState)
  (log : list nat) :
  dragDepth (fst (onDropPdf e ui log)) = 0%Z.
Proof.
  unfold onDropPdf.
  destruct (pickPdfFile (option_map files (dataTransfer e))) as [file|];
    [|reflexivity].
  rewrite importPdf_dragDepth. reflexivity.
Qed.

Lemma handle_dragDepth (ev : UiEvent num) (s : UiState * list nat) :
  (0 <= dragDepth (fst s))%Z ->
  (0 <= dragDepth (fst (handle ev s))
   <= dragDepth (fst s) + (if enters_with_files ev then 1 else 0))%Z.
Proof.
  intros Hs. destruct ev as [e | e | | e]; cbn [handle enters_with_files fst].
  - unfold onDragEnterPdf. destruct (dataTransfer e) as [dt|]; [|lia].
    destruct (existsb (jsstring_eqb (str "Files")) (types dt));
      cbn [negb set_dragDepth dragDepth]; lia.
  - unfold onDragOverPdf. lia.
  - cbn [onDragLeavePdf set_dragDepth dragDepth]. lia.
  - rewrite onDropPdf_dragDepth. lia.
Qed.

Lemma handle_all_app (evs evs' : list (UiEvent num))
  (s : UiState * list nat) :
  handle_all (evs ++ evs') s = handle_all evs' (handle_all evs s).
Proof. apply fold_left_app. Qed.

(** X25. Whatever drag events arrive in whatever order, the drag depth
    never goes below zero, however many leaves outnumber the enters, and
    never exceeds what it was by more than the number of drags that
    entered with files; right after a drop it is zero, so that the drop
    overlay is no longer asked for by a drag. *)
Theorem drag_depth_bounds (evs : list (UiEvent num))
  (s : UiState * list nat) :
  (0 <= dragDepth (fst s))%Z ->
  (0 <= dragDepth (fst (handle_all evs s))
   <= dragDepth (fst s)
      + Z.of_nat (length (List.filter enters_with_files evs)))%Z
  /\ forall e, isDraggingPdf (fst (handle_all (evs ++ [Drop e]) s)) = false.
Proof.
  intros Hs. split.
  - revert s Hs. induction evs as [|ev evs IH]; intros s Hs.
    + cbn. lia.
    + change (handle_all (ev :: evs) s) with (handle_all evs (handle ev s)).
      pose proof (handle_dragDepth ev s Hs) as Hh.
      destruct Hh as [Hlo Hhi]. specialize (IH (handle ev s) Hlo).
      cbn [List.filter].
      destruct (enters_with_files ev); cbn [length]; lia.
  - intros e. rewrite handle_all_app.
    change (handle_all [Drop e] ?t) with (onDropPdf e (fst t) (snd t)).
    unfold isDraggingPdf. rewrite onDropPdf_dragDepth. reflexivity.
Qed.

(** X26. A drop without a PDF among its files, or without files at all,
    reads nothing and leaves the text of the editor and the status as
    they were, an earlier "imported" status included: it sets the error
    and resets the drag depth.  A drop with a PDF imports the first one
    and ignores every other file. *)
Theorem drop_imports_first_pdf (e : DragEvent num) (ui : UiState)
  (log : list nat) :
  ((forall dt, dataTransfer e = Some dt ->
               Forall (fun f => isPdfFile f = false) (files dt)) ->
   onDropPdf e ui log
   = (set_importError MsgDropPdf (set_dragDepth 0 ui), log))
  /\ (forall dt before file after,
        dataTransfer e = Some dt ->
        files dt = before ++ file :: after ->
        Forall (fun f => isPdfFile f = false) before ->
        isPdfFile file = true ->
        onDropPdf e ui log = importPdf file (set_dragDepth 0 ui) log).
Proof.
  unfold onDropPdf. split.
  - intros Hall. destruct (dataTransfer e) as [dt|]; cbn [option_map pickPdfFile];
      [|reflexivity].
    rewrite (proj2 (find_none (files dt)) (Hall dt eq_refl)). reflexivity.
  - intros dt before file after -> Ef Hb Hf. cbn [option_map pickPdfFile].
    rewrite (proj2 (find_first (files dt) file)); [reflexivity|].
    exists before, after. auto.
Qed.

End ImportProps.

Lemma import_guards_witness :
  let file : File Q :=
    {| file_name := str "notes.txt"; file_type := str "text/plain";
       file_size := 12; file_document := None |} in
  isPdfFile file = false
  /\ importPdf file (initial_ui (str "# Draft")) []
     = (set_importError MsgOnlyPdf (initial_ui (str "# Draft")), []).
Proof.
  split; [reflexivity|].
  apply (import_guards
           {| file_name := str "notes.txt"; file_type := str "text/plain";
              file_size := 12; file_document := None |}
           (initial_ui (str "# Draft")) []).
  left. reflexivity.
Defined.

Lemma drag_depth_bounds_witness :
  let start : UiState * list nat := (initial_ui [], []) in
  let e : DragEvent Q :=
    {| dataTransfer := Some {| types := [str "Files"]; files := [] |} |} in
  (0 <= dragDepth (fst start))%Z
  /\ (0 <= dragDepth (fst (handle_all [DragLeave; DragEnter e; DragEnter e;
                                        DragLeave] start)) <= 0 + 2)%Z.
Proof.
  split; [cbn; lia|].
  apply (drag_depth_bounds
           [DragLeave;
            DragEnter {| dataTransfer :=
                           Some {| types := [str "Files"]; files := [] |} |};
            DragEnter {| dataTransfer :=
                           Some {| types := [str "Files"]; files := [] |} |};
            DragLeave]
           (initial_ui [], [])).
  cbn. lia.
Defined.

(** A drop without a PDF while a.pdf is being imported: when the import
    succeeds the status says so beside the error of the drop; with nothing
    in between the error is empty. *)
Example import_interrupted_by_drop :
  let file : File Q :=
    {| file_name := str "a.pdf"; file_type := str "application/pdf";
       file_size := 2048;
       file_document := Some (report_document 72 700 150 72 650 100)%Q |} in
  let notes : File Q :=
    {| file_name := str "notes.txt"; file_type := str "text/plain";
       file_size := 12; file_document := None |} in
  let drop := fun ui => fst (onDropPdf (drop_of [notes]) ui []) in
  let start := initial_ui (str "# Draft") in
  (let ui' := fst (importPdf_among file drop start []) in
   importStatus ui' = StatusImported (str "a.pdf")
   /\ importError ui' = MsgDropPdf
   /\ isImportingPdf ui' = false
   /\ mdInput ui' = str "### Report Title" ++ [ch_nl; ch_nl]
                    ++ str "This is body text.")
  /\ (let ui' := fst (importPdf file start []) in
      importStatus ui' = StatusImported (str "a.pdf")
      /\ importError ui' = MsgNone)
  /\ isImportingPdf (drop (fst (importPdf_begin file start))) = true.
Proof. repeat split; vm_compute; reflexivity. Qed.

(** ** The table rule of the paste conversion *)

Lemma rows_forEach_later (rows : list (list jsstring)) (rowIndex : nat)
  (markdown : jsstring) :
  rows_forEach rows (S rowIndex) markdown
  = markdown ++ concat (map rule_line (List.filter has_cells rows)).
Proof.
  revert rowIndex markdown.
  induction rows as [|cells rest IH]; intros rowIndex markdown.
  - cbn. rewrite app_nil_r. reflexivity.
  - cbn [rows_forEach List.filter]. destruct cells as [|c cs].
    + cbn [has_cells length Nat.eqb negb]. apply IH.
    + cbn [has_cells length Nat.eqb negb Nat.eqb map concat].
      rewrite IH. unfold rule_line. rewrite <- !app_assoc. reflexivity.
Qed.

Lemma map_const_repeat {A B : Type} (b : B) (l : list A) :
  map (fun _ => b) l = repeat b (length l).
Proof. induction l as [|a l IH]; cbn; [reflexivity | rewrite IH; reflexivity]. Qed.

(** X27. The table rule writes one line for every row that has cells, in
    order, between two line ends, and skips the rows without cells.  The
    separator line comes right after the first row and has one cell for
    each of its cells; it is written only when the first row of the table
    has cells, so a table whose first row has none gets no separator at
    all.  A table without rows is left to the given content. *)
Theorem tables_rule_shape (content : jsstring) (first : list jsstring)
  (rest : list (list jsstring)) :
  tables_replacement content [] = content
  /\ tables_replacement content (first :: rest)
     = [ch_nl]
       ++ (if has_cells first then
             rule_line first
             ++ table_row (repeat (str "---") (length first)) ++ [ch_nl]
           else [])
       ++ concat (map rule_line (List.filter has_cells rest))
       ++ [ch_nl].
Proof.
  split; [reflexivity|].
  unfold tables_replacement. cbn [rows_forEach]. destruct first as [|c cs].
  - cbn [has_cells length Nat.eqb negb]. rewrite rows_forEach_later.
    rewrite <- !app_assoc. reflexivity.
  - cbn [has_cells length Nat.eqb negb]. rewrite rows_forEach_later.
    rewrite map_const_repeat, length_map. unfold rule_line.
    rewrite <- !app_assoc. reflexivity.
Qed.

Lemma count_char_app (c : N) (a b : jsstring) :
  count_char c (a ++ b) = count_char c a + count_char c b.
Proof. unfold count_char. rewrite List.filter_app, length_app. reflexivity. Qed.

Lemma count_char_none (c : N) (s : jsstring) :
  Forall (fun x => x <> c) s -> count_char c s = 0.
Proof.
  unfold count_char. induction 1 as [|x s Hx _ IH]; [reflexivity|].
  cbn [List.filter]. unfold is_char at 1.
  destruct (N.eqb_spec x c); [contradiction | exact IH].
Qed.

Lemma cell_text_plain (textContent : jsstring) :
  cell_text textContent <> []
  /\ single_spaced (cell_text textContent) = true
  /\ plain_spaces (cell_text textContent) = true.
Proof.
  unfold cell_text, replace_runs.
  destruct (whitespace_collapsed [] (trim textContent)) as [Hs Hp].
  destruct (replace_runs_from 1 is_ws [ch_space] [] (trim textContent))
    as [|c r].
  - split; [discriminate | split; reflexivity].
  - split; [discriminate | split; [exact Hs | exact Hp]].
Qed.

Lemma plain_no_nl (s : jsstring) :
  plain_spaces s = true -> count_char ch_nl s = 0.
Proof.
  intros Hs. apply count_char_none. unfold plain_spaces in Hs.
  rewrite forallb_forall in Hs. rewrite List.Forall_forall.
  intros c Hin E. subst c. specialize (Hs _ Hin). discriminate.
Qed.

Lemma join_no_nl (sep : jsstring) (parts : list jsstring) :
  count_char ch_nl sep = 0 ->
  Forall (fun p => count_char ch_nl p = 0) parts ->
  count_char ch_nl (join sep parts) = 0.
Proof.
  intros Hsep. induction 1 as [|p rest Hp Hrest IH]; [reflexivity|].
  destruct rest as [|q rest']; [exact Hp|].
  change (join sep (p :: q :: rest')) with (p ++ sep ++ join sep (q :: rest')).
  rewrite !count_char_app, Hp, Hsep, IH. reflexivity.
Qed.

Lemma table_row_no_nl (cells : list jsstring) :
  Forall (fun p => count_char ch_nl p = 0) cells ->
  count_char ch_nl (table_row cells) = 0.
Proof.
  intros Hc. unfold table_row. rewrite !count_char_app.
  rewrite (join_no_nl (str " | ") cells eq_refl Hc). reflexivity.
Qed.

Lemma rule_line_one_nl (cells : list jsstring) :
  count_char ch_nl (rule_line cells) = 1.
Proof.
  unfold rule_line. rewrite count_char_app, table_row_no_nl; [reflexivity|].
  apply Forall_map. rewrite List.Forall_forall. intros t _.
  apply plain_no_nl, cell_text_plain.
Qed.

Lemma rule_lines_nl (rows : list (list jsstring)) :
  count_char ch_nl (concat (map rule_line rows)) = length rows.
Proof.
  induction rows as [|cells rest IH]; [reflexivity|].
  cbn [map concat length]. rewrite count_char_app, rule_line_one_nl, IH.
  reflexivity.
Qed.

(** X28. Whatever the cells hold, line breaks and tabs included, a cell
    never breaks its row: the text written for a cell is not empty and
    has no whitespace but single spaces, and the output of the rule for a
    table with rows has one line end for each row with cells, one for the
    separator if the first row has cells, and the two around the table. *)
Theorem tables_rule_lines (content : jsstring) (first : list jsstring)
  (rest : list (list jsstring)) :
  (forall textContent,
     cell_text textContent <> []
     /\ single_spaced (cell_text textContent) = true
     /\ plain_spaces (cell_text textContent) = true)
  /\ count_char ch_nl (tables_replacement content (first :: rest))
     = 2 + length (List.filter has_cells (first :: rest))
       + (if has_cells first then 1 else 0).
Proof.
  split.
  - apply cell_text_plain.
  - unfold tables_replacement. cbn [rows_forEach List.filter].
    destruct first as [|c cs]; cbn [has_cells length Nat.eqb negb].
    + rewrite rows_forEach_later, !count_char_app, rule_lines_nl.
      cbn. lia.
    + rewrite rows_forEach_later, !count_char_app, rule_lines_nl.
      rewrite !table_row_no_nl.
      * cbn. lia.
      * apply Forall_map. rewrite List.Forall_forall. intros t _.
        first [reflexivity | apply plain_no_nl, cell_text_plain].
      * apply Forall_map. rewrite List.Forall_forall. intros t _.
        first [reflexivity | apply plain_no_nl, cell_text_plain].
Qed.

(** ** No two blank lines in a row *)

Lemma inline_app (a b : jsstring) : inline (a ++ b) = inline a && inline b.
Proof. apply forallb_app. Qed.

Lemma no_triple_inline (k : nat) (u : jsstring) :
  inline u = true -> no_triple_nl_from k u = true.
Proof.
  revert k. induction u as [|c r IH]; intros k Hu; [reflexivity|].
  cbn in Hu. apply andb_true_iff in Hu as [Hc Hr].
  cbn [no_triple_nl_from]. apply negb_true_iff in Hc. rewrite Hc. auto.
Qed.

Lemma no_triple_after_inline (k : nat) (u : jsstring) (c : N) (t : jsstring) :
  inline u = true -> (c =? ch_nl)%N = false ->
  no_triple_nl_from k (u ++ c :: t) = no_triple_nl_from 0 t.
Proof.
  intros Hu Hc. revert k. induction u as [|d r IH]; intros k.
  - cbn [app no_triple_nl_from]. rewrite Hc. reflexivity.
  - cbn in Hu. apply andb_true_iff in Hu as [Hd Hr].
    cbn [app no_triple_nl_from]. apply negb_true_iff in Hd. rewrite Hd. auto.
Qed.

Lemma no_triple_mono (k k' : nat) (s : jsstring) :
  k' <= k -> no_triple_nl_from k s = true -> no_triple_nl_from k' s = true.
Proof.
  revert k k'. induction s as [|c r IH]; intros k k' Hk; [reflexivity|].
  cbn [no_triple_nl_from]. destruct (c =? ch_nl)%N; [|auto].
  intros Hs. apply andb_true_iff in Hs as [Hlt Hr].
  apply Nat.ltb_lt in Hlt. apply andb_true_iff. split.
  - apply Nat.ltb_lt. lia.
  - apply (IH (S k) (S k')); [lia | exact Hr].
Qed.

Lemma no_triple_suffix (k : nat) (u t : jsstring) :
  no_triple_nl_from k (u ++ t) = true -> no_triple_nl_from 0 t = true.
Proof.
  revert k. induction u as [|c r IH]; intros k.
  - apply no_triple_mono. lia.
  - cbn [app no_triple_nl_from]. destruct (c =? ch_nl)%N.
    + intros Hs. apply andb_true_iff in Hs as [_ Hr]. eapply IH, Hr.
    + apply IH.
Qed.

Lemma no_triple_prefix (k : nat) (u w : jsstring) :
  no_triple_nl_from k (u ++ w) = true -> no_triple_nl_from k u = true.
Proof.
  revert k. induction u as [|c r IH]; intros k; [reflexivity|].
  cbn [app no_triple_nl_from]. destruct (c =? ch_nl)%N.
  - intros Hs. apply andb_true_iff in Hs as [Hlt Hr].
    rewrite Hlt. apply IH, Hr.
  - apply IH.
Qed.

Lemma no_triple_trim (s : jsstring) :
  no_triple_nl s = true -> no_triple_nl (trim s) = true.
Proof.
  unfold no_triple_nl, trim. intros Hs.
  rewrite <- (take_drop_while is_ws s) in Hs. apply no_triple_suffix in Hs.
  destruct (strip_end_split is_ws (drop_while is_ws s)) as [w [E _]].
  rewrite E in Hs. eapply no_triple_prefix, Hs.
Qed.

Lemma repeat_snoc {A : Type} (a : A) (n : nat) :
  repeat a n ++ [a] = repeat a (S n).
Proof. induction n as [|n IH]; [reflexivity|]. cbn. rewrite IH. reflexivity. Qed.

Lemma flush_line_ends (j : nat) :
  flush_run 3 [ch_nl; ch_nl] (repeat ch_nl j) = repeat ch_nl (Nat.min j 2).
Proof.
  unfold flush_run. rewrite repeat_length.
  destruct j as [|[|[|j]]]; reflexivity.
Qed.

Lemma lines_solid_line_ends (a : bool) (m : nat) (t : jsstring) :
  lines_solid_from a (repeat ch_nl m ++ t)
  = lines_solid_from (a || (0 <? m)) t.
Proof.
  destruct m as [|m]; [cbn; rewrite orb_false_r; reflexivity|].
  rewrite orb_true_r. cbn [repeat app lines_solid_from]. rewrite N.eqb_refl.
  induction m as [|m IH]; [reflexivity|].
  cbn [repeat app lines_solid_from]. rewrite N.eqb_refl. exact IH.
Qed.

Lemma no_triple_line_ends (m : nat) (t : jsstring) :
  m <= 2 ->
  no_triple_nl_from 0 (repeat ch_nl m ++ t) = no_triple_nl_from m t.
Proof.
  intros Hm. destruct m as [|[|[|m]]]; [reflexivity | reflexivity | reflexivity | lia].
Qed.

(** The replacement of three or more line ends by two. *)
Lemma collapse_line_ends (t : jsstring) (j : nat) (a : bool) :
  lines_solid_from (a || (0 <? j)) t = true ->
  let out := replace_runs_from 3 (is_char ch_nl) [ch_nl; ch_nl]
               (repeat ch_nl j) t in
  lines_solid_from a out = true /\ no_triple_nl_from 0 out = true.
Proof.
  revert j a. induction t as [|c r IH]; intros j a Ht; cbn [replace_runs_from].
  - cbv zeta. rewrite flush_line_ends.
    rewrite <- (app_nil_r (repeat ch_nl (Nat.min j 2))).
    rewrite lines_solid_line_ends, no_triple_line_ends by lia.
    split; [reflexivity|]. destruct (Nat.min j 2) as [|[|?]]; reflexivity.
  - cbv zeta. change (is_char ch_nl c) with (c =? ch_nl)%N.
    cbn [lines_solid_from] in Ht.
    destruct (c =? ch_nl)%N eqn:Ec.
    + apply N.eqb_eq in Ec. subst c. rewrite repeat_snoc.
      apply (IH (S j) a). rewrite orb_true_r. exact Ht.
    + apply andb_true_iff in Ht as [Hc Hr].
      destruct (IH 0 false Hr) as [Hs Hn]. cbn [repeat] in Hs, Hn.
      rewrite flush_line_ends.
      rewrite lines_solid_line_ends, no_triple_line_ends by lia.
      cbn [lines_solid_from no_triple_nl_from]. rewrite Ec.
      split; [|exact Hn]. rewrite Hs, andb_true_r.
      replace (0 <? Nat.min j 2) with (0 <? j); [exact Hc|].
      destruct j as [|[|?]]; reflexivity.
Qed.

Lemma blank_is_no_line_end (c : N) :
  is_space_or_tab c = true -> (c =? ch_nl)%N = false.
Proof.
  unfold is_space_or_tab. intros Hc. apply orb_true_iff in Hc as [E | E];
    apply N.eqb_eq in E; subst c; reflexivity.
Qed.

Lemma blanks_inline (run : jsstring) :
  forallb is_space_or_tab run = true -> inline run = true.
Proof.
  induction run as [|c r IH]; [reflexivity|]. cbn. intros Hr.
  apply andb_true_iff in Hr as [Hc Hr].
  rewrite (blank_is_no_line_end c Hc). cbn. auto.
Qed.

(** The deletion of the blanks before a line end. *)
Lemma strip_blanks_no_triple (s : jsstring) (k : nat) (a : bool)
  (run : jsstring) :
  lines_solid_from a s = true -> no_triple_nl_from k s = true ->
  forallb is_space_or_tab run = true ->
  (a = false -> k = 0) -> (run <> [] -> a = false) ->
  no_triple_nl_from k (strip_blanks_before_nl_from run s) = true.
Proof.
  revert k a run. induction s as [|c r IH]; intros k a run Hs Hn Hrun Ha Hr;
    cbn [strip_blanks_before_nl_from].
  - apply no_triple_inline, blanks_inline, Hrun.
  - cbn [lines_solid_from no_triple_nl_from] in Hs, Hn.
    destruct (is_space_or_tab c) eqn:Eb.
    + rewrite (blank_is_no_line_end c Eb) in Hs, Hn.
      destruct a; [discriminate|]. rewrite (Ha eq_refl).
      apply (IH 0 false); [exact Hs | exact Hn | | reflexivity | reflexivity].
      rewrite forallb_app, Hrun. cbn. rewrite Eb. reflexivity.
    + destruct (c =? ch_nl)%N eqn:Ec.
      * apply andb_true_iff in Hn as [Hlt Hn].
        cbn [no_triple_nl_from]. rewrite Ec, Hlt.
        apply (IH (S k) true); [exact Hs | exact Hn | reflexivity
                               | discriminate | congruence].
      * apply andb_true_iff in Hs as [_ Hs].
        rewrite (no_triple_after_inline k run c _ (blanks_inline run Hrun) Ec).
        apply (IH 0 false); [exact Hs | exact Hn | reflexivity | reflexivity
                            | congruence].
Qed.

Lemma lines_solid_mid (p t : jsstring) :
  inline p = true ->
  lines_solid_from false (p ++ t) = lines_solid_from false t.
Proof.
  induction p as [|c r IH]; [reflexivity|]. cbn. intros Hp.
  apply andb_true_iff in Hp as [Hc Hr]. apply negb_true_iff in Hc.
  rewrite Hc. cbn. apply IH, Hr.
Qed.

Lemma lines_solid_entry (e t : jsstring) :
  solid e = true ->
  lines_solid_from true (e ++ ch_nl :: t) = lines_solid_from true t.
Proof.
  unfold solid. intros He. apply andb_true_iff in He as [Hi Hh].
  destruct e as [|c r]; [reflexivity|].
  cbn in Hi. apply andb_true_iff in Hi as [Hc Hr]. apply negb_true_iff in Hc.
  cbn [app lines_solid_from]. rewrite Hc, Hh. cbn [andb].
  rewrite (lines_solid_mid r _ Hr). reflexivity.
Qed.

Lemma lines_solid_last (e : jsstring) :
  solid e = true -> lines_solid_from true e = true.
Proof.
  unfold solid. intros He. apply andb_true_iff in He as [Hi Hh].
  destruct e as [|c r]; [reflexivity|].
  cbn in Hi. apply andb_true_iff in Hi as [Hc Hr]. apply negb_true_iff in Hc.
  cbn [lines_solid_from]. rewrite Hc, Hh. cbn [andb].
  rewrite <- (app_nil_r r). rewrite (lines_solid_mid r [] Hr). reflexivity.
Qed.

Lemma lines_solid_join (out : list jsstring) :
  Forall (fun e => solid e = true) out ->
  lines_solid_from true (join [ch_nl] out) = true.
Proof.
  induction 1 as [|e rest He Hrest IH]; [reflexivity|].
  destruct rest as [|q rest']; [apply lines_solid_last, He|].
  change (join [ch_nl] (e :: q :: rest'))
    with (e ++ ch_nl :: join [ch_nl] (q :: rest')).
  rewrite (lines_solid_entry e _ He). exact IH.
Qed.

(** What the three replacements at the end of linesToMarkdown make of
    solid entries. *)
Lemma finished_no_triple (out : list jsstring) :
  Forall (fun e => solid e = true) out ->
  no_triple_nl
    (trim (strip_blanks_before_nl
             (replace_runs 3 (is_char ch_nl) [ch_nl; ch_nl]
                (join [ch_nl] out)))) = true.
Proof.
  intros Hout. apply no_triple_trim. unfold no_triple_nl.
  destruct (collapse_line_ends (join [ch_nl] out) 0 true
              (lines_solid_join out Hout)) as [Hs Hn].
  apply (strip_blanks_no_triple _ 0 true []);
    [exact Hs | exact Hn | reflexivity | discriminate | congruence].
Qed.

Lemma blank_is_ws (c : N) : is_space_or_tab c = true -> is_ws c = true.
Proof.
  unfold is_space_or_tab. intros Hc. apply orb_true_iff in Hc as [E | E];
    apply N.eqb_eq in E; subst c; reflexivity.
Qed.

Lemma no_ws_no_blank (c : N) : is_ws c = false -> is_space_or_tab c = false.
Proof.
  intros Hc. destruct (is_space_or_tab c) eqn:Eb; [|reflexivity].
  rewrite (blank_is_ws c Eb) in Hc. discriminate.
Qed.

Lemma digit_no_ws (d : N) : is_digit d = true -> is_ws d = false.
Proof.
  unfold is_digit. intros Hd. apply andb_true_iff in Hd as [H1 H2].
  apply N.leb_le in H1. apply N.leb_le in H2.
  assert (E : (d = 48 \/ d = 49 \/ d = 50 \/ d = 51 \/ d = 52 \/ d = 53
               \/ d = 54 \/ d = 55 \/ d = 56 \/ d = 57)%N) by lia.
  repeat (destruct E as [-> | E]; [reflexivity|]). subst d. reflexivity.
Qed.

Lemma inline_drop_while (p : N -> bool) (s : jsstring) :
  inline s = true -> inline (drop_while p s) = true.
Proof. apply forallb_drop_while. Qed.

Lemma inline_trim (s : jsstring) : inline s = true -> inline (trim s) = true.
Proof.
  intros Hs. unfold trim. apply forallb_strip_end, forallb_drop_while, Hs.
Qed.

Lemma inline_replace_runs_from (min : nat) (p : N -> bool)
  (rep run s : jsstring) :
  inline rep = true -> inline run = true -> inline s = true ->
  inline (replace_runs_from min p rep run s) = true.
Proof.
  intros Hrep. revert run.
  assert (Hf : forall run, inline run = true ->
                           inline (flush_run min rep run) = true).
  { intros run Hrun. unfold flush_run. destruct (length run <? min); assumption. }
  induction s as [|c r IH]; intros run Hrun Hs; cbn [replace_runs_from].
  - apply Hf, Hrun.
  - cbn in Hs. apply andb_true_iff in Hs as [Hc Hr]. destruct (p c).
    + apply IH; [|exact Hr]. rewrite inline_app, Hrun. cbn. rewrite Hc.
      reflexivity.
    + rewrite inline_app, (Hf run Hrun). cbn. rewrite Hc. cbn.
      apply IH; [reflexivity | exact Hr].
Qed.

Lemma inline_replace_runs (min : nat) (p : N -> bool) (rep s : jsstring) :
  inline rep = true -> inline s = true ->
  inline (replace_runs min p rep s) = true.
Proof.
  intros Hrep Hs. destruct min; [exact Hs|].
  apply inline_replace_runs_from; [exact Hrep | reflexivity | exact Hs].
Qed.

Lemma inline_normalizeListPrefix (s : jsstring) :
  inline s = true -> inline (normalizeListPrefix s) = true.
Proof.
  intros Hs. unfold normalizeListPrefix.
  assert (Hb : inline (replace_bullet_glyph s) = true).
  { unfold replace_bullet_glyph. destruct s as [|c r]; [exact Hs|].
    destruct (is_bullet_glyph c); [|exact Hs].
    cbn in Hs. apply andb_true_iff in Hs as [_ Hr].
    cbn [app]. cbn. apply inline_drop_while, Hr. }
  revert Hb. generalize (replace_bullet_glyph s). intros t Ht.
  unfold replace_parenthesized_number. destruct t as [|c r]; [exact Ht|].
  destruct (c =? 40)%N; [|exact Ht].
  destruct (take_while is_digit r) as [|d ds] eqn:Et; [exact Ht|].
  destruct (drop_while is_digit r) as [|c' [|w rest']] eqn:Ed; try exact Ht.
  destruct ((c' =? 41)%N && is_ws w); [|exact Ht].
  cbn in Ht. apply andb_true_iff in Ht as [_ Hr].
  rewrite <- (take_drop_while is_digit r), Et, Ed in Hr.
  rewrite inline_app in Hr. apply andb_true_iff in Hr as [Hds Hr].
  cbn in Hr. apply andb_true_iff in Hr as [_ Hr].
  apply andb_true_iff in Hr as [_ Hr].
  rewrite !inline_app, Hds. cbn. apply inline_drop_while, Hr.
Qed.

Lemma normalized_solid (s : jsstring) :
  inline s = true -> (forall c r, s = c :: r -> is_ws c = false) ->
  solid (normalizeListPrefix s) = true.
Proof.
  intros Hs Hh. unfold solid.
  rewrite (inline_normalizeListPrefix s Hs). cbn [andb].
  destruct (normalizeListPrefix_shape s) as [E | [[d E] | [d [rest [E Hd]]]]];
    rewrite E.
  - destruct s as [|c r]; [reflexivity|].
    rewrite (no_ws_no_blank c (Hh c r eq_refl)). reflexivity.
  - reflexivity.
  - rewrite (no_ws_no_blank d (digit_no_ws d Hd)). reflexivity.
Qed.

Lemma trimmed_inline_solid (s : jsstring) :
  inline s = true -> solid (normalizeListPrefix (trim s)) = true.
Proof.
  intros Hs. apply normalized_solid; [apply inline_trim, Hs|].
  intros c r E. apply (trimmed_head c r). rewrite <- E. apply trim_trimmed.
Qed.

Lemma inline_join (sep : jsstring) (parts : list jsstring) :
  inline sep = true -> Forall (fun p => inline p = true) parts ->
  inline (join sep parts) = true.
Proof.
  intros Hsep. induction 1 as [|p rest Hp Hrest IH]; [reflexivity|].
  destruct rest as [|q rest']; [exact Hp|].
  change (join sep (p :: q :: rest')) with (p ++ sep ++ join sep (q :: rest')).
  rewrite !inline_app, Hp, Hsep, IH. reflexivity.
Qed.

Lemma table_row_solid (cells : list jsstring) :
  Forall (fun p => inline p = true) cells -> solid (table_row cells) = true.
Proof.
  intros Hc. unfold solid, table_row. rewrite !inline_app.
  rewrite (inline_join (str " | ") cells eq_refl Hc). reflexivity.
Qed.

Lemma split_on_from_inline (sep : N) (cur s : jsstring) :
  inline cur = true -> inline s = true ->
  Forall (fun p => inline p = true) (split_on_from sep cur s).
Proof.
  revert cur. induction s as [|c r IH]; intros cur Hcur Hs;
    cbn [split_on_from].
  - constructor; [exact Hcur | constructor].
  - cbn in Hs. apply andb_true_iff in Hs as [Hc Hr]. destruct (c =? sep)%N.
    + constructor; [exact Hcur | apply IH; [reflexivity | exact Hr]].
    + apply IH; [|exact Hr]. rewrite inline_app, Hcur. cbn. rewrite Hc.
      reflexivity.
Qed.

Lemma inline_escape_bars (s : jsstring) :
  inline s = true -> inline (escape_bars s) = true.
Proof.
  unfold escape_bars. induction s as [|c r IH]; [reflexivity|].
  cbn [flat_map]. intros Hs. cbn in Hs. apply andb_true_iff in Hs as [Hc Hr].
  rewrite inline_app, (IH Hr), andb_true_r.
  destruct (N.eqb_spec c ch_bar) as [-> | _]; [reflexivity|].
  cbn. rewrite Hc. reflexivity.
Qed.

Lemma Forall_firstn_keep {A : Type} (P : A -> Prop) (n : nat) (l : list A) :
  Forall P l -> Forall P (firstn n l).
Proof.
  intros Hl. revert n. induction Hl as [|a l Ha _ IH]; intros [|n]; cbn;
    constructor; auto.
Qed.

Section SolidEntries.

Context {num : Type} `{JsNumber num}.

Lemma table_entries_solid (block : list (ExtractedLine num)) :
  Forall inline_line block ->
  Forall (fun e => solid e = true) (tabbedBlockToMarkdownTable block).
Proof.
  intros Hb. unfold tabbedBlockToMarkdownTable.
  match goal with |- context [if ?b then _ else _] => destruct b end.
  - unfold fallbackTabbedBlock. apply Forall_map.
    eapply List.Forall_impl; [|exact Hb]. intros line Hl.
    apply trimmed_inline_solid.
    apply inline_replace_runs; [reflexivity|].
    apply inline_replace_runs; [reflexivity | exact Hl].
  - set (colCount := max_of _).
    set (paddedRows := map _ (map _ block)).
    assert (Hp : Forall (Forall (fun p => inline p = true)) paddedRows).
    { unfold paddedRows. apply Forall_map, Forall_map.
      eapply List.Forall_impl; [|exact Hb]. intros line Hl.
      apply Forall_firstn_keep. unfold pad_cells. apply Forall_app. split.
      - apply Forall_map. unfold splitTabbedColumns. apply Forall_map.
        eapply List.Forall_impl;
          [|apply (split_on_from_inline ch_tab [] (line_text line) eq_refl Hl)].
        intros cell Hcell. apply inline_trim, inline_escape_bars, inline_trim, Hcell.
      - rewrite List.Forall_forall. intros cell Hin.
        apply repeat_spec in Hin. subst cell. reflexivity. }
    constructor; [|constructor].
    + apply table_row_solid. destruct Hp; [constructor | assumption].
    + apply table_row_solid. rewrite List.Forall_forall. intros cell Hin.
      apply repeat_spec in Hin. subst cell. reflexivity.
    + apply Forall_map. destruct Hp as [|row rows Hrow Hrows]; [constructor|].
      cbn [skipn]. eapply List.Forall_impl; [|exact Hrows].
      intros cells Hc. apply table_row_solid, Hc.
Qed.

Lemma block_out_solid (block : list (ExtractedLine num)) :
  Forall inline_line block ->
  Forall (fun e => solid e = true) (block_out block).
Proof.
  intros Hb. unfold block_out. destruct block as [|l ls]; [constructor|].
  apply Forall_app. split; [apply table_entries_solid, Hb|].
  constructor; [reflexivity | constructor].
Qed.

Lemma plain_line_out_solid (line : ExtractedLine num) (bodyFontSize : num) :
  inline_line line ->
  Forall (fun e => solid e = true) (plain_line_out line bodyFontSize).
Proof.
  intros Hl. unfold plain_line_out.
  pose proof (trimmed_inline_solid (line_text line) Hl) as Hn.
  destruct (normalizeListPrefix (trim (line_text line))) as [|c r] eqn:En.
  - constructor; [reflexivity | constructor].
  - apply Forall_app. split.
    + destruct (looksLikeHeading (c :: r) (line_fontSize line) bodyFontSize);
        (constructor; [|constructor]); [|exact Hn].
      unfold solid in Hn |- *. apply andb_true_iff in Hn as [Hi _].
      rewrite !inline_app, Hi.
      assert (Hh : inline (repeat ch_hash
                             (headingLevel (line_fontSize line) bodyFontSize))
                   = true).
      { unfold inline. rewrite forallb_forall. intros x Hx.
        apply repeat_spec in Hx. subst x. reflexivity. }
      rewrite Hh. cbn [inline forallb andb negb N.eqb].
      unfold headingLevel.
      destruct (num_ge _ _); [reflexivity|].
      destruct (num_ge _ _); reflexivity.
    + destruct (breakAfter line); constructor; [reflexivity | constructor].
Qed.

Lemma markdown_out_solid (lines block : list (ExtractedLine num))
  (bodyFontSize : num) :
  Forall inline_line lines -> Forall inline_line block ->
  Forall (fun e => solid e = true) (markdown_out lines block bodyFontSize).
Proof.
  revert block. induction lines as [|line rest IH]; intros block Hl Hb;
    cbn [markdown_out].
  - apply block_out_solid, Hb.
  - inversion Hl as [|? ? Hline Hrest]; subst. destruct (hasTabs line).
    + apply IH; [exact Hrest|]. apply Forall_app.
      split; [exact Hb | constructor; [exact Hline | constructor]].
    + apply Forall_app. split; [apply block_out_solid, Hb|].
      apply Forall_app. split; [apply plain_line_out_solid, Hline|].
      apply IH; [exact Hrest | constructor].
Qed.

Lemma linesToMarkdown_no_triple (lines : list (ExtractedLine num))
  (bodyFontSize : num) :
  Forall inline_line lines ->
  no_triple_nl (linesToMarkdown lines bodyFontSize) = true.
Proof.
  intros Hl. unfold linesToMarkdown. apply finished_no_triple.
  apply markdown_out_solid; [exact Hl | constructor].
Qed.

End SolidEntries.

Lemma plain_spaces_inline (s : jsstring) :
  plain_spaces s = true -> inline s = true.
Proof.
  unfold plain_spaces, inline. rewrite !forallb_forall. intros Hs c Hin.
  specialize (Hs c Hin). destruct (N.eqb_spec c ch_nl) as [-> | _];
    [discriminate | reflexivity].
Qed.

Lemma no_triple_app (k : nat) (p t : jsstring) :
  p <> [] -> ends_with_ws p = false ->
  no_triple_nl_from k (p ++ t)
  = no_triple_nl_from k p && no_triple_nl_from 0 t.
Proof.
  revert k. induction p as [|c r IH]; intros k Hne He; [congruence|].
  destruct r as [|d r'].
  - cbn [ends_with_ws] in He. cbn [app no_triple_nl_from].
    destruct (N.eqb_spec c ch_nl) as [-> | _]; [discriminate | reflexivity].
  - change (ends_with_ws (c :: d :: r')) with (ends_with_ws (d :: r')) in He.
    change ((c :: d :: r') ++ t) with (c :: (d :: r') ++ t).
    cbn [no_triple_nl_from]. destruct (c =? ch_nl)%N.
    + rewrite (IH (S k)) by (discriminate || exact He).
      rewrite andb_assoc. reflexivity.
    + apply IH; [discriminate | exact He].
Qed.

Lemma no_triple_at_text (k : nat) (c : N) (r : jsstring) :
  is_ws c = false ->
  no_triple_nl_from k (c :: r) = no_triple_nl_from 0 (c :: r).
Proof.
  intros Hc. cbn [no_triple_nl_from].
  destruct (N.eqb_spec c ch_nl) as [-> | _]; [discriminate | reflexivity].
Qed.

Lemma join_pages_no_triple (parts : list jsstring) :
  Forall (fun p => p <> [] /\ trimmed p /\ no_triple_nl p = true) parts ->
  no_triple_nl (join page_separator parts) = true.
Proof.
  induction 1 as [|p rest [Hne [Ht Hp]] Hrest IH]; [reflexivity|].
  destruct rest as [|q rest']; [exact Hp|].
  change (join page_separator (p :: q :: rest'))
    with (p ++ page_separator ++ join page_separator (q :: rest')).
  unfold no_triple_nl in *.
  rewrite (no_triple_app 0 p _ Hne (trimmed_ends p Ht)), Hp. cbn [andb].
  inversion Hrest as [|? ? [Hq [Htq _]] _]; subst.
  destruct q as [|c q']; [congruence|].
  assert (E : exists tail, join page_separator ((c :: q') :: rest')
                           = c :: tail).
  { destruct rest'; [exists q'; reflexivity|]. eexists. reflexivity. }
  destruct E as [tail E]. rewrite E in IH |- *.
  unfold page_separator. cbn [app no_triple_nl_from N.eqb Pos.eqb ch_nl].
  change (no_triple_nl_from 2 (c :: tail) = true).
  rewrite (no_triple_at_text 2 c tail (trimmed_head c q' Htq)). exact IH.
Qed.

Section NoBlankPair.

Context {num : Type} `{JsNumber num}.

Lemma row_step_inline (st : RowState num) (segment : PdfTextSegment num)
  (i : nat) :
  inline (st_text st) = true -> inline (seg_text segment) = true ->
  inline (st_text (row_step st segment i)) = true.
Proof.
  intros Hst Hs. unfold row_step.
  destruct (0 <? i); [|cbn; rewrite inline_app, Hst, Hs; reflexivity].
  destruct (num_gt _ _);
    [cbn; rewrite !inline_app, Hst, Hs; reflexivity|].
  destruct (num_gt _ _); cbn; rewrite !inline_app, Hst, Hs; reflexivity.
Qed.

Lemma row_forEach_inline (segments : list (PdfTextSegment num)) (i : nat)
  (st : RowState num) :
  inline (st_text st) = true ->
  Forall (fun s => inline (seg_text s) = true) segments ->
  inline (st_text (row_forEach segments i st)) = true.
Proof.
  intros Hst Hs. revert i st Hst.
  induction Hs as [|s rest Hs _ IH]; intros i st Hst; [exact Hst|].
  cbn [row_forEach]. apply IH, row_step_inline; assumption.
Qed.

Lemma line_of_row_inline (row : Row num) (nextRow : option (Row num))
  (line : ExtractedLine num) :
  Forall (fun s => inline (seg_text s) = true) (row_segments row) ->
  line_of_row row nextRow = Some line -> inline_line line.
Proof.
  intros Hs. unfold line_of_row.
  set (text := replace_runs 2 _ _ _).
  assert (Ht : inline text = true).
  { apply inline_replace_runs; [reflexivity|]. apply forallb_strip_end.
    apply (row_forEach_inline (row_segments row) 0 row_start eq_refl Hs). }
  destruct text as [|c r]; [discriminate|].
  intros E. injection E as <-. exact Ht.
Qed.

Lemma lines_of_rows_inline (rows : list (Row num)) :
  Forall (fun row => Forall (fun s => inline (seg_text s) = true)
                            (row_segments row)) rows ->
  Forall inline_line (lines_of_rows rows).
Proof.
  induction 1 as [|row rest Hrow _ IH]; cbn [lines_of_rows]; [constructor|].
  destruct (line_of_row row (head rest)) as [line|] eqn:El; [|exact IH].
  constructor; [eapply line_of_row_inline; eassumption | exact IH].
Qed.

Lemma extracted_lines_inline (items : list (RawItem num)) :
  Forall inline_line (extractLinesFromPdfTextContent items).
Proof.
  apply lines_of_rows_inline.
  eapply List.Forall_impl; [|apply (rows_clean items)].
  intros row [_ Hc]. eapply List.Forall_impl; [|exact Hc].
  intros s [_ [_ [_ Hp]]]. apply plain_spaces_inline, Hp.
Qed.

Lemma read_pages_inline (pdf : PdfDocument num) (k pageNo : nat)
  (log log' : list nat) (pages : list (list (ExtractedLine num))) :
  read_pages pdf k pageNo log = (inr pages, log') ->
  Forall (Forall inline_line) pages.
Proof.
  revert pageNo log log' pages.
  induction k as [|k IH]; intros pageNo log log' pages; cbn [read_pages].
  - unfold io_ret. intros E. injection E as <- _. constructor.
  - unfold io_bind at 1. unfold getTextContent.
    destruct (page_items pdf pageNo) as [items|]; [|discriminate].
    unfold io_bind.
    destruct (read_pages pdf k (S pageNo) (log ++ [pageNo]))
      as [[e | rest] log''] eqn:Er; [discriminate|].
    unfold io_ret. intros E. injection E as <- _.
    constructor; [apply extracted_lines_inline | eapply IH, Er].
Qed.

(** X29. The Markdown of a successful conversion never has three line
    ends in a row, that is never two blank lines in a row: not inside a
    page, where the blanks before a line end are deleted after the line
    ends have been collapsed, and not where the pages are joined. *)
Theorem markdown_has_no_blank_pair (pdf : PdfDocument num) (log : list nat)
  (markdown : jsstring) :
  fst (pdfToMarkdown pdf log) = inr markdown ->
  no_triple_nl markdown = true.
Proof.
  unfold pdfToMarkdown. destruct (MAX_PDF_PAGES <? numPages pdf);
    [discriminate|].
  unfold io_bind.
  destruct (read_pages pdf (numPages pdf) 1 log) as [[e | pages] log'] eqn:Er;
    [discriminate|].
  pose proof (read_pages_inline pdf _ _ _ _ _ Er) as Hpages.
  unfold pagesToMarkdown.
  destruct (length (concat pages) =? 0); [discriminate|].
  cbn [io_ret fst]. intros E. injection E as <-.
  apply no_triple_trim, join_pages_no_triple.
  rewrite List.Forall_forall. intros p Hin.
  apply filter_In in Hin as [Hin Hlen].
  apply in_map_iff in Hin as [lines [<- Hl]].
  split; [intros E; rewrite E in Hlen; discriminate|].
  split; [apply trim_trimmed|].
  apply linesToMarkdown_no_triple.
  rewrite List.Forall_forall in Hpages. apply Hpages, Hl.
Qed.

End NoBlankPair.

Lemma markdown_has_no_blank_pair_witness :
  no_triple_nl (str "### Report Title" ++ [ch_nl; ch_nl]
                ++ str "This is body text.") = true.
Proof.
  apply (markdown_has_no_blank_pair
           (report_document 72 700 150 72 650 100)%Q []).
  reflexivity.
Defined.
